(** * EnvChanter: the env-file codec, the validators and the sync engine

    A shallow embedding of [main.go].  Go strings are byte sequences, so
    they are [string]s here (one [ascii] per byte); Go maps are [gmap]s;
    the effects of the program (file system, remote calls, terminal) are
    threaded through an explicit [World]. *)

From Stdlib Require Import ZArith NArith Ascii String List Lia Bool Zbitwise.
From stdpp Require Import base option list sorting gmap strings.

Local Open Scope Z_scope.

(** ** Bytes and the characters the program names *)

Module Ch.
Definition tab : ascii := "009"%char.
Definition lf : ascii := "010"%char.
Definition cr : ascii := "013"%char.
Definition space : ascii := " "%char.
Definition dquote : ascii := "034"%char.
Definition hash : ascii := "#"%char.
Definition squote : ascii := "'"%char.
Definition eq : ascii := "="%char.
Definition backslash : ascii := "\"%char.
Definition n : ascii := "n"%char.
Definition r : ascii := "r"%char.
Definition t : ascii := "t"%char.
End Ch.

(** [s[i]] as a number, as Go's [byte] and [rune] comparisons see it. *)
Definition byte (c : ascii) : Z := Z.of_N (N_of_ascii c).

Definition str1 (c : ascii) : string := String c "".
Definition str2 (c d : ascii) : string := String c (String d "").

(** ** The functions of Go's [strings] and [unicode/utf8] packages that
    [main.go] calls *)

Module utf8.
Definition RuneError : Z := 65533.
Definition RuneSelf : Z := 128.

(** Continuation bytes are 0x80..0xBF. *)
Definition locb : Z := 128.
Definition hicb : Z := 191.

(** The [first] table of the decoder: for a leading byte, the length of
    the sequence and the range accepted for the second byte; [None] for
    a byte that cannot start a multi-byte sequence. *)
Definition first (b0 : Z) : option (nat * Z * Z) :=
  if (194 <=? b0) && (b0 <=? 223) then Some (2%nat, locb, hicb)
  else if b0 =? 224 then Some (3%nat, 160, hicb)
  else if (225 <=? b0) && (b0 <=? 236) then Some (3%nat, locb, hicb)
  else if b0 =? 237 then Some (3%nat, locb, 159)
  else if (238 <=? b0) && (b0 <=? 239) then Some (3%nat, locb, hicb)
  else if b0 =? 240 then Some (4%nat, 144, hicb)
  else if (241 <=? b0) && (b0 <=? 243) then Some (4%nat, locb, hicb)
  else if b0 =? 244 then Some (4%nat, locb, 143)
  else None.

Definition is_cont (b : Z) : bool := (locb <=? b) && (b <=? hicb).

(** [utf8.DecodeRuneInString]: the first rune of [s] and its width in
    bytes; an invalid or truncated sequence is [RuneError] of width 1. *)
Definition DecodeRuneInString (s : string) : Z * nat :=
  match s with
  | "" => (RuneError, 0%nat)
  | String c0 t0 =>
    let s0 := byte c0 in
    if s0 <? RuneSelf then (s0, 1%nat)
    else match first s0 with
    | None => (RuneError, 1%nat)
    | Some (sz, lo, hi) =>
      match t0 with
      | "" => (RuneError, 1%nat)
      | String c1 t1 =>
        let s1 := byte c1 in
        if (s1 <? lo) || (hi <? s1) then (RuneError, 1%nat)
        else if (sz <=? 2)%nat
        then (Z.lor (Z.shiftl (Z.land s0 31) 6) (Z.land s1 63), 2%nat)
        else match t1 with
        | "" => (RuneError, 1%nat)
        | String c2 t2 =>
          let s2 := byte c2 in
          if negb (is_cont s2) then (RuneError, 1%nat)
          else if (sz <=? 3)%nat
          then (Z.lor (Z.lor (Z.shiftl (Z.land s0 15) 12)
                             (Z.shiftl (Z.land s1 63) 6))
                      (Z.land s2 63), 3%nat)
          else match t2 with
          | "" => (RuneError, 1%nat)
          | String c3 _ =>
            let s3 := byte c3 in
            if negb (is_cont s3) then (RuneError, 1%nat)
            else (Z.lor (Z.lor (Z.lor (Z.shiftl (Z.land s0 7) 18)
                                      (Z.shiftl (Z.land s1 63) 12))
                               (Z.shiftl (Z.land s2 63) 6))
                        (Z.land s3 63), 4%nat)
          end
        end
      end
    end
  end.

(** [utf8.RuneStart]: the byte is not a continuation byte. *)
Definition RuneStart (b : Z) : bool := negb (Z.land b 192 =? 128).

(** [utf8.DecodeLastRuneInString], on the bytes of the string taken from
    its end ([rs] is the string reversed): it walks back over at most
    three bytes to a rune start, decodes from there, and answers
    [RuneError] of width 1 unless that rune ends exactly at the end. *)
Definition DecodeLastRune_rev (rs : string) : Z * nat :=
  let check (seq : string) (n : nat) :=
    let '(r, size) := DecodeRuneInString seq in
    if (size =? n)%nat then (r, size) else (RuneError, 1%nat) in
  match rs with
  | "" => (RuneError, 0%nat)
  | String c0 t0 =>
    if byte c0 <? RuneSelf then (byte c0, 1%nat)
    else match t0 with
    | "" => (RuneError, 1%nat)
    | String c1 t1 =>
      if RuneStart (byte c1) then check (String c1 (String c0 "")) 2%nat
      else match t1 with
      | "" => (RuneError, 1%nat)
      | String c2 t2 =>
        if RuneStart (byte c2)
        then check (String c2 (String c1 (String c0 ""))) 3%nat
        else match t2 with
        | "" => (RuneError, 1%nat)
        | String c3 _ =>
          if RuneStart (byte c3)
          then check (String c3 (String c2 (String c1 (String c0 "")))) 4%nat
          else (RuneError, 1%nat)
        end
      end
    end
  end.
End utf8.

(** [for i, char := range s]: the runes of [s] with the byte offset each
    starts at.  [skip] counts the bytes of the current rune still to pass. *)
Fixpoint range_go (skip i : nat) (s : string) : list (nat * Z) :=
  match s with
  | "" => []
  | String _ t =>
    match skip with
    | S k => range_go k (S i) t
    | O => let '(r, w) := utf8.DecodeRuneInString s in
           (i, r) :: range_go (w - 1) (S i) t
    end
  end.

Definition range_string (s : string) : list (nat * Z) := range_go 0 0 s.

Module strings.
Fixpoint HasPrefix (s prefix : string) : bool :=
  match prefix, s with
  | "", _ => true
  | String p ps, String c cs => bool_decide (c = p) && HasPrefix cs ps
  | String _ _, "" => false
  end.

(** [strings.Contains(s, substr)]. *)
Fixpoint Contains (s substr : string) : bool :=
  HasPrefix s substr ||
  match s with
  | "" => false
  | String _ t => Contains t substr
  end.

(** [strings.ContainsAny(s, chars)] for ASCII [chars]. *)
Fixpoint ContainsAny (s : string) (chars : list ascii) : bool :=
  match s with
  | "" => false
  | String c t => bool_decide (c ∈ chars) || ContainsAny t chars
  end.

(** [strings.ReplaceAll(s, old, new)] for a non-empty [old] (every call
    in [main.go] has one): occurrences are found from the left and do
    not overlap.  [skip] counts the bytes of a match still to drop. *)
Fixpoint replace_go (old new : string) (skip : nat) (s : string) : string :=
  match s with
  | "" => ""
  | String c t =>
    match skip with
    | S k => replace_go old new k t
    | O => if HasPrefix s old
           then new +:+ replace_go old new (String.length old - 1) t
           else String c (replace_go old new 0 t)
    end
  end.

Definition ReplaceAll (s old new : string) : string := replace_go old new 0 s.

(** [strings.Split(s, sep)] for a one-byte separator: always at least
    one piece. *)
Fixpoint Split (s : string) (sep : ascii) : list string :=
  match s with
  | "" => [""]
  | String c t =>
    if bool_decide (c = sep) then "" :: Split t sep
    else match Split t sep with
         | [] => [str1 c]
         | p :: ps => String c p :: ps
         end
  end.

(** [strings.SplitN(s, sep, 2)] for a one-byte separator: the text
    before and after the first [sep], or [s] alone when it has none. *)
Fixpoint SplitN2 (s : string) (sep : ascii) : list string :=
  match s with
  | "" => [""]
  | String c t =>
    if bool_decide (c = sep) then [""; t]
    else match SplitN2 t sep with
         | [p] => [String c p]
         | p :: ps => String c p :: ps
         | [] => [str1 c]
         end
  end.

(** [unicode.IsSpace]. *)
Definition IsSpace (r : Z) : bool :=
  ((9 <=? r) && (r <=? 13)) || (r =? 32) || (r =? 133) || (r =? 160)
  || (r =? 5760) || ((8192 <=? r) && (r <=? 8202))
  || (r =? 8232) || (r =? 8233) || (r =? 8239) || (r =? 8287)
  || (r =? 12288).

(** [strings.TrimLeftFunc(s, unicode.IsSpace)]. *)
Fixpoint trimLeft_go (skip : nat) (s : string) : string :=
  match s with
  | "" => ""
  | String _ t =>
    match skip with
    | S k => trimLeft_go k t
    | O => let '(r, w) := utf8.DecodeRuneInString s in
           if IsSpace r then trimLeft_go (w - 1) t else s
    end
  end.

Definition TrimLeftSpace (s : string) : string := trimLeft_go 0 s.

(** [strings.TrimRightFunc(s, unicode.IsSpace)], on the reversed string. *)
Fixpoint trimRight_go (skip : nat) (rs : string) : string :=
  match rs with
  | "" => ""
  | String _ t =>
    match skip with
    | S k => trimRight_go k t
    | O => let '(r, w) := utf8.DecodeLastRune_rev rs in
           if IsSpace r then trimRight_go (w - 1) t else rs
    end
  end.

Definition TrimRightSpace (s : string) : string :=
  String.rev (trimRight_go 0 (String.rev s)).

(** [strings.TrimSpace]: its ASCII fast path and its Unicode fallback
    both remove the leading, then the trailing, white space runes. *)
Definition TrimSpace (s : string) : string :=
  TrimRightSpace (TrimLeftSpace s).

(** [strings.ToLower] on ASCII letters.  Go also maps the runes above
    U+007F; the only ones it maps into ASCII are U+0130 (to i) and
    U+212A (to k), letters of none of the answers [promptForUpdates]
    compares with, so leaving those bytes as they are takes the same
    branch of its switch. *)
Definition lower (c : ascii) : ascii :=
  if (65 <=? byte c) && (byte c <=? 90)
  then ascii_of_N (N_of_ascii c + 32) else c.

Fixpoint ToLower (s : string) : string :=
  match s with
  | "" => ""
  | String c t => String (lower c) (ToLower t)
  end.
End strings.

(** ** Errors

    [fmt.Errorf(format, args...)]; [Wrapf] is the same with a last argument
    wrapped by [%w]; [External] is an error made by the operating system or
    by a cloud SDK. *)

Inductive arg : Type :=
| ArgS (s : string)
| ArgD (n : nat)
| ArgC (r : Z).

Inductive error : Type :=
| Errorf (format : string) (args : list arg)
| Wrapf (format : string) (args : list arg) (err : error)
| External (origin : string).

(** A Go function returning [(T, error)]. *)
Inductive result (T : Type) : Type :=
| Ok (v : T)
| Err (e : error).
Arguments Ok {T} v.
Arguments Err {T} e.

(** ** Validation *)

Definition is_upper (char : Z) : bool := (65 <=? char) && (char <=? 90).
Definition is_lower (char : Z) : bool := (97 <=? char) && (char <=? 122).
Definition is_digit (char : Z) : bool := (48 <=? char) && (char <=? 57).

(** A [for i, char := range s] loop whose body either returns an error or
    falls through to the next rune. *)
Fixpoint for_range (body : nat → Z → option error) (rs : list (nat * Z))
  : option error :=
  match rs with
  | [] => None
  | (i, char) :: rest =>
    match body i char with
    | Some e => Some e
    | None => for_range body rest
    end
  end.

Definition validateFilePath (path : string) : option error :=
  if bool_decide (path = "") then Some (Errorf "empty file path" [])
  else
    let cleanPath := strings.TrimSpace path in
    if strings.Contains cleanPath ".."
    then Some (Errorf "path traversal detected" [])
    else if strings.Contains cleanPath (str1 zero)
    then Some (Errorf "null byte in file path" [])
    else None.

Definition validateEnvVarName_body (i : nat) (char : Z) : option error :=
  if (i =? 0)%nat && is_digit char
  then Some (Errorf "environment variable name cannot start with a digit" [])
  else if negb (is_upper char || is_lower char || is_digit char || (char =? 95))
  then Some (Errorf "environment variable name contains invalid character: %c"
                    [ArgC char])
  else None.

Definition validateEnvVarName (name : string) : option error :=
  if bool_decide (name = "")
  then Some (Errorf "empty environment variable name" [])
  else for_range validateEnvVarName_body (range_string name).

Definition validateSSMPath_body (_ : nat) (char : Z) : option error :=
  if negb (is_upper char || is_lower char || is_digit char
           || (char =? 45) || (char =? 95) || (char =? 46) || (char =? 47))
  then Some (Errorf "SSM path contains invalid character: %c" [ArgC char])
  else None.

Definition validateSSMPath (path : string) : option error :=
  if bool_decide (path = "") then Some (Errorf "empty SSM path" [])
  else if negb (strings.HasPrefix path "/")
  then Some (Errorf "SSM path must start with /" [])
  else
    match for_range validateSSMPath_body (range_string path) with
    | Some e => Some e
    | None =>
      if strings.Contains path ".."
      then Some (Errorf "path traversal detected in SSM path" [])
      else if (2048 <? String.length path)%nat
      then Some (Errorf "SSM path exceeds maximum length of 2048 characters" [])
      else None
    end.

Definition validateAzureSecretName_body (_ : nat) (char : Z) : option error :=
  if negb (is_upper char || is_lower char || is_digit char || (char =? 45))
  then Some (Errorf
    "secret name contains invalid character: %c (only alphanumeric and hyphens allowed)"
    [ArgC char])
  else None.

Definition validateAzureSecretName (name : string) : option error :=
  if bool_decide (name = "") then Some (Errorf "empty secret name" [])
  else if (127 <? String.length name)%nat
  then Some (Errorf "secret name exceeds maximum length of 127 characters" [])
  else for_range validateAzureSecretName_body (range_string name).

(** [type ParameterMap map[string]string].  A [range] over a Go map visits
    its entries in an unspecified order: every loop over a map is written
    over the list of entries in the order visited, and the functions that
    take the map itself visit [map_to_list]. *)
Abbreviation ParameterMap := (gmap string string).

Fixpoint validateParameterMap_range (entries : list (string * string))
  : option error :=
  match entries with
  | [] => None
  | (envKey, ssmPath) :: rest =>
    match validateEnvVarName envKey with
    | Some err =>
      Some (Wrapf "invalid environment variable name %q: %w" [ArgS envKey] err)
    | None =>
      match validateSSMPath ssmPath with
      | Some err =>
        Some (Wrapf "invalid SSM path %q for key %q: %w"
                     [ArgS ssmPath; ArgS envKey] err)
      | None => validateParameterMap_range rest
      end
    end
  end.

Definition validateParameterMap (paramMap : ParameterMap) : option error :=
  if (size paramMap =? 0)%nat then Some (Errorf "parameter map is empty" [])
  else validateParameterMap_range (map_to_list paramMap).

Fixpoint validateAzureParameterMap_range (entries : list (string * string))
  : option error :=
  match entries with
  | [] => None
  | (envKey, secretName) :: rest =>
    match validateEnvVarName envKey with
    | Some err =>
      Some (Wrapf "invalid environment variable name %q: %w" [ArgS envKey] err)
    | None =>
      match validateAzureSecretName secretName with
      | Some err =>
        Some (Wrapf "invalid Azure secret name %q for key %q: %w"
                     [ArgS secretName; ArgS envKey] err)
      | None => validateAzureParameterMap_range rest
      end
    end
  end.

Definition validateAzureParameterMap (paramMap : ParameterMap) : option error :=
  if (size paramMap =? 0)%nat then Some (Errorf "parameter map is empty" [])
  else validateAzureParameterMap_range (map_to_list paramMap).

(** The naming rules as the specification words them, byte by byte. *)
Module Rule.
Fixpoint all_bytes (cls : Z → bool) (s : string) : bool :=
  match s with
  | "" => true
  | String c t => cls (byte c) && all_bytes cls t
  end.

(** [[A-Za-z0-9/_.-]] *)
Definition path_char (b : Z) : bool :=
  is_upper b || is_lower b || is_digit b
  || (b =? 47) || (b =? 95) || (b =? 46) || (b =? 45).

(** [[A-Za-z0-9-]] *)
Definition name_char (b : Z) : bool :=
  is_upper b || is_lower b || is_digit b || (b =? 45).

(** [[A-Za-z_]] and [[A-Za-z0-9_]] *)
Definition ident_start (b : Z) : bool := is_upper b || is_lower b || (b =? 95).
Definition ident_char (b : Z) : bool :=
  is_upper b || is_lower b || is_digit b || (b =? 95).

(** Path-style: starts with [/], characters in the class, length at most
    2048. *)
Definition path_style (s : string) : bool :=
  strings.HasPrefix s "/" && all_bytes path_char s
  && (String.length s <=? 2048)%nat.

(** Name-style: 1 to 127 characters in the class. *)
Definition name_style (s : string) : bool :=
  (1 <=? String.length s)%nat && (String.length s <=? 127)%nat
  && all_bytes name_char s.

(** [^[A-Za-z_][A-Za-z0-9_]*$] *)
Definition local_name (s : string) : bool :=
  match s with
  | "" => false
  | String c t => ident_start (byte c) && all_bytes ident_char t
  end.
End Rule.


(** ** The file system

    Files have permission bits and bytes.  [readonly] holds the paths that
    cannot be opened for writing; reading fails on a missing file. *)

Module os.
Record File : Type := mkFile { Mode : Z; Data : string }.

Record FS : Type := mkFS {
  files : gmap string File;
  umask : Z;
  readonly : gset string
}.

Definition ReadFile (fs : FS) (name : string) : option string :=
  Data <$> files fs !! name.

(** [os.OpenFile(name, O_CREATE|O_WRONLY|O_TRUNC, perm)]: a file that
    exists is emptied and keeps its mode, a missing one is created with
    mode [perm &^ umask]. *)
Definition OpenFile_create_trunc (fs : FS) (name : string) (perm : Z)
  : option FS :=
  if bool_decide (name ∈ readonly fs) then None
  else
    let mode :=
      match files fs !! name with
      | Some f => Mode f
      | None => Z.land perm (Z.lnot (umask fs))
      end in
    Some (mkFS (<[name := mkFile mode ""]> (files fs)) (umask fs) (readonly fs)).

(** A write to the open file appends to it. *)
Definition WriteString (fs : FS) (name : string) (text : string) : FS :=
  mkFS (alter (λ f, mkFile (Mode f) (Data f +:+ text)) name (files fs))
       (umask fs) (readonly fs).

(** Group and world permission bits, 0o077. *)
Definition group_world : Z := 63.
End os.

(** ** The env-file codec *)

Definition needsQuoting (value : string) : bool :=
  strings.ContainsAny value
    [Ch.space; Ch.tab; Ch.lf; Ch.cr; Ch.dquote; Ch.squote; Ch.backslash].

Definition escapeValue (value : string) : string :=
  let value := strings.ReplaceAll value "\" "\\" in
  let value := strings.ReplaceAll value (str1 Ch.dquote) (str2 Ch.backslash Ch.dquote) in
  let value := strings.ReplaceAll value (str1 Ch.lf) "\n" in
  let value := strings.ReplaceAll value (str1 Ch.cr) "\r" in
  let value := strings.ReplaceAll value (str1 Ch.tab) "\t" in
  value.

(** [sort.Strings]: ascending in the byte order of Go's string comparison. *)
Definition sort_Strings (keys : list string) : list string :=
  merge_sort String.le keys.

(** One pass of the loop of [writeEnvFile]: the line written for [key]. *)
Definition writeEnvFile_line (envVars : gmap string string) (alwaysQuote : bool)
    (key : string) : string :=
  let value := default "" (envVars !! key) in
  let value :=
    if alwaysQuote
    then str1 Ch.dquote +:+ escapeValue value +:+ str1 Ch.dquote
    else if needsQuoting value
    then str1 Ch.dquote +:+ escapeValue value +:+ str1 Ch.dquote
    else value in
  key +:+ "=" +:+ value +:+ str1 Ch.lf.

(** [writeEnvFile]; a write to the opened file is taken to succeed. *)
Definition writeEnvFile (fs : os.FS) (filename : string)
    (envVars : gmap string string) (alwaysQuote : bool) : os.FS * option error :=
  match validateFilePath filename with
  | Some err => (fs, Some (Wrapf "invalid file path: %w" [] err))
  | None =>
    match os.OpenFile_create_trunc fs filename 384 with
    | None => (fs, Some (Wrapf "failed to create file: %w" [] (External "os.OpenFile")))
    | Some file =>
      let keys := sort_Strings (map_to_list envVars).*1 in
      (fold_left
         (λ file key,
            os.WriteString file filename (writeEnvFile_line envVars alwaysQuote key))
         keys file,
       None)
    end
  end.

(** [value[len(value)-1]] and [value[:len(value)-1]]. *)
Fixpoint last_byte (s : string) : option ascii :=
  match s with
  | "" => None
  | String c "" => Some c
  | String _ t => last_byte t
  end.

Fixpoint but_last (s : string) : string :=
  match s with
  | "" => ""
  | String _ "" => ""
  | String c t => String c (but_last t)
  end.

(** The quote removal and unescaping [readEnvFile] applies to a value. *)
Definition readEnvFile_value (value : string) : string :=
  match value with
  | String c0 (String _ _ as t) =>
    if (bool_decide (c0 = Ch.dquote) && bool_decide (last_byte t = Some Ch.dquote))
       || (bool_decide (c0 = Ch.squote) && bool_decide (last_byte t = Some Ch.squote))
    then
      let value := but_last t in
      let value := strings.ReplaceAll value "\\" "\" in
      let value := strings.ReplaceAll value (str2 Ch.backslash Ch.dquote) (str1 Ch.dquote) in
      let value := strings.ReplaceAll value "\n" (str1 Ch.lf) in
      let value := strings.ReplaceAll value "\r" (str1 Ch.cr) in
      let value := strings.ReplaceAll value "\t" (str1 Ch.tab) in
      value
    else value
  | _ => value
  end.

(** The loop of [readEnvFile] over the lines, [i] the index of the first. *)
Fixpoint readEnvFile_lines (i : nat) (lines : list string)
    (envVars : gmap string string) : result (gmap string string) :=
  match lines with
  | [] => Ok envVars
  | line :: rest =>
    let line := strings.TrimSpace line in
    if bool_decide (line = "") || strings.HasPrefix line "#"
    then readEnvFile_lines (S i) rest envVars
    else
      match strings.SplitN2 line Ch.eq with
      | [part0; part1] =>
        let key := strings.TrimSpace part0 in
        let value := strings.TrimSpace part1 in
        let value := readEnvFile_value value in
        readEnvFile_lines (S i) rest (<[key := value]> envVars)
      | _ => Err (Errorf "invalid line %d: %s" [ArgD (i + 1); ArgS line])
      end
  end.

Definition readEnvFile (fs : os.FS) (filename : string)
  : result (gmap string string) :=
  match validateFilePath filename with
  | Some err => Err (Wrapf "invalid file path: %w" [] err)
  | None =>
    match os.ReadFile fs filename with
    | None => Err (Wrapf "failed to read file: %w" [] (External "os.ReadFile"))
    | Some data => readEnvFile_lines 0 (strings.Split data Ch.lf) ∅
    end
  end.

(** ** The world of one run

    The remote store is reached through a client; what a call answers may
    depend on the calls made before it.  Every call is recorded.  [stdin]
    holds the answers [fmt.Scanln] will yield, in order (the empty string
    for a read that fails); format strings are kept as the source spells
    them. *)

Inductive Call : Type :=
| CallGet (name : string)
| CallPut (name value : string).

(** The failures of a remote call that the program tells apart. *)
Inductive Failure : Type :=
| NotFound
| Unauthorized
| Forbidden
| OtherFailure.

Inductive GetOutcome : Type :=
| GotValue (value : option string)
| GetFailed (f : Failure).

Inductive PutOutcome : Type :=
| PutDone
| PutFailed (f : Failure).

Record Client : Type := mkClient {
  Get : list Call → string → GetOutcome;
  Put : list Call → string → string → PutOutcome
}.

Inductive Message : Type :=
| Printf (format : string) (args : list arg)
| PrintErr (format : string) (err : error).

Record World : Type := mkWorld {
  fs : os.FS;
  calls : list Call;
  stdin : list string;
  stdout : list Message
}.

Definition print (w : World) (format : string) (args : list arg) : World :=
  mkWorld (fs w) (calls w) (stdin w) (stdout w ++ [Printf format args]).

Definition record (w : World) (c : Call) : World :=
  mkWorld (fs w) (calls w ++ [c]) (stdin w) (stdout w).

Definition with_fs (w : World) (fs' : os.FS) : World :=
  mkWorld fs' (calls w) (stdin w) (stdout w).

(** ** Transfer operations *)

(** [checkAzureAuthError] *)
Definition checkAzureAuthError (f : Failure) : option error :=
  match f with
  | Unauthorized =>
    Some (Errorf "Azure authentication failed: no valid credentials available. Please run 'az login' or configure Azure credentials" [])
  | Forbidden =>
    Some (Errorf "Azure authorization failed: insufficient permissions to access Key Vault. Ensure you have the required role assigned (e.g., 'Key Vault Secrets User' for read, 'Key Vault Secrets Officer' for write)" [])
  | _ => None
  end.

Fixpoint fetchParameters_range (client : Client) (entries : list (string * string))
    (envVars : gmap string string) (w : World)
  : World * result (gmap string string) :=
  match entries with
  | [] => (w, Ok envVars)
  | (envKey, ssmPath) :: rest =>
    let outcome := Get client (calls w) ssmPath in
    let w := record w (CallGet ssmPath) in
    match outcome with
    | GetFailed NotFound =>
      fetchParameters_range client rest envVars
        (print w "Warning: parameter not found for %s, skipping.\n" [ArgS envKey])
    | GetFailed _ =>
      (w, Err (Wrapf "failed to get parameter for %s: %w" [ArgS envKey]
                     (External "ssm.GetParameter")))
    | GotValue (Some value) =>
      fetchParameters_range client rest (<[envKey := value]> envVars) w
    | GotValue None => fetchParameters_range client rest envVars w
    end
  end.

Definition fetchParameters (client : Client) (paramMap : ParameterMap) (w : World)
  : World * result (gmap string string) :=
  fetchParameters_range client (map_to_list paramMap) ∅ w.

Fixpoint fetchParametersFromAzure_range (client : Client)
    (entries : list (string * string)) (envVars : gmap string string) (w : World)
  : World * result (gmap string string) :=
  match entries with
  | [] => (w, Ok envVars)
  | (envKey, secretName) :: rest =>
    let outcome := Get client (calls w) secretName in
    let w := record w (CallGet secretName) in
    match outcome with
    | GetFailed f =>
      match checkAzureAuthError f with
      | Some authErr => (w, Err authErr)
      | None =>
        match f with
        | NotFound =>
          fetchParametersFromAzure_range client rest envVars
            (print w "Warning: secret not found for %s, skipping.\n" [ArgS envKey])
        | _ =>
          (w, Err (Wrapf "failed to get secret for %s: %w" [ArgS envKey]
                         (External "azsecrets.GetSecret")))
        end
      end
    | GotValue (Some value) =>
      fetchParametersFromAzure_range client rest (<[envKey := value]> envVars) w
    | GotValue None => fetchParametersFromAzure_range client rest envVars w
    end
  end.

Definition fetchParametersFromAzure (client : Client) (paramMap : ParameterMap)
    (w : World) : World * result (gmap string string) :=
  fetchParametersFromAzure_range client (map_to_list paramMap) ∅ w.

Definition pushSingleParameter (client : Client) (key value ssmPath : string)
    (w : World) : World * option error :=
  let outcome := Put client (calls w) ssmPath value in
  let w := record w (CallPut ssmPath value) in
  match outcome with
  | PutFailed _ =>
    (w, Some (Wrapf "failed to put parameter: %w" [] (External "ssm.PutParameter")))
  | PutDone => (w, None)
  end.

Definition pushSingleParameterToAzure (client : Client)
    (key value secretName : string) (w : World) : World * option error :=
  let outcome := Put client (calls w) secretName value in
  let w := record w (CallPut secretName value) in
  match outcome with
  | PutFailed f =>
    match checkAzureAuthError f with
    | Some authErr => (w, Some authErr)
    | None =>
      (w, Some (Wrapf "failed to set secret: %w" [] (External "azsecrets.SetSecret")))
    end
  | PutDone => (w, None)
  end.

Fixpoint pushParameters_range (client : Client) (envVars : gmap string string)
    (entries : list (string * string)) (w : World) : World * option error :=
  match entries with
  | [] => (w, None)
  | (envKey, ssmPath) :: rest =>
    match envVars !! envKey with
    | None => pushParameters_range client envVars rest w
    | Some value =>
      let outcome := Put client (calls w) ssmPath value in
      let w := record w (CallPut ssmPath value) in
      match outcome with
      | PutFailed _ =>
        (w, Some (Wrapf "failed to put parameter %s: %w" [ArgS envKey]
                        (External "ssm.PutParameter")))
      | PutDone => pushParameters_range client envVars rest w
      end
    end
  end.

Definition pushParameters (client : Client) (envVars : gmap string string)
    (paramMap : ParameterMap) (w : World) : World * option error :=
  pushParameters_range client envVars (map_to_list paramMap) w.

Fixpoint pushParametersToAzure_range (client : Client)
    (envVars : gmap string string) (entries : list (string * string)) (w : World)
  : World * option error :=
  match entries with
  | [] => (w, None)
  | (envKey, secretName) :: rest =>
    match envVars !! envKey with
    | None => pushParametersToAzure_range client envVars rest w
    | Some value =>
      let outcome := Put client (calls w) secretName value in
      let w := record w (CallPut secretName value) in
      match outcome with
      | PutFailed f =>
        match checkAzureAuthError f with
        | Some authErr => (w, Some authErr)
        | None =>
          (w, Some (Wrapf "failed to set secret %s: %w" [ArgS envKey]
                          (External "azsecrets.SetSecret")))
        end
      | PutDone => pushParametersToAzure_range client envVars rest w
      end
    end
  end.

Definition pushParametersToAzure (client : Client) (envVars : gmap string string)
    (paramMap : ParameterMap) (w : World) : World * option error :=
  pushParametersToAzure_range client envVars (map_to_list paramMap) w.

(** ** Reconciliation *)

Record Difference : Type := mkDifference {
  Key : string;
  LocalVal : string;
  SSMVal : string;
  SSMPath : string;
  ExistsSSM : bool
}.

Global Instance Difference_eq_dec : EqDecision Difference.
Proof. solve_decision. Defined.

(** The comparison loop of [syncParameters] (and, with the same body, of
    [syncParametersWithAzure]). *)
Fixpoint syncParameters_compare (entries : list (string * string))
    (localEnvVars ssmEnvVars : gmap string string) (differences : list Difference)
  : list Difference :=
  match entries with
  | [] => differences
  | (envKey, ssmPath) :: rest =>
    let differences :=
      match localEnvVars !! envKey with
      | None =>
        match ssmEnvVars !! envKey with
        | Some ssmVal =>
          differences ++ [mkDifference envKey "" ssmVal ssmPath true]
        | None => differences
        end
      | Some localVal =>
        match ssmEnvVars !! envKey with
        | None => differences
        | Some ssmVal =>
          if bool_decide (localVal ≠ ssmVal)
          then differences ++ [mkDifference envKey localVal ssmVal ssmPath true]
          else differences
        end
      end in
    syncParameters_compare rest localEnvVars ssmEnvVars differences
  end.

(** [sort.Slice(differences, func(i, j) { return differences[i].Key < differences[j].Key })];
    the keys of the differences of one map are distinct. *)
Definition sort_differences (differences : list Difference) : list Difference :=
  merge_sort (λ a b, String.le (Key a) (Key b)) differences.

(** The answers of the prompt, as its [switch] reads them. *)
Inductive Answer : Type := AnsYes | AnsNo | AnsAll | AnsCancel | AnsInvalid.

Definition read_answer (response : string) : Answer :=
  let response := strings.ToLower (strings.TrimSpace response) in
  if bool_decide (response = "y" ∨ response = "yes") then AnsYes
  else if bool_decide (response = "n" ∨ response = "no") then AnsNo
  else if bool_decide (response = "a" ∨ response = "all") then AnsAll
  else if bool_decide (response = "c" ∨ response = "cancel") then AnsCancel
  else AnsInvalid.

(** [promptForUpdates], from the [i]-th difference on: [differences] is
    [differences[i:]] and [n] the length of the whole slice.  The inner loop
    consumes one answer per turn; when the answers run out the program waits
    or prompts for ever, and there is no result. *)
Fixpoint promptForUpdates_range (n i : nat) (differences toUpdate : list Difference)
    (out : list Message) (inputs : list string) {struct differences}
  : option (list Difference * list Message * list string) :=
  match differences with
  | [] => Some (toUpdate, out, inputs)
  | diff :: rest =>
    (fix ask (out : list Message) (inputs : list string) {struct inputs} :=
       let out :=
         out ++ [Printf "Update %s (%d/%d)? [y]es/[n]o/[a]ll/[c]ancel: "
                        [ArgS (Key diff); ArgD (i + 1); ArgD n]] in
       match inputs with
       | [] => None
       | response :: inputs =>
         match read_answer response with
         | AnsYes =>
           promptForUpdates_range n (S i) rest (toUpdate ++ [diff]) out inputs
         | AnsNo => promptForUpdates_range n (S i) rest toUpdate out inputs
         | AnsAll => Some (toUpdate ++ differences, out, inputs)
         | AnsCancel => Some (toUpdate, out, inputs)
         | AnsInvalid =>
           ask (out ++ [Printf "Invalid input. Please enter y(es), n(o), a(ll), or c(ancel).\n" []])
               inputs
         end
       end) out inputs
  end.

Definition promptForUpdates (differences : list Difference) (w : World)
  : option (World * list Difference) :=
  match promptForUpdates_range (length differences) 0 differences []
          (stdout w) (stdin w) with
  | None => None
  | Some (toUpdate, out, inputs) =>
    Some (mkWorld (fs w) (calls w) inputs out, toUpdate)
  end.

(** The listing of the differences. *)
Fixpoint print_differences (remoteLabel pathLabel : string) (i : nat)
    (differences : list Difference) (w : World) : World :=
  match differences with
  | [] => w
  | diff :: rest =>
    let w := print w "%d. %s\n" [ArgD (i + 1); ArgS (Key diff)] in
    let w := if bool_decide (LocalVal diff = "")
             then print w "   Local:  (not set)\n" []
             else print w "   Local:  %s\n" [ArgS (LocalVal diff)] in
    let w := print w remoteLabel [ArgS (SSMVal diff)] in
    let w := print w pathLabel [ArgS (SSMPath diff)] in
    print_differences remoteLabel pathLabel (S i) rest w
  end.

(** [localEnvVars[diff.Key] = diff.SSMVal] for every selected difference. *)
Definition apply_updates (localEnvVars : gmap string string)
    (toUpdate : list Difference) : gmap string string :=
  fold_left (λ m diff, <[Key diff := SSMVal diff]> m) toUpdate localEnvVars.

(** What remains of a sync once the remote values are fetched; the two
    back ends differ in their messages only. *)
Record SyncText : Type := mkSyncText {
  txtFound : string;
  txtRemote : string;
  txtPath : string;
  txtForce : string;
  txtNone : string;
  txtDone : string
}.

Definition sync_after_fetch (txt : SyncText) (remoteEnvVars localEnvVars : gmap string string)
    (paramMap : ParameterMap) (envFile : string) (force quotes : bool) (w : World)
  : option (World * option error) :=
  let differences :=
    syncParameters_compare (map_to_list paramMap) localEnvVars remoteEnvVars [] in
  if (length differences =? 0)%nat
  then Some (print w "✓ All values are in sync. No updates needed.\n" [], None)
  else
    let differences := sort_differences differences in
    let w := print w (txtFound txt) [ArgD (length differences)] in
    let w := print_differences (txtRemote txt) (txtPath txt) 0 differences w in
    let selection :=
      if force
      then Some (print w (txtForce txt) [ArgD (length differences)], differences)
      else promptForUpdates differences w in
    match selection with
    | None => None
    | Some (w, toUpdate) =>
      if (length toUpdate =? 0)%nat
      then Some (print w (txtNone txt) [], None)
      else
        let localEnvVars := apply_updates localEnvVars toUpdate in
        let '(fs', err) := writeEnvFile (fs w) envFile localEnvVars quotes in
        let w := with_fs w fs' in
        match err with
        | Some err => Some (w, Some (Wrapf "failed to write updated .env file: %w" [] err))
        | None => Some (print w (txtDone txt) [ArgS envFile; ArgD (length toUpdate)], None)
        end
    end.

Definition ssm_text : SyncText :=
  mkSyncText "\nFound %d parameter(s) with differences:\n\n"
             "   SSM:    %s\n" "   Path:   %s\n\n"
             "Force mode enabled. Updating all %d parameter(s)...\n"
             "No parameters selected for update.\n"
             "\n✓ Successfully updated %s with %d parameter(s) from SSM\n".

Definition azure_text : SyncText :=
  mkSyncText "\nFound %d secret(s) with differences:\n\n"
             "   Azure:  %s\n" "   Name:   %s\n\n"
             "Force mode enabled. Updating all %d secret(s)...\n"
             "No secrets selected for update.\n"
             "\n✓ Successfully updated %s with %d secret(s) from Azure Key Vault\n".

Definition syncParameters (client : Client) (localEnvVars : gmap string string)
    (paramMap : ParameterMap) (envFile : string) (force quotes : bool) (w : World)
  : option (World * option error) :=
  match fetchParameters client paramMap w with
  | (w, Err err) => Some (w, Some (Wrapf "failed to fetch SSM parameters: %w" [] err))
  | (w, Ok ssmEnvVars) =>
    sync_after_fetch ssm_text ssmEnvVars localEnvVars paramMap envFile force quotes w
  end.

Definition syncParametersWithAzure (client : Client)
    (localEnvVars : gmap string string) (paramMap : ParameterMap)
    (envFile : string) (force quotes : bool) (w : World)
  : option (World * option error) :=
  match fetchParametersFromAzure client paramMap w with
  | (w, Err err) =>
    Some (w, Some (Wrapf "failed to fetch Azure Key Vault secrets: %w" [] err))
  | (w, Ok azureEnvVars) =>
    sync_after_fetch azure_text azureEnvVars localEnvVars paramMap envFile force quotes w
  end.

(** ** Loading the mapping and the command line *)

(** What [main] gets from outside the program: the JSON decoder
    ([json.Unmarshal] into a [ParameterMap]) and the construction of the
    two clients, each of which may fail. *)
Record Env : Type := mkEnv {
  json_Unmarshal : string → option ParameterMap;
  loadAWSConfig : string → string → option Client;
  createAzureClient : string → option Client
}.

Definition loadParameterMapRaw (env : Env) (fs : os.FS) (filename : string)
  : result ParameterMap :=
  match validateFilePath filename with
  | Some err => Err (Wrapf "invalid file path: %w" [] err)
  | None =>
    match os.ReadFile fs filename with
    | None => Err (Wrapf "failed to read file: %w" [] (External "os.ReadFile"))
    | Some data =>
      match json_Unmarshal env data with
      | None => Err (Wrapf "failed to parse JSON: %w" [] (External "json.Unmarshal"))
      | Some paramMap => Ok paramMap
      end
    end
  end.

Definition loadParameterMap (env : Env) (fs : os.FS) (filename : string)
  : result ParameterMap :=
  match loadParameterMapRaw env fs filename with
  | Err err => Err err
  | Ok paramMap =>
    match validateParameterMap paramMap with
    | Some err => Err (Wrapf "invalid parameter map: %w" [] err)
    | None => Ok paramMap
    end
  end.

Record Flags : Type := mkFlags {
  mapFile : string;
  envFile : string;
  profile : string;
  region : string;
  showVersion : bool;
  push : bool;
  sync : bool;
  force : bool;
  key : string;
  value : string;
  ssmPath : string;
  secretName : string;
  quotes : bool;
  azure : bool;
  vaultName : string
}.

(** [fmt.Printf(...); os.Exit(1)] *)
Definition exit1 (w : World) (format : string) (args : list arg)
  : option (World * Z) :=
  Some (print w format args, 1).

Definition exit1_err (w : World) (format : string) (err : error)
  : option (World * Z) :=
  Some (mkWorld (fs w) (calls w) (stdin w) (stdout w ++ [PrintErr format err]), 1).

(** An error on the flags: the message, the usage text, exit status 1. *)
Definition exit_usage (w : World) (message : string) : option (World * Z) :=
  exit1 (print (print w message []) "\nUsage:\n" []) "flag.PrintDefaults()" [].

Definition empty (s : string) : bool := bool_decide (s = "").

(** The flag checks of [main]; [None] when they pass. *)
Definition check_flags (f : Flags) (w : World) : option (option (World * Z)) :=
  if push f && sync f
  then Some (exit_usage w "Error: Cannot use --push and --sync together\n")
  else if azure f && empty (vaultName f)
  then Some (exit_usage w "Error: --vault-name is required when using --azure\n")
  else if push f then
    if negb (empty (key f)) || negb (empty (value f)) || negb (empty (ssmPath f))
       || negb (empty (secretName f))
    then
      if azure f then
        if empty (key f) || empty (value f) || empty (secretName f)
        then Some (exit_usage w "Error: For Azure single parameter push, all of --key, --value, and --secret-name are required\n")
        else None
      else
        if empty (key f) || empty (value f) || empty (ssmPath f)
        then Some (exit_usage w "Error: For AWS single parameter push, all of --key, --value, and --ssm-path are required\n")
        else None
    else
      if empty (mapFile f) || empty (envFile f)
      then Some (exit_usage w "Error: For file-based push, both --map and --env are required\n")
      else None
  else if sync f then
    if empty (mapFile f) || empty (envFile f)
    then Some (exit_usage w "Error: For sync mode, both --map and --env are required\n")
    else None
  else
    if empty (mapFile f)
    then Some (exit_usage w "Error: --map flag is required\n")
    else None.

(** The Azure branch of [main], once the client exists. *)
Definition main_azure (env : Env) (f : Flags) (azureClient : Client) (w : World)
  : option (World * Z) :=
  if push f then
    if negb (empty (key f)) then
      match validateEnvVarName (key f) with
      | Some err => exit1_err w "Error: invalid environment variable name: %v\n" err
      | None =>
        match validateAzureSecretName (secretName f) with
        | Some err => exit1_err w "Error: invalid Azure secret name: %v\n" err
        | None =>
          match pushSingleParameterToAzure azureClient (key f) (value f)
                  (secretName f) w with
          | (w, Some err) => exit1_err w "Error pushing secret: %v\n" err
          | (w, None) =>
            Some (print w "Successfully pushed %s to Azure Key Vault secret %s\n"
                        [ArgS (key f); ArgS (secretName f)], 0)
          end
        end
      end
    else
      match loadParameterMapRaw env (fs w) (mapFile f) with
      | Err err => exit1_err w "Error loading parameter map: %v\n" err
      | Ok paramMap =>
        match validateAzureParameterMap paramMap with
        | Some err => exit1_err w "Error: invalid parameter map: %v\n" err
        | None =>
          match readEnvFile (fs w) (envFile f) with
          | Err err => exit1_err w "Error reading .env file: %v\n" err
          | Ok envVars =>
            match pushParametersToAzure azureClient envVars paramMap w with
            | (w, Some err) => exit1_err w "Error pushing secrets: %v\n" err
            | (w, None) =>
              Some (print w "Successfully pushed %d secrets to Azure Key Vault\n"
                          [ArgD (size envVars)], 0)
            end
          end
        end
      end
  else if sync f then
    match loadParameterMapRaw env (fs w) (mapFile f) with
    | Err err => exit1_err w "Error loading parameter map: %v\n" err
    | Ok paramMap =>
      match validateAzureParameterMap paramMap with
      | Some err => exit1_err w "Error: invalid parameter map: %v\n" err
      | None =>
        match readEnvFile (fs w) (envFile f) with
        | Err err => exit1_err w "Error reading .env file: %v\n" err
        | Ok localEnvVars =>
          match syncParametersWithAzure azureClient localEnvVars paramMap
                  (envFile f) (force f) (quotes f) w with
          | None => None
          | Some (w, Some err) => exit1_err w "Error syncing secrets: %v\n" err
          | Some (w, None) => Some (w, 0)
          end
        end
      end
    end
  else
    match loadParameterMapRaw env (fs w) (mapFile f) with
    | Err err => exit1_err w "Error loading parameter map: %v\n" err
    | Ok paramMap =>
      match validateAzureParameterMap paramMap with
      | Some err => exit1_err w "Error: invalid parameter map: %v\n" err
      | None =>
        match fetchParametersFromAzure azureClient paramMap w with
        | (w, Err err) => exit1_err w "Error fetching secrets: %v\n" err
        | (w, Ok envVars) =>
          match writeEnvFile (fs w) (envFile f) envVars (quotes f) with
          | (_, Some err) => exit1_err w "Error writing .env file: %v\n" err
          | (fs', None) =>
            Some (print (with_fs w fs')
                        "Successfully generated %s with %d secrets from Azure Key Vault\n"
                        [ArgS (envFile f); ArgD (size envVars)], 0)
          end
        end
      end
    end.

(** The AWS branch of [main], once the client exists. *)
Definition main_aws (env : Env) (f : Flags) (ssmClient : Client) (w : World)
  : option (World * Z) :=
  if push f then
    if negb (empty (key f)) then
      match validateEnvVarName (key f) with
      | Some err => exit1_err w "Error: invalid environment variable name: %v\n" err
      | None =>
        match validateSSMPath (ssmPath f) with
        | Some err => exit1_err w "Error: invalid SSM path: %v\n" err
        | None =>
          match pushSingleParameter ssmClient (key f) (value f) (ssmPath f) w with
          | (w, Some err) => exit1_err w "Error pushing parameter: %v\n" err
          | (w, None) =>
            Some (print w "Successfully pushed %s to %s\n"
                        [ArgS (key f); ArgS (ssmPath f)], 0)
          end
        end
      end
    else
      match loadParameterMap env (fs w) (mapFile f) with
      | Err err => exit1_err w "Error loading parameter map: %v\n" err
      | Ok paramMap =>
        match readEnvFile (fs w) (envFile f) with
        | Err err => exit1_err w "Error reading .env file: %v\n" err
        | Ok envVars =>
          match pushParameters ssmClient envVars paramMap w with
          | (w, Some err) => exit1_err w "Error pushing parameters: %v\n" err
          | (w, None) =>
            Some (print w "Successfully pushed %d parameters to SSM\n"
                        [ArgD (size envVars)], 0)
          end
        end
      end
  else if sync f then
    match loadParameterMap env (fs w) (mapFile f) with
    | Err err => exit1_err w "Error loading parameter map: %v\n" err
    | Ok paramMap =>
      match readEnvFile (fs w) (envFile f) with
      | Err err => exit1_err w "Error reading .env file: %v\n" err
      | Ok localEnvVars =>
        match syncParameters ssmClient localEnvVars paramMap (envFile f)
                (force f) (quotes f) w with
        | None => None
        | Some (w, Some err) => exit1_err w "Error syncing parameters: %v\n" err
        | Some (w, None) => Some (w, 0)
        end
      end
    end
  else
    match loadParameterMap env (fs w) (mapFile f) with
    | Err err => exit1_err w "Error loading parameter map: %v\n" err
    | Ok paramMap =>
      match fetchParameters ssmClient paramMap w with
      | (w, Err err) => exit1_err w "Error fetching parameters: %v\n" err
      | (w, Ok envVars) =>
        match writeEnvFile (fs w) (envFile f) envVars (quotes f) with
        | (_, Some err) => exit1_err w "Error writing .env file: %v\n" err
        | (fs', None) =>
          Some (print (with_fs w fs') "Successfully generated %s with %d parameters\n"
                      [ArgS (envFile f); ArgD (size envVars)], 0)
        end
      end
    end.

(** [main]: the world it leaves and the exit status, or no result when the
    prompt of an interactive sync never gets its answers. *)
Definition main (env : Env) (f : Flags) (w : World) : option (World * Z) :=
  let w := print w "asciiArt" [] in
  if showVersion f then Some (print w "EnvChanter %s\n" [ArgS "dev"], 0)
  else
    match check_flags f w with
    | Some stop => stop
    | None =>
      if azure f then
        match createAzureClient env (vaultName f) with
        | None =>
          exit1_err w "Error creating Azure Key Vault client: %v\n"
                    (External "createAzureClient")
        | Some azureClient => main_azure env f azureClient w
        end
      else
        match loadAWSConfig env (profile f) (region f) with
        | None => exit1_err w "Error loading AWS config: %v\n" (External "loadAWSConfig")
        | Some ssmClient => main_aws env f ssmClient w
        end
    end.

(** ** Auxiliary definitions of the proofs *)

(** The body of a [range] loop run on the bytes of the string instead of
    its runes. *)
Fixpoint bytes_pass (body : nat → Z → option error) (i : nat) (s : string)
  : bool :=
  match s with
  | "" => true
  | String c t =>
    match body i (byte c) with
    | Some _ => false
    | None => bytes_pass body (S i) t
    end
  end.

(** The difference that the entry [(name, id)] gives rise to, when it does. *)
Definition differs (localEnvVars ssmEnvVars : gmap string string)
    (name id : string) (d : Difference) : Prop :=
  (localEnvVars !! name = None
   /\ exists rv, ssmEnvVars !! name = Some rv /\ d = mkDifference name "" rv id true)
  \/ (exists lv rv, localEnvVars !! name = Some lv /\ ssmEnvVars !! name = Some rv
                    /\ lv <> rv /\ d = mkDifference name lv rv id true).

Ltac nonneg :=
  repeat first
    [ lia
    | apply Z.lor_nonneg; split
    | apply Z.shiftl_nonneg
    | apply Z.land_nonneg; right; lia ].

Ltac split_bounds :=
  unfold is_upper, is_lower, is_digit in *;
  repeat match goal with
  | |- context [Z.leb ?a ?b] => destruct (Z.leb_spec a b)
  | |- context [Z.eqb ?a ?b] => destruct (Z.eqb_spec a b)
  | |- context [Nat.eqb ?a ?b] => destruct (Nat.eqb_spec a b)
  end; cbn [andb orb negb].

(** The store calls of a bulk push in which no call fails: one for every
    entry whose name the local snapshot has, in the order of the entries. *)
Definition present_puts (envVars : gmap string string)
    (entries : list (string * string)) : list Call :=
  omap (λ '(envKey, id), CallPut id <$> envVars !! envKey) entries.

(** The two back ends of a sync. *)
Inductive Backend : Type := AWS | Azure.

Definition fetch_of (b : Backend) :=
  match b with AWS => fetchParameters | Azure => fetchParametersFromAzure end.

Definition sync_of (b : Backend) :=
  match b with AWS => syncParameters | Azure => syncParametersWithAzure end.

Definition in_sync_message : Message :=
  Printf "✓ All values are in sync. No updates needed.\n" [].

(** The two lines the prompt prints. *)
Definition prompt_line (n i : nat) (diff : Difference) : Message :=
  Printf "Update %s (%d/%d)? [y]es/[n]o/[a]ll/[c]ancel: "
         [ArgS (Key diff); ArgD (i + 1); ArgD n].

Definition invalid_line : Message :=
  Printf "Invalid input. Please enter y(es), n(o), a(ll), or c(ancel).\n" [].

(** The selection protocol as the specification words it, over the answers
    alone: what is selected from the differences not yet decided, and the
    answers left unread. *)
Fixpoint select (differences : list Difference) (answers : list Answer)
    {struct differences} : option (list Difference * list Answer) :=
  match differences with
  | [] => Some ([], answers)
  | diff :: rest =>
    (fix pending (answers : list Answer) {struct answers} :=
       match answers with
       | [] => None
       | AnsYes :: answers =>
         match select rest answers with
         | Some (accepted, unread) => Some (diff :: accepted, unread)
         | None => None
         end
       | AnsNo :: answers => select rest answers
       | AnsAll :: answers => Some (diff :: rest, answers)
       | AnsCancel :: answers => Some ([], answers)
       | AnsInvalid :: answers => pending answers
       end) answers
  end.

(** The mapping file of a run cannot be used: it does not load, or what it
    holds does not pass the validation of the back end. *)
Definition mapping_rejected (env : Env) (f : Flags) (fs : os.FS) : Prop :=
  if azure f
  then (exists err, loadParameterMapRaw env fs (mapFile f) = Err err)
       \/ (exists paramMap err,
             loadParameterMapRaw env fs (mapFile f) = Ok paramMap
             /\ validateAzureParameterMap paramMap = Some err)
  else exists err, loadParameterMap env fs (mapFile f) = Err err.

(** Text helpers of the codec proofs. *)
Fixpoint occurs (c : ascii) (s : string) : bool :=
  match s with
  | "" => false
  | String d t => bool_decide (d = c) || occurs c t
  end.

Definition joined (pieces : list string) : string := foldr String.append "" pieces.

(** A byte that is ASCII and not white space. *)
Definition solid (c : ascii) : bool :=
  (byte c <? 128) && negb (strings.IsSpace (byte c)).

(** Replacing every byte [a] by [new]. *)
Fixpoint sub1 (a : ascii) (new : string) (s : string) : string :=
  match s with
  | "" => ""
  | String c t => (if bool_decide (c = a) then new else str1 c) +:+ sub1 a new t
  end.

(** [expand specials s]: every byte of [s] that has a letter in [specials]
    is written as a backslash and that letter. *)
Fixpoint special (specials : list (ascii * ascii)) (c : ascii) : option ascii :=
  match specials with
  | [] => None
  | (a, x) :: rest => if bool_decide (c = a) then Some x else special rest c
  end.

Definition token (specials : list (ascii * ascii)) (c : ascii) : string :=
  match special specials c with
  | Some x => str2 Ch.backslash x
  | None => str1 c
  end.

Fixpoint expand (specials : list (ascii * ascii)) (s : string) : string :=
  match s with
  | "" => ""
  | String c t => token specials c +:+ expand specials t
  end.

Definition escapes : list (ascii * ascii) :=
  [(Ch.backslash, Ch.backslash); (Ch.dquote, Ch.dquote); (Ch.lf, Ch.n);
   (Ch.cr, Ch.r); (Ch.tab, Ch.t)].

(** No backslash of [v] is directly followed by the byte [x]. *)
Fixpoint adj_free (x : ascii) (v : string) : bool :=
  match v with
  | String c (String d _ as t) =>
    negb (bool_decide (c = Ch.backslash) && bool_decide (d = x)) && adj_free x t
  | _ => true
  end.

(** No backslash of the value is directly followed by [n], [r] or [t]. *)
Definition plain_backslashes (v : string) : bool :=
  adj_free Ch.n v && adj_free Ch.r v && adj_free Ch.t v.

(** What the last three replacements of [readEnvFile] make of a value when
    applied to the value itself: every backslash directly followed by [n],
    [r] or [t] becomes, with that letter, a line feed, a carriage return or
    a tab. *)
Definition letters_unescaped (v : string) : string :=
  strings.ReplaceAll
    (strings.ReplaceAll
       (strings.ReplaceAll v (str2 Ch.backslash Ch.n) (str1 Ch.lf))
       (str2 Ch.backslash Ch.r) (str1 Ch.cr))
    (str2 Ch.backslash Ch.t) (str1 Ch.tab).

(** A value between double quotes, escaped. *)
Definition quoted (v : string) : string :=
  String Ch.dquote (escapeValue v +:+ str1 Ch.dquote).

(** The loop body of [readEnvFile], line by line: a line is skipped, or is
    malformed, or binds a name to a value. *)
Definition line_skipped (line : string) : bool :=
  let line := strings.TrimSpace line in
  bool_decide (line = "") || strings.HasPrefix line "#".

Definition line_malformed (line : string) : bool :=
  negb (line_skipped line) && negb (occurs Ch.eq (strings.TrimSpace line)).

Definition line_binding (line : string) : option (string * string) :=
  if line_skipped line then None
  else
    match strings.SplitN2 (strings.TrimSpace line) Ch.eq with
    | [part0; part1] =>
      Some (strings.TrimSpace part0, readEnvFile_value (strings.TrimSpace part1))
    | _ => None
    end.

Definition bind_line (envVars : gmap string string) (line : string)
  : gmap string string :=
  match line_binding line with
  | Some (key, value) => <[key := value]> envVars
  | None => envVars
  end.

(** The first [k] bytes of [t] exist and are not ASCII. *)
Fixpoint high_prefix (k : nat) (t : string) : bool :=
  match k with
  | O => true
  | S k' =>
    match t with
    | "" => false
    | String c t' => (128 <=? byte c) && high_prefix k' t'
    end
  end.

(** Only ASCII white space: tab, line feed, vertical tab, form feed,
    carriage return, space. *)
Definition ascii_blank (s : string) : bool :=
  Rule.all_bytes (λ b, ((9 <=? b) && (b <=? 13)) || (b =? 32)) s.

(** ** Example data *)

Module Ex.
Definition fs0 : os.FS := os.mkFS ∅ 18 ∅.
Definition world0 : World := mkWorld fs0 [] [] [].

(** A store in which nothing is found and every write is accepted, and
    one that refuses every call. *)
Definition accepting : Client := mkClient (λ _ _, GetFailed NotFound) (λ _ _ _, PutDone).
Definition failing : Client :=
  mkClient (λ _ _, GetFailed OtherFailure) (λ _ _ _, PutFailed OtherFailure).

(** A store holding fixed values. *)
Definition holding (remote : gmap string string) : Client :=
  mkClient (λ _ id, match remote !! id with
                    | Some v => GotValue (Some v)
                    | None => GetFailed NotFound
                    end)
           (λ _ _ _, PutDone).

Definition mapping : ParameterMap := {[ "A" := "/app/a"; "B" := "/app/b" ]}.
Definition entries : list (string * string) :=
  [("A", "/app/a"); ("B", "/app/b"); ("C", "/app/c")].
Definition local_AB : gmap string string := {[ "A" := "1"; "B" := "2" ]}.
Definition local_AC : gmap string string := {[ "A" := "1"; "C" := "3" ]}.
Definition remote_AB : gmap string string := {[ "A" := "2"; "B" := "9" ]}.

Definition file (mode : Z) (text : string) : os.FS :=
  os.mkFS {[ ".env" := os.mkFile mode text ]} 18 ∅.

(** A decoder of mapping files that knows two texts. *)
Definition decode (data : string) : option ParameterMap :=
  if bool_decide (data = "mapping A") then Some {[ "A" := "/app/a" ]}
  else if bool_decide (data = "mapping with a digit first")
  then Some {[ "123_INVALID" := "/myapp/dev/key" ]}
  else None.

Definition env (remote : gmap string string) : Env :=
  mkEnv decode (λ _ _, Some (holding remote)) (λ _, Some (holding remote)).

Definition flags (mapFile : string) (sync force : bool) : Flags :=
  mkFlags mapFile ".env" "" "" false false sync force "" "" "" "" false false "".

Definition text_foobar : string := "VALID_KEY=value
 # a comment

FOOBAR
ANOTHER_VALID=test".

Definition text_repeated : string := "A=1
B=2
A=3
".

Definition world (mapText : string) (mode : Z) (envText : string) : World :=
  mkWorld (os.mkFS {[ "map.json" := os.mkFile 420 mapText;
                      ".env" := os.mkFile mode envText ]} 18 ∅)
          [] [] [].
End Ex.

(** ** Auxiliary definitions of the further properties *)

(** A value that [writeEnvFile] writes without quotes is read back
    unchanged when it is empty, or begins and ends with an ASCII byte that
    is not white space. *)
Definition bare_safe (v : string) : bool :=
  match v with
  | "" => true
  | String c _ =>
    solid c && match last_byte v with Some d => solid d | None => false end
  end.

(** The text [writeEnvFile] puts after the [=] sign, and what the reader
    makes of it when the bare values are safe. *)
Definition written_value (alwaysQuote : bool) (v : string) : string :=
  if alwaysQuote || needsQuoting v then quoted v else v.

Definition read_value (alwaysQuote : bool) (v : string) : string :=
  if alwaysQuote || needsQuoting v then letters_unescaped v else v.

Definition form_feed : ascii := "012"%char.

Definition is_get (c : Call) : bool :=
  match c with CallGet _ => true | CallPut _ _ => false end.

(** What a fetch keeps of the answer to one read, and the answers that end
    the fetch. *)
Definition fetched_value (outcome : GetOutcome) : option string :=
  match outcome with GotValue value => value | GetFailed _ => None end.

Definition fatal (outcome : GetOutcome) : bool :=
  match outcome with
  | GotValue _ | GetFailed NotFound => false
  | GetFailed _ => true
  end.

(** A store whose answers to reads do not depend on the calls made before. *)
Definition steady (client : Client) : Prop :=
  forall history history' id, Get client history id = Get client history' id.

(** The snapshot a fetch builds from the entries it visits. *)
Definition fetched (client : Client) (entries : list (string * string))
    (envVars : gmap string string) : gmap string string :=
  fold_left
    (λ m e, match fetched_value (Get client [] e.2) with
            | Some value => <[e.1 := value]> m
            | None => m
            end)
    entries envVars.

Definition fetch_range_of (b : Backend) :=
  match b with
  | AWS => fetchParameters_range
  | Azure => fetchParametersFromAzure_range
  end.

(** An answer that settles the difference it is given for. *)
Definition decisive (response : string) : bool :=
  match read_answer response with AnsInvalid => false | _ => true end.

Definition text_of (b : Backend) : SyncText :=
  match b with AWS => ssm_text | Azure => azure_text end.

(** The text [writeEnvFile] leaves in the file for a snapshot. *)
Definition file_text (envVars : gmap string string) (alwaysQuote : bool) : string :=
  joined (writeEnvFile_line envVars alwaysQuote
            <$> sort_Strings (map_to_list envVars).*1).

(** What a run may change: the calls recorded beyond those of [w] are all
    writes in push mode and all reads otherwise; no file other than the
    env-file changes, and none at all in push mode; the input is read only
    by a sync that is not forced. *)
Definition run_effects (f : Flags) (w w' : World) : Prop :=
  (exists issued, calls w' = calls w ++ issued
                  /\ Forall (λ c, is_get c = negb (push f)) issued)
  /\ (forall other, other <> envFile f ->
        os.files (fs w') !! other = os.files (fs w) !! other)
  /\ (push f = true -> fs w' = fs w)
  /\ (sync f = false \/ force f = true -> stdin w' = stdin w).

Module Sample.
Definition store : Client := Ex.holding {[ "/app/a" := "2" ]}.
Definition local : gmap string string := {[ "A" := "1" ]}.

(** The world a forced sync of [local] with [store] leaves. *)
Definition synced : World :=
  from_option fst Ex.world0
    (syncParameters store local Ex.mapping ".env" true false Ex.world0).

(** The world a forced sync run through [main] leaves. *)
Definition start : World := Ex.world "mapping A" 420 "A=1
".
Definition ran : World :=
  from_option fst start
    (main (Ex.env {[ "/app/a" := "2" ]}) (Ex.flags "map.json" true true) start).

Definition push_flags : Flags :=
  mkFlags "" "" "" "" false true false false "API_KEY" "secret" "/app/api-key" ""
          false false "".

Definition bulk_flags : Flags :=
  mkFlags "map.json" ".env" "" "" false true false false "" "" "" "" false false "".

Definition two_names : World := Ex.world "mapping A" 420 "A=1
EXTRA=2
".

(** A push of one value given a mapping file that does not parse. *)
Definition push_flags_with_map : Flags :=
  mkFlags "map.json" ".env" "" "" false true false false "API_KEY" "secret"
          "/app/api-key" "" false false "".
Definition bad_mapping : World := Ex.world "not a mapping" 420 "".

(** A store holding a value in which a backslash comes before the letter n,
    and the world a forced sync with it leaves. *)
Definition windows_env : Env := Ex.env {[ "/app/a" := "C:\new" ]}.
Definition windows_ran : World :=
  from_option fst start (main windows_env (Ex.flags "map.json" true true) start).

(** A pull whose env-file is its mapping file. *)
Definition same_file_flags : Flags :=
  mkFlags "map.json" "map.json" "" "" false false false false "" "" "" ""
          false false "".
End Sample.

(** The last line of a bulk push that succeeds. *)
Definition pushed_message (azure : bool) (count : nat) : Message :=
  if azure
  then Printf "Successfully pushed %d secrets to Azure Key Vault\n" [ArgD count]
  else Printf "Successfully pushed %d parameters to SSM\n" [ArgD count].

(** * Properties *)

(** ** Go library functions on examples *)

Example split_lines :
  strings.Split "A=1
B=2
" Ch.lf = ["A=1"; "B=2"; ""].
Proof. reflexivity. Qed.

Example splitn_first_eq : strings.SplitN2 "A=b=c" Ch.eq = ["A"; "b=c"].
Proof. reflexivity. Qed.

Example replace_non_overlapping : strings.ReplaceAll "aaa" "aa" "b" = "ba".
Proof. reflexivity. Qed.

Example trim_unicode_space :
  strings.TrimSpace (String (ascii_of_nat 226) (String (ascii_of_nat 128)
    (String (ascii_of_nat 128) (" x " +:+
      String (ascii_of_nat 194) (String (ascii_of_nat 160) ""))))) = "x".
Proof. vm_compute. reflexivity. Qed.

Example range_two_byte_rune :
  range_string (String (ascii_of_nat 195) (String (ascii_of_nat 169) "z"))
  = [(0%nat, 233); (2%nat, 122)].
Proof. vm_compute. reflexivity. Qed.

Example validateSSMPath_ok : validateSSMPath "/myapp/dev/db-password" = None.
Proof. vm_compute. reflexivity. Qed.

Example validateEnvVarName_digit :
  validateEnvVarName "123_VAR"
  = Some (Errorf "environment variable name cannot start with a digit" []).
Proof. vm_compute. reflexivity. Qed.

Example validateAzureSecretName_underscore :
  validateAzureSecretName "my_secret" <> None.
Proof. vm_compute. discriminate. Qed.
(** ** Runes and bytes *)

Lemma byte_range c : 0 <= byte c < 256.
Proof.
  unfold byte. pose proof (N_ascii_bounded c). lia.
Qed.

Lemma lor_lower_l a b : 0 <= a -> 0 <= b -> a <= Z.lor a b.
Proof.
  intros Ha Hb. pose proof (Z.sub_lor_l_same_l b a) as H.
  assert (0 <= Z.land b (Z.lnot a)) by (apply Z.land_nonneg; auto).
  lia.
Qed.

Lemma lor_lower_r a b : 0 <= a -> 0 <= b -> b <= Z.lor a b.
Proof. intros. rewrite Z.lor_comm. by apply lor_lower_l. Qed.

Lemma decode_ascii c t :
  byte c < 128 -> utf8.DecodeRuneInString (String c t) = (byte c, 1%nat).
Proof.
  intros H. cbn [utf8.DecodeRuneInString]. unfold utf8.RuneSelf.
  destruct (Z.ltb_spec (byte c) 128); [done | lia].
Qed.

Lemma decode_high c t :
  128 <= byte c -> 128 <= (utf8.DecodeRuneInString (String c t)).1.
Proof.
  intros H. pose proof (byte_range c) as Hc.
  cbn [utf8.DecodeRuneInString]. unfold utf8.RuneSelf, utf8.RuneError.
  destruct (Z.ltb_spec (byte c) 128); [lia |].
  destruct (utf8.first (byte c)) as [[[sz lo] hi] |] eqn:Hf; [| simpl; lia].
  destruct t as [| c1 t1]; [simpl; lia |].
  pose proof (byte_range c1) as Hc1.
  destruct (_ || _) eqn:Hr; [simpl; lia |].
  apply orb_false_iff in Hr as [Hlo Hhi].
  apply Z.ltb_ge in Hlo, Hhi.
  assert (Hs0 : 194 <= byte c <= 244 /\ 128 <= lo /\ hi <= 191
                /\ (byte c = 224 -> 160 <= lo) /\ (byte c = 240 -> 144 <= lo)).
  { unfold utf8.first, utf8.locb, utf8.hicb in Hf.
    repeat match type of Hf with
    | (if ?b then _ else _) = _ => destruct b eqn:?
    end; simplify_eq; lia. }
  assert (Hl1 : Z.land (byte c1) 63 = byte c1 - 128).
  { change 63 with (Z.ones 6). rewrite Z.land_ones by lia. 
    change (2 ^ 6) with 64. Z.div_mod_to_equations. lia. }
  assert (H31 : Z.land (byte c) 31 = byte c mod 32)
    by (change 31 with (Z.ones 5); rewrite Z.land_ones by lia; done).
  assert (H15 : Z.land (byte c) 15 = byte c mod 16)
    by (change 15 with (Z.ones 4); rewrite Z.land_ones by lia; done).
  assert (H7 : Z.land (byte c) 7 = byte c mod 8)
    by (change 7 with (Z.ones 3); rewrite Z.land_ones by lia; done).
  assert (Hsz : sz = 2%nat /\ byte c <= 223 \/ sz = 3%nat /\ 224 <= byte c <= 239
                 \/ sz = 4%nat /\ 240 <= byte c).
  { unfold utf8.first, utf8.locb, utf8.hicb in Hf.
    repeat match type of Hf with
    | (if ?b then _ else _) = _ => destruct b eqn:?
    end; simplify_eq; lia. }
  assert (Hm : forall k, 0 <= Z.land (byte c) k)
    by (intros; apply Z.land_nonneg; lia).
  destruct Hsz as [[-> ?] | [[-> ?] | [-> ?]]]; cbn [Nat.leb].
  - cbn [fst]. etrans; [| apply lor_lower_l; nonneg].
    rewrite Z.shiftl_mul_pow2 by lia. rewrite H31. Z.div_mod_to_equations. lia.
  - destruct t1 as [| c2 t2]; [simpl; lia |].
    destruct (negb _); [simpl; lia |]. cbn [fst].
    etrans; [| apply lor_lower_l; nonneg].
    destruct (Z.eq_dec (byte c) 224) as [He | Hne].
    + etrans; [| apply lor_lower_r; nonneg].
      rewrite Z.shiftl_mul_pow2 by lia. rewrite Hl1. lia.
    + etrans; [| apply lor_lower_l; nonneg].
      rewrite Z.shiftl_mul_pow2 by lia. rewrite H15. Z.div_mod_to_equations. lia.
  - destruct t1 as [| c2 t2]; [simpl; lia |].
    destruct (negb _); [simpl; lia |].
    destruct t2 as [| c3 t3]; [simpl; lia |].
    destruct (negb _); [simpl; lia |]. cbn [fst].
    etrans; [| apply lor_lower_l; nonneg].
    etrans; [| apply lor_lower_l; nonneg].
    destruct (Z.eq_dec (byte c) 240) as [He | Hne].
    + etrans; [| apply lor_lower_r; nonneg].
      rewrite Z.shiftl_mul_pow2 by lia. rewrite Hl1. lia.
    + etrans; [| apply lor_lower_l; nonneg].
      rewrite Z.shiftl_mul_pow2 by lia. rewrite H7. Z.div_mod_to_equations. lia.
Qed.

Lemma for_range_bytes body i s :
  (forall j r, 128 <= r -> body j r <> None) ->
  for_range body (range_go 0 i s) = None <-> bytes_pass body i s = true.
Proof.
  intros Hhigh. revert i. induction s as [| c t IH]; intros i; [done |].
  cbn [range_go bytes_pass].
  destruct (Z.lt_ge_cases (byte c) 128) as [Hlo | Hhi].
  - rewrite decode_ascii by done. cbn [for_range].
    destruct (body i (byte c)); [done |]. apply IH.
  - pose proof (decode_high c t Hhi) as Hr.
    destruct (utf8.DecodeRuneInString (String c t)) as [r w]. cbn [fst] in Hr.
    cbn [for_range].
    pose proof (Hhigh i r Hr). pose proof (Hhigh i (byte c) Hhi).
    destruct (body i r), (body i (byte c)); done.
Qed.

Lemma validateSSMPath_body_high j r : 128 <= r -> validateSSMPath_body j r <> None.
Proof. intros H. unfold validateSSMPath_body. split_bounds; (done || lia). Qed.

Lemma validateAzureSecretName_body_high j r :
  128 <= r -> validateAzureSecretName_body j r <> None.
Proof. intros H. unfold validateAzureSecretName_body. split_bounds; (done || lia). Qed.

Lemma validateEnvVarName_body_high j r :
  128 <= r -> validateEnvVarName_body j r <> None.
Proof. intros H. unfold validateEnvVarName_body. split_bounds; (done || lia). Qed.

Lemma bytes_pass_path i s :
  bytes_pass validateSSMPath_body i s = Rule.all_bytes Rule.path_char s.
Proof.
  revert i. induction s as [| c t IH]; intros i; [done |].
  cbn [bytes_pass Rule.all_bytes]. rewrite <- (IH (S i)).
  unfold validateSSMPath_body, Rule.path_char. split_bounds; (done || lia).
Qed.

Lemma bytes_pass_name i s :
  bytes_pass validateAzureSecretName_body i s = Rule.all_bytes Rule.name_char s.
Proof.
  revert i. induction s as [| c t IH]; intros i; [done |].
  cbn [bytes_pass Rule.all_bytes]. rewrite <- (IH (S i)).
  unfold validateAzureSecretName_body, Rule.name_char. split_bounds; (done || lia).
Qed.

Lemma bytes_pass_ident_tail i s :
  bytes_pass validateEnvVarName_body (S i) s = Rule.all_bytes Rule.ident_char s.
Proof.
  revert i. induction s as [| c t IH]; intros i; [done |].
  cbn [bytes_pass Rule.all_bytes]. rewrite <- (IH (S i)).
  unfold validateEnvVarName_body, Rule.ident_char. split_bounds; (done || lia).
Qed.

Lemma bytes_pass_ident s :
  s <> "" -> bytes_pass validateEnvVarName_body 0 s = Rule.local_name s.
Proof.
  destruct s as [| c t]; [done |]. intros _.
  cbn [bytes_pass Rule.local_name]. rewrite <- (bytes_pass_ident_tail 0).
  unfold validateEnvVarName_body, Rule.ident_start. split_bounds; (done || lia).
Qed.

Lemma validateEnvVarName_rule s :
  validateEnvVarName s = None <-> Rule.local_name s = true.
Proof.
  unfold validateEnvVarName. case_bool_decide as Hs; [by subst |].
  unfold range_string.
  rewrite for_range_bytes by apply validateEnvVarName_body_high.
  by rewrite bytes_pass_ident.
Qed.

Lemma validateAzureSecretName_rule s :
  validateAzureSecretName s = None <-> Rule.name_style s = true.
Proof.
  unfold validateAzureSecretName, Rule.name_style.
  case_bool_decide as Hs; [by subst |].
  assert (1 <= String.length s)%nat by (destruct s; [done | simpl; lia]).
  destruct (Nat.ltb_spec 127 (String.length s)).
  - split; [done |]. intros Hr. apply andb_true_iff in Hr as [Hr _].
    apply andb_true_iff in Hr as [_ Hr]. apply Nat.leb_le in Hr. lia.
  - unfold range_string.
    rewrite for_range_bytes by apply validateAzureSecretName_body_high.
    rewrite bytes_pass_name.
    replace (1 <=? String.length s)%nat with true by (symmetry; by apply Nat.leb_le).
    replace (String.length s <=? 127)%nat with true by (symmetry; by apply Nat.leb_le).
    done.
Qed.

Lemma validateSSMPath_rule s :
  validateSSMPath s = None <->
  Rule.path_style s = true /\ strings.Contains s ".." = false.
Proof.
  unfold validateSSMPath, Rule.path_style.
  case_bool_decide as Hs; [subst; by intuition |].
  destruct (strings.HasPrefix s "/"); cbn [negb andb]; [| by intuition].
  pose proof (for_range_bytes validateSSMPath_body 0 s
                validateSSMPath_body_high) as Hfr.
  fold (range_string s) in Hfr. rewrite bytes_pass_path in Hfr.
  destruct (for_range validateSSMPath_body (range_string s)) as [e |].
  - destruct (Rule.all_bytes Rule.path_char s); [| by intuition].
    destruct Hfr as [_ Hfr]. by specialize (Hfr eq_refl).
  - destruct Hfr as [Hfr _]. rewrite (Hfr eq_refl). cbn [andb].
    destruct (strings.Contains s ".."); [by intuition |].
    destruct (Nat.ltb_spec 2048 (String.length s)).
    + split; [done |]. intros [Hr _]. apply Nat.leb_le in Hr. lia.
    + split; [| done]. intros _. split; [| done]. by apply Nat.leb_le.
Qed.

(** C8 (as amended): the three validators accept exactly the strings of the
    stated naming rules, where the path-style rule has one more condition:
    the path must not contain two dots in a row. *)
Theorem validation_matches_rules (s : string) :
  (validateSSMPath s = None <->
     Rule.path_style s = true /\ strings.Contains s ".." = false)
  /\ (validateAzureSecretName s = None <-> Rule.name_style s = true)
  /\ (validateEnvVarName s = None <-> Rule.local_name s = true).
Proof.
  split; [apply validateSSMPath_rule |].
  split; [apply validateAzureSecretName_rule | apply validateEnvVarName_rule].
Qed.

(** C8 as stated fails: [/a/../b] starts with a slash, has only characters
    of the class and is short, and yet is refused. *)
Lemma path_rule_alone_refuted :
  Rule.path_style "/a/../b" = true
  /\ validateSSMPath "/a/../b"
     = Some (Errorf "path traversal detected in SSM path" []).
Proof. split; vm_compute; reflexivity. Qed.

(** ** Strings *)

Lemma app_nil_l_s (s : string) : "" +:+ s = s.
Proof. done. Qed.

Lemma app_cons_s c (s t : string) : String c s +:+ t = String c (s +:+ t).
Proof. done. Qed.

Lemma app_nil_r_s (s : string) : s +:+ "" = s.
Proof. induction s as [| c s IH]; [done |]. by rewrite app_cons_s, IH. Qed.

Lemma app_assoc_s (a b c : string) : (a +:+ b) +:+ c = a +:+ (b +:+ c).
Proof. induction a as [| x a IH]; [done |]. by rewrite !app_cons_s, IH. Qed.

Lemma str1_app c (s : string) : str1 c +:+ s = String c s.
Proof. done. Qed.

Lemma str2_app c d (s : string) : str2 c d +:+ s = String c (String d s).
Proof. done. Qed.

Lemma rev_app_spec (s acc : string) :
  String.rev_app s acc = String.rev s +:+ acc.
Proof.
  unfold String.rev. revert acc. induction s as [| c s IH]; intros acc; [done |].
  cbn [String.rev_app]. rewrite IH, (IH (String c "")), app_assoc_s. done.
Qed.

Lemma rev_cons_s c s : String.rev (String c s) = String.rev s +:+ str1 c.
Proof. unfold String.rev at 1. cbn [String.rev_app]. apply rev_app_spec. Qed.

Lemma rev_app_s (a b : string) :
  String.rev (a +:+ b) = String.rev b +:+ String.rev a.
Proof.
  induction a as [| c a IH]; [by rewrite app_nil_l_s, app_nil_r_s |].
  by rewrite app_cons_s, !rev_cons_s, IH, app_assoc_s.
Qed.

Lemma rev_involutive_s s : String.rev (String.rev s) = s.
Proof.
  induction s as [| c s IH]; [done |].
  by rewrite rev_cons_s, rev_app_s, IH.
Qed.

Lemma last_byte_snoc s c : last_byte (s +:+ str1 c) = Some c.
Proof.
  induction s as [| d s IH]; [done |].
  rewrite app_cons_s. cbn [last_byte]. rewrite IH.
  destruct s; done.
Qed.

Lemma but_last_snoc s c : but_last (s +:+ str1 c) = s.
Proof.
  induction s as [| d s IH]; [done |].
  rewrite app_cons_s. cbn [but_last]. rewrite IH.
  destruct s; done.
Qed.

Lemma last_byte_split s c : last_byte s = Some c -> s = but_last s +:+ str1 c.
Proof.
  induction s as [| d s IH]; [done |]. cbn [last_byte but_last].
  destruct s as [| e s]; [by intros [= ->] |].
  intros H. by rewrite app_cons_s, <- IH.
Qed.

Lemma occurs_app c (a b : string) : occurs c (a +:+ b) = occurs c a || occurs c b.
Proof.
  induction a as [| d a IH]; [done |].
  by rewrite app_cons_s; cbn [occurs]; rewrite IH, orb_assoc.
Qed.

(** *** Trimming *)

Lemma TrimLeftSpace_solid c t :
  solid c = true -> strings.TrimLeftSpace (String c t) = String c t.
Proof.
  unfold solid. intros [Hlo Hsp]%andb_true_iff. apply Z.ltb_lt in Hlo.
  unfold strings.TrimLeftSpace. cbn [strings.trimLeft_go].
  rewrite decode_ascii by done. by destruct (strings.IsSpace (byte c)).
Qed.

Lemma TrimRightSpace_solid s c :
  last_byte s = Some c -> solid c = true -> strings.TrimRightSpace s = s.
Proof.
  intros Hlast [Hlo Hsp]%andb_true_iff. apply Z.ltb_lt in Hlo.
  unfold strings.TrimRightSpace.
  rewrite (last_byte_split _ _ Hlast) at 1.
  rewrite rev_app_s. change (String.rev (str1 c)) with (str1 c).
  unfold str1 at 1. rewrite app_cons_s, app_nil_l_s.
  cbn [strings.trimRight_go utf8.DecodeLastRune_rev]. unfold utf8.RuneSelf.
  destruct (Z.ltb_spec (byte c) 128); [| lia].
  destruct (strings.IsSpace (byte c)); [done |].
  rewrite rev_cons_s, rev_involutive_s. by rewrite <- last_byte_split.
Qed.

Lemma TrimSpace_solid c t d :
  solid c = true -> last_byte (String c t) = Some d -> solid d = true ->
  strings.TrimSpace (String c t) = String c t.
Proof.
  intros Hc Hlast Hd. unfold strings.TrimSpace.
  rewrite TrimLeftSpace_solid by done. by eapply TrimRightSpace_solid.
Qed.

(** *** Splitting *)

Lemma Split_line body rest :
  occurs Ch.lf body = false ->
  strings.Split (body +:+ String Ch.lf rest) Ch.lf = body :: strings.Split rest Ch.lf.
Proof.
  induction body as [| c body IH]; intros Hno.
  - rewrite app_nil_l_s. cbn [strings.Split]. by rewrite bool_decide_eq_true_2.
  - cbn [occurs] in Hno. apply orb_false_iff in Hno as [Hc Hno].
    rewrite app_cons_s. cbn [strings.Split]. rewrite Hc, (IH Hno). done.
Qed.

Lemma Split_joined_lines bodies :
  Forall (λ body, occurs Ch.lf body = false) bodies ->
  strings.Split (joined ((λ body, body +:+ str1 Ch.lf) <$> bodies)) Ch.lf
  = bodies ++ [""].
Proof.
  induction 1 as [| body bodies Hbody _ IH]; [done |].
  cbn [fmap list_fmap joined foldr]. rewrite app_assoc_s.
  unfold str1 at 1. rewrite app_cons_s, app_nil_l_s.
  rewrite Split_line by done.
  change ((body :: bodies) ++ [""]) with (body :: (bodies ++ [""])).
  f_equal. exact IH.
Qed.

Lemma SplitN2_first_eq k v :
  occurs Ch.eq k = false ->
  strings.SplitN2 (k +:+ String Ch.eq v) Ch.eq = [k; v].
Proof.
  induction k as [| c k IH]; intros Hno.
  - rewrite app_nil_l_s. cbn [strings.SplitN2]. by rewrite bool_decide_eq_true_2.
  - cbn [occurs] in Hno. apply orb_false_iff in Hno as [Hc Hno].
    rewrite app_cons_s. cbn [strings.SplitN2]. rewrite Hc, (IH Hno). done.
Qed.

Lemma SplitN2_none s :
  occurs Ch.eq s = false -> strings.SplitN2 s Ch.eq = [s].
Proof.
  induction s as [| c s IH]; intros Hno; [done |].
  cbn [occurs] in Hno. apply orb_false_iff in Hno as [Hc Hno].
  cbn [strings.SplitN2]. rewrite Hc, (IH Hno). done.
Qed.

Lemma SplitN2_some s :
  occurs Ch.eq s = true ->
  exists k v, s = k +:+ String Ch.eq v /\ occurs Ch.eq k = false
              /\ strings.SplitN2 s Ch.eq = [k; v].
Proof.
  induction s as [| c s IH]; intros Hyes; [done |].
  cbn [occurs] in Hyes. cbn [strings.SplitN2].
  case_bool_decide as Hc.
  - subst c. by exists "", s.
  - destruct (IH Hyes) as (k & v & -> & Hk & ->).
    exists (String c k), v. split; [done |]. split; [| done].
    cbn [occurs]. by rewrite bool_decide_eq_false_2, Hk.
Qed.

(** *** What trimming leaves of a line *)

Lemma RuneStart_false_high c : utf8.RuneStart (byte c) = false -> 128 <= byte c.
Proof.
  destruct c as [[] [] [] [] [] [] [] []]; intros H; vm_compute in H |- *;
    congruence.
Qed.

Lemma decode_wide_high c t r w :
  utf8.DecodeRuneInString (String c t) = (r, w) -> (2 <= w)%nat -> 128 <= byte c.
Proof.
  intros Hd Hw. destruct (Z.lt_ge_cases (byte c) 128) as [Hlo | Hhi]; [| done].
  rewrite decode_ascii in Hd by done. injection Hd as _ <-. lia.
Qed.

Lemma DecodeLastRune_rev_ascii c t :
  byte c < 128 -> utf8.DecodeLastRune_rev (String c t) = (byte c, 1%nat).
Proof.
  intros H. cbn [utf8.DecodeLastRune_rev]. unfold utf8.RuneSelf.
  destruct (Z.ltb_spec (byte c) 128); [done | lia].
Qed.

Lemma DecodeLastRune_rev_high d t r w :
  utf8.DecodeLastRune_rev (String d t) = (r, w) -> high_prefix (w - 1) t = true.
Proof.
  cbn [utf8.DecodeLastRune_rev].
  destruct (byte d <? utf8.RuneSelf); [by intros [= _ <-] |].
  destruct t as [| c1 t1]; [by intros [= _ <-] |].
  destruct (utf8.RuneStart (byte c1)) eqn:H1.
  { destruct (utf8.DecodeRuneInString _) as [r' size] eqn:Hd.
    destruct (Nat.eqb_spec size 2) as [-> | _]; [| by intros [= _ <-]].
    intros [= _ <-]. cbn. rewrite andb_true_r. apply Z.leb_le.
    eapply decode_wide_high; [exact Hd | lia]. }
  apply RuneStart_false_high, Z.leb_le in H1.
  destruct t1 as [| c2 t2]; [by intros [= _ <-] |].
  destruct (utf8.RuneStart (byte c2)) eqn:H2.
  { destruct (utf8.DecodeRuneInString _) as [r' size] eqn:Hd.
    destruct (Nat.eqb_spec size 3) as [-> | _]; [| by intros [= _ <-]].
    intros [= _ <-]. cbn. rewrite H1, andb_true_r. apply Z.leb_le.
    eapply decode_wide_high; [exact Hd | lia]. }
  apply RuneStart_false_high, Z.leb_le in H2.
  destruct t2 as [| c3 t3]; [by intros [= _ <-] |].
  destruct (utf8.RuneStart (byte c3)) eqn:H3; [| by intros [= _ <-]].
  destruct (utf8.DecodeRuneInString _) as [r' size] eqn:Hd.
  destruct (Nat.eqb_spec size 4) as [-> | _]; [| by intros [= _ <-]].
  intros [= _ <-]. cbn. rewrite H1, H2, andb_true_r. apply Z.leb_le.
  eapply decode_wide_high; [exact Hd | lia].
Qed.

Lemma high_prefix_snoc k x c :
  byte c < 128 -> high_prefix k (x +:+ str1 c) = true -> high_prefix k x = true.
Proof.
  intros Hc. revert x. induction k as [| k IH]; intros x; [done |].
  destruct x as [| d x].
  - rewrite app_nil_l_s. cbn [high_prefix str1].
    destruct (Z.leb_spec 128 (byte c)); [lia | done].
  - rewrite app_cons_s. cbn [high_prefix].
    intros [Hd Hx]%andb_true_iff. by rewrite Hd, (IH x Hx).
Qed.

(** Trimming on the right never goes past an ASCII byte that is not white
    space. *)
Lemma trimRight_go_stops c x k :
  solid c = true -> high_prefix k x = true ->
  exists y, strings.trimRight_go k (x +:+ str1 c) = y +:+ str1 c.
Proof.
  intros [Hlo Hsp]%andb_true_iff. apply Z.ltb_lt in Hlo.
  apply negb_true_iff in Hsp.
  revert k. induction x as [| d x IH]; intros k Hk.
  - destruct k; [| done]. exists "".
    rewrite !app_nil_l_s. unfold str1. cbn [strings.trimRight_go].
    rewrite DecodeLastRune_rev_ascii by done. by rewrite Hsp.
  - rewrite app_cons_s. destruct k as [| k].
    + cbn [strings.trimRight_go].
      destruct (utf8.DecodeLastRune_rev (String d (x +:+ str1 c))) as [r w] eqn:Hd.
      destruct (strings.IsSpace r).
      * apply IH. eapply high_prefix_snoc; [done |].
        eapply DecodeLastRune_rev_high, Hd.
      * exists (String d x). by rewrite app_cons_s.
    + cbn [strings.trimRight_go]. cbn [high_prefix] in Hk.
      apply andb_true_iff in Hk as [_ Hk]. by apply IH.
Qed.

Lemma TrimRightSpace_first c t :
  solid c = true -> exists t', strings.TrimRightSpace (String c t) = String c t'.
Proof.
  intros Hc. unfold strings.TrimRightSpace. rewrite rev_cons_s.
  destruct (trimRight_go_stops c (String.rev t) 0 Hc eq_refl) as [y ->].
  exists (String.rev y). by rewrite rev_app_s.
Qed.

Lemma TrimLeftSpace_blank ws rest :
  ascii_blank ws = true ->
  strings.TrimLeftSpace (ws +:+ rest) = strings.TrimLeftSpace rest.
Proof.
  unfold strings.TrimLeftSpace. induction ws as [| c ws IH]; [done |].
  cbn [ascii_blank Rule.all_bytes]. intros [Hc Hws]%andb_true_iff.
  rewrite app_cons_s. cbn [strings.trimLeft_go].
  assert (Hlo : byte c < 128).
  { revert Hc. split_bounds; intros; (done || lia). }
  rewrite decode_ascii by done.
  assert (Hsp : strings.IsSpace (byte c) = true).
  { unfold strings.IsSpace. by rewrite Hc. }
  rewrite Hsp. by apply IH.
Qed.

Lemma TrimSpace_blank ws : ascii_blank ws = true -> strings.TrimSpace ws = "".
Proof.
  intros Hws. unfold strings.TrimSpace.
  rewrite <- (app_nil_r_s ws), TrimLeftSpace_blank by done. done.
Qed.

Lemma TrimSpace_first ws c rest :
  ascii_blank ws = true -> solid c = true ->
  exists rest', strings.TrimSpace (ws +:+ String c rest) = String c rest'.
Proof.
  intros Hws Hc. unfold strings.TrimSpace.
  rewrite TrimLeftSpace_blank, TrimLeftSpace_solid by done.
  by apply TrimRightSpace_first.
Qed.

(** ** Escaping and unescaping *)

Lemma ReplaceAll_one s a new : strings.ReplaceAll s (str1 a) new = sub1 a new s.
Proof.
  unfold strings.ReplaceAll. induction s as [| c s IH]; [done |].
  cbn [strings.replace_go sub1 strings.HasPrefix str1 String.length Nat.sub].
  rewrite IH. destruct s; case_bool_decide; done.
Qed.

Lemma sub1_app a new (s t : string) :
  sub1 a new (s +:+ t) = sub1 a new s +:+ sub1 a new t.
Proof.
  induction s as [| c s IH]; [done |].
  rewrite app_cons_s. cbn [sub1]. by rewrite IH, app_assoc_s.
Qed.

Section replace_two.
Variables (a b : ascii) (new : string).

Lemma ReplaceAll_two_match s :
  strings.ReplaceAll (String a (String b s)) (str2 a b) new
  = new +:+ strings.ReplaceAll s (str2 a b) new.
Proof.
  unfold strings.ReplaceAll.
  cbn [strings.replace_go strings.HasPrefix str2 String.length Nat.sub].
  rewrite !bool_decide_eq_true_2 by done. by destruct s.
Qed.

Lemma ReplaceAll_two_skip c s :
  c <> a ->
  strings.ReplaceAll (String c s) (str2 a b) new
  = String c (strings.ReplaceAll s (str2 a b) new).
Proof.
  intros Hc. unfold strings.ReplaceAll.
  cbn [strings.replace_go strings.HasPrefix str2].
  by rewrite bool_decide_eq_false_2.
Qed.

Lemma ReplaceAll_two_nomatch s :
  (forall s', s <> String b s') ->
  strings.ReplaceAll (String a s) (str2 a b) new
  = String a (strings.ReplaceAll s (str2 a b) new).
Proof.
  intros Hs. unfold strings.ReplaceAll.
  cbn [strings.replace_go strings.HasPrefix str2].
  destruct s as [| d s]; [by rewrite andb_false_r |].
  cbn [strings.HasPrefix]. rewrite (bool_decide_eq_false_2 (d = b)).
  - by rewrite andb_false_r.
  - intros ->. by eapply Hs.
Qed.
End replace_two.

Lemma expand_head specials v x s' :
  expand specials v = String x s' ->
  x = Ch.backslash \/ exists t, v = String x t /\ special specials x = None.
Proof.
  destruct v as [| d t]; [done |]. cbn [expand]. unfold token.
  destruct (special specials d) eqn:Hd.
  - intros [= <- _]. by left.
  - intros [= <- _]. right. by exists t.
Qed.

Lemma adj_free_tail x c v : adj_free x (String c v) = true -> adj_free x v = true.
Proof.
  cbn [adj_free]. destruct v; [done |]. by intros [_ ?]%andb_true_iff.
Qed.

(** One pass of the unescaping: replacing backslash-[x] by [a] undoes the
    escaping of [a], provided no other backslash is followed by [x]. *)
Lemma unescape_pass a x specials v :
  Forall (λ p, p.2 <> x /\ p.2 <> Ch.backslash) specials ->
  special specials a = None ->
  a = Ch.backslash
  \/ (x <> Ch.backslash /\ (x = a \/ adj_free x v = true)) ->
  strings.ReplaceAll (expand ((a, x) :: specials) v) (str2 Ch.backslash x) (str1 a)
  = expand specials v.
Proof.
  intros Hletters Ha. induction v as [| c v IH]; intros Hside; [done |].
  assert (Hside' : a = Ch.backslash
                   \/ (x <> Ch.backslash /\ (x = a \/ adj_free x v = true))).
  { destruct Hside as [? | [? [? | ?]]]; eauto using adj_free_tail. }
  specialize (IH Hside').
  cbn [expand]. unfold token. cbn [special].
  case_bool_decide as Hca.
  - subst c. rewrite Ha, str2_app, ReplaceAll_two_match, IH. done.
  - destruct (special specials c) as [y |] eqn:Hc.
    + assert (Hy : y <> x /\ y <> Ch.backslash).
      { clear -Hletters Hc. induction Hletters as [| [a' y'] rest Hp _ IHl]; [done |].
        cbn [special] in Hc. case_bool_decide; [| by apply IHl].
        by injection Hc as <-. }
      destruct Hy as [Hyx Hyb].
      rewrite !str2_app.
      rewrite ReplaceAll_two_nomatch by (intros s' [= ? _]; done).
      rewrite ReplaceAll_two_skip by done. by rewrite IH.
    + rewrite !str1_app.
      destruct (decide (c = Ch.backslash)) as [-> | Hcb].
      * rewrite ReplaceAll_two_nomatch; [by rewrite IH |].
        intros s' Hhead. apply expand_head in Hhead as [Hx | (t & -> & Hsp)].
        -- destruct Hside as [? | [? _]]; done.
        -- cbn [special] in Hsp. case_bool_decide as Hxa; [done |].
           destruct Hside as [? | [_ [? | Hadj]]]; [done | done |].
           cbn [adj_free] in Hadj. rewrite !bool_decide_eq_true_2 in Hadj by done.
           done.
      * rewrite ReplaceAll_two_skip by done. by rewrite IH.
Qed.

Lemma expand_nil v : expand [] v = v.
Proof. induction v as [| c v IH]; [done |]. cbn. by rewrite IH. Qed.

Lemma escapeValue_expand v : escapeValue v = expand escapes v.
Proof.
  unfold escapeValue. rewrite !(ReplaceAll_one _ _ _).
  change "\" with (str1 Ch.backslash).
  rewrite (ReplaceAll_one v).
  induction v as [| c v IH]; [done |].
  cbn [sub1 expand]. rewrite !sub1_app, IH. f_equal.
  unfold token, escapes. cbn [special].
  repeat case_bool_decide; subst; try done.
  cbn [sub1 str1]. rewrite !app_nil_r_s.
  repeat (rewrite bool_decide_eq_false_2 by done; cbn [sub1 str1];
          rewrite ?app_nil_r_s).
  done.
Qed.

Lemma expand_escapes_no_lf v : occurs Ch.lf (expand escapes v) = false.
Proof.
  induction v as [| c v IH]; [done |].
  cbn [expand]. rewrite occurs_app, IH, orb_false_r.
  unfold token, escapes. cbn [special].
  repeat case_bool_decide; subst; try done.
  cbn [occurs str1]. by rewrite bool_decide_eq_false_2.
Qed.
(** *** Unescaping in general *)

Lemma string_pair_ind (P : string -> Prop) :
  P "" ->
  (forall c, P (String c "")) ->
  (forall c d s, P s -> P (String d s) -> P (String c (String d s))) ->
  forall s, P s.
Proof.
  intros Hnil Hone Hstep s.
  assert (H : P s /\ forall c, P (String c s)).
  { induction s as [| d s [IH1 IH2]]; [by split |].
    split; [apply IH2 |]. intros c. apply Hstep; [done | apply IH2]. }
  apply H.
Qed.

Lemma ReplaceAll_two_nil a b new : strings.ReplaceAll "" (str2 a b) new = "".
Proof. done. Qed.

Lemma ReplaceAll_two_one a b new c :
  strings.ReplaceAll (String c "") (str2 a b) new = String c "".
Proof.
  unfold strings.ReplaceAll. cbn [strings.replace_go strings.HasPrefix str2].
  by rewrite andb_false_r.
Qed.

(** The replacement on two leading bytes. *)
Lemma ReplaceAll_two_cons a b new c d s :
  strings.ReplaceAll (String c (String d s)) (str2 a b) new
  = if bool_decide (c = a) && bool_decide (d = b)
    then new +:+ strings.ReplaceAll s (str2 a b) new
    else String c (strings.ReplaceAll (String d s) (str2 a b) new).
Proof.
  destruct (decide (c = a)) as [-> | Hc].
  - destruct (decide (d = b)) as [-> | Hd].
    + rewrite !bool_decide_eq_true_2 by done. apply ReplaceAll_two_match.
    + rewrite (bool_decide_eq_false_2 (d = b)), andb_false_r by done.
      apply ReplaceAll_two_nomatch. by intros s' [= ? _].
  - rewrite (bool_decide_eq_false_2 (c = a)) by done.
    by apply ReplaceAll_two_skip.
Qed.

Lemma expand_cons specials c s :
  expand specials (String c s) = token specials c +:+ expand specials s.
Proof. done. Qed.

Lemma token_plain specials c : special specials c = None -> token specials c = str1 c.
Proof. intros H. unfold token. by rewrite H. Qed.

(** One pass of the unescaping on any value: replacing backslash-[x] by
    [a] in the escaped text is the escaping, without [a], of the value in
    which backslash-[x] is replaced by [a]. *)
Lemma unescape_pass_any a x specials v :
  Forall (λ p, p.2 <> x /\ p.2 <> Ch.backslash) specials ->
  special specials a = None ->
  special specials Ch.backslash = None ->
  special specials x = None ->
  a <> Ch.backslash -> x <> Ch.backslash -> x <> a ->
  strings.ReplaceAll (expand ((a, x) :: specials) v) (str2 Ch.backslash x) (str1 a)
  = expand specials (strings.ReplaceAll v (str2 Ch.backslash x) (str1 a)).
Proof.
  intros Hletters Ha Hbs Hx Hab Hxb Hxa.
  assert (Hletter : forall c y, special specials c = Some y ->
                                y <> x /\ y <> Ch.backslash).
  { intros c y Hc. clear -Hletters Hc.
    induction Hletters as [| [a' y'] rest Hp _ IHl]; [done |].
    cbn [special] in Hc. case_bool_decide; [| by apply IHl].
    by injection Hc as <-. }
  (* the replacement passes over the text of one byte that is not a match *)
  assert (Hone : forall c rest,
    (c = Ch.backslash -> forall s', expand ((a, x) :: specials) rest <> String x s') ->
    c <> a \/ True ->
    strings.ReplaceAll (token ((a, x) :: specials) c +:+ expand ((a, x) :: specials) rest)
                       (str2 Ch.backslash x) (str1 a)
    = token specials c
      +:+ strings.ReplaceAll (expand ((a, x) :: specials) rest)
                             (str2 Ch.backslash x) (str1 a)).
  { intros c rest Hhead _. unfold token. cbn [special].
    case_bool_decide as Hca.
    - subst c. rewrite Ha, str2_app, ReplaceAll_two_match. done.
    - destruct (special specials c) as [y |] eqn:Hc.
      + destruct (Hletter c y Hc) as [Hyx Hyb]. rewrite !str2_app.
        rewrite ReplaceAll_two_nomatch by (intros s' [= ? _]; done).
        by rewrite ReplaceAll_two_skip.
      + rewrite !str1_app. destruct (decide (c = Ch.backslash)) as [-> | Hcb].
        * by rewrite ReplaceAll_two_nomatch by auto.
        * by rewrite ReplaceAll_two_skip. }
  induction v as [| c | c d s IHs IHds] using string_pair_ind.
  - done.
  - rewrite ReplaceAll_two_one, !expand_cons.
    rewrite Hone; [done | | by right]. intros _ s'. done.
  - rewrite ReplaceAll_two_cons.
    destruct (decide (c = Ch.backslash /\ d = x)) as [[-> ->] | Hnot].
    + rewrite !bool_decide_eq_true_2 by done. cbn [andb].
      rewrite str1_app, !expand_cons.
      rewrite (token_plain _ Ch.backslash), (token_plain _ x), (token_plain _ a);
        [| done | by cbn [special]; rewrite bool_decide_eq_false_2
           | by cbn [special]; rewrite bool_decide_eq_false_2 ].
      rewrite !str1_app, ReplaceAll_two_match, IHs. done.
    + assert (Hb : bool_decide (c = Ch.backslash) && bool_decide (d = x) = false).
      { apply andb_false_iff.
        destruct (decide (c = Ch.backslash)) as [-> | ?];
          [right | left]; apply bool_decide_eq_false_2; [| done].
        intros ->. by apply Hnot. }
      rewrite Hb. rewrite (expand_cons specials).
      rewrite (expand_cons ((a, x) :: specials) c).
      rewrite Hone; [by rewrite IHds | | by right].
      intros -> s' Hhead. apply expand_head in Hhead as [? | (t & [= -> _] & _)];
        [done | by apply Hnot].
Qed.

(** The five replacements of [readEnvFile] applied to an escaped value. *)
Lemma unescape_escapeValue_any v :
  strings.ReplaceAll
    (strings.ReplaceAll
       (strings.ReplaceAll
          (strings.ReplaceAll
             (strings.ReplaceAll (escapeValue v) "\\" "\")
             (str2 Ch.backslash Ch.dquote) (str1 Ch.dquote))
          "\n" (str1 Ch.lf))
       "\r" (str1 Ch.cr))
    "\t" (str1 Ch.tab)
  = letters_unescaped v.
Proof.
  rewrite escapeValue_expand. unfold escapes, letters_unescaped.
  change "\\" with (str2 Ch.backslash Ch.backslash).
  change "\" with (str1 Ch.backslash).
  change "\n" with (str2 Ch.backslash Ch.n).
  change "\r" with (str2 Ch.backslash Ch.r).
  change "\t" with (str2 Ch.backslash Ch.t).
  rewrite unescape_pass; [| by repeat constructor | done | by left].
  rewrite unescape_pass; [| by repeat constructor | done | right; by auto].
  rewrite unescape_pass_any; [| by repeat constructor | done..].
  rewrite unescape_pass_any; [| by repeat constructor | done..].
  rewrite unescape_pass_any; [| by repeat constructor | done..].
  apply expand_nil.
Qed.

(** *** The values the unescaping leaves alone *)

Lemma ReplaceAll_two_fixed x new v :
  adj_free x v = true -> strings.ReplaceAll v (str2 Ch.backslash x) new = v.
Proof.
  induction v as [| c | c d s _ IHds] using string_pair_ind; intros Hv.
  - done.
  - apply ReplaceAll_two_one.
  - cbn [adj_free] in Hv. apply andb_true_iff in Hv as [Hcd Hv].
    rewrite ReplaceAll_two_cons. apply negb_true_iff in Hcd. rewrite Hcd.
    by rewrite (IHds Hv).
Qed.

Lemma ReplaceAll_two_length x a v :
  (String.length (strings.ReplaceAll v (str2 Ch.backslash x) (str1 a))
   <= String.length v)%nat.
Proof.
  induction v as [| c | c d s IHs IHds] using string_pair_ind.
  - done.
  - by rewrite ReplaceAll_two_one.
  - rewrite ReplaceAll_two_cons. destruct (_ && _).
    + rewrite str1_app. cbn [String.length]. lia.
    + cbn [String.length] in *. lia.
Qed.

Lemma ReplaceAll_two_shorter x a v :
  adj_free x v = false ->
  (String.length (strings.ReplaceAll v (str2 Ch.backslash x) (str1 a))
   < String.length v)%nat.
Proof.
  induction v as [| c | c d s _ IHds] using string_pair_ind; intros Hv.
  - done.
  - done.
  - cbn [adj_free] in Hv. rewrite ReplaceAll_two_cons.
    destruct (bool_decide (c = Ch.backslash) && bool_decide (d = x)).
    + rewrite str1_app. pose proof (ReplaceAll_two_length x a s).
      cbn [String.length]. lia.
    + cbn [negb andb] in Hv. specialize (IHds Hv). cbn [String.length] in *. lia.
Qed.

(** The unescaping of the letters leaves a value as it is exactly when no
    backslash of the value is directly followed by [n], [r] or [t]. *)
Lemma letters_unescaped_fixed v :
  letters_unescaped v = v <-> plain_backslashes v = true.
Proof.
  unfold letters_unescaped, plain_backslashes. split.
  - intros Hfix. apply (f_equal String.length) in Hfix.
    pose proof (ReplaceAll_two_length Ch.n Ch.lf v) as Hn.
    pose proof (ReplaceAll_two_length Ch.r Ch.cr
                  (strings.ReplaceAll v (str2 Ch.backslash Ch.n) (str1 Ch.lf))) as Hr.
    pose proof (ReplaceAll_two_length Ch.t Ch.tab
                  (strings.ReplaceAll
                     (strings.ReplaceAll v (str2 Ch.backslash Ch.n) (str1 Ch.lf))
                     (str2 Ch.backslash Ch.r) (str1 Ch.cr))) as Ht.
    destruct (adj_free Ch.n v) eqn:Han.
    2: { pose proof (ReplaceAll_two_shorter Ch.n Ch.lf v Han). lia. }
    rewrite (ReplaceAll_two_fixed Ch.n _ v Han) in *.
    destruct (adj_free Ch.r v) eqn:Har.
    2: { pose proof (ReplaceAll_two_shorter Ch.r Ch.cr v Har). lia. }
    rewrite (ReplaceAll_two_fixed Ch.r _ v Har) in *.
    destruct (adj_free Ch.t v) eqn:Hat; [done |].
    pose proof (ReplaceAll_two_shorter Ch.t Ch.tab v Hat). lia.
  - intros [[Hn Hr]%andb_true_iff Ht]%andb_true_iff.
    by rewrite (ReplaceAll_two_fixed Ch.n _ v Hn), (ReplaceAll_two_fixed Ch.r _ v Hr),
      (ReplaceAll_two_fixed Ch.t _ v Ht).
Qed.

(** ** Reading back what was written *)

Lemma IsSpace_printable b : 33 <= b <= 126 -> strings.IsSpace b = false.
Proof.
  intros Hb. unfold strings.IsSpace.
  repeat match goal with
  | |- context [Z.leb ?x ?y] =>
    first [ replace (Z.leb x y) with true by (symmetry; apply Z.leb_le; lia)
          | replace (Z.leb x y) with false by (symmetry; apply Z.leb_gt; lia) ]
  | |- context [Z.eqb ?x ?y] =>
    replace (Z.eqb x y) with false by (symmetry; apply Z.eqb_neq; lia)
  end.
  done.
Qed.

Lemma ident_char_range b : Rule.ident_char b = true -> 48 <= b <= 122.
Proof. unfold Rule.ident_char. split_bounds; intros; (done || lia). Qed.

Lemma ident_char_solid c :
  Rule.ident_char (byte c) = true ->
  solid c = true /\ c <> Ch.eq /\ c <> Ch.lf /\ c <> Ch.hash.
Proof.
  intros H. split.
  - pose proof (ident_char_range _ H). unfold solid.
    rewrite IsSpace_printable by lia.
    rewrite andb_true_r. apply Z.ltb_lt. lia.
  - repeat split; intros ->; vm_compute in H; discriminate.
Qed.

Lemma ident_start_char b : Rule.ident_start b = true -> Rule.ident_char b = true.
Proof. unfold Rule.ident_start, Rule.ident_char. split_bounds; (done || lia). Qed.

Lemma all_ident_no_byte x t :
  (forall c, Rule.ident_char (byte c) = true -> c <> x) ->
  Rule.all_bytes Rule.ident_char t = true -> occurs x t = false.
Proof.
  intros Hx. induction t as [| c t IH]; [done |].
  cbn [Rule.all_bytes occurs]. intros [Hc Ht]%andb_true_iff.
  rewrite (IH Ht), bool_decide_eq_false_2; [done | by apply Hx].
Qed.

Lemma all_ident_last c t :
  Rule.ident_char (byte c) = true ->
  Rule.all_bytes Rule.ident_char t = true ->
  exists d, last_byte (String c t) = Some d /\ Rule.ident_char (byte d) = true.
Proof.
  revert c. induction t as [| e t IH]; intros c Hc Ht; [by exists c |].
  cbn [Rule.all_bytes] in Ht. apply andb_true_iff in Ht as [He Ht].
  destruct (IH e He Ht) as (d & Hlast & Hd). exists d. by split.
Qed.

(** What a valid name brings to the parsing of its line. *)
Lemma local_name_shape key :
  Rule.local_name key = true ->
  exists c t, key = String c t /\ solid c = true /\ c <> Ch.hash
    /\ occurs Ch.eq key = false /\ occurs Ch.lf key = false
    /\ strings.TrimSpace key = key.
Proof.
  destruct key as [| c t]; [done |]. cbn [Rule.local_name].
  intros [Hc%ident_start_char Ht]%andb_true_iff.
  destruct (ident_char_solid c Hc) as (Hsolid & Heq & Hlf & Hhash).
  exists c, t. repeat split; try done.
  - cbn [occurs]. rewrite bool_decide_eq_false_2 by done.
    apply all_ident_no_byte; [| done]. intros d Hd. by apply ident_char_solid.
  - cbn [occurs]. rewrite bool_decide_eq_false_2 by done.
    apply all_ident_no_byte; [| done]. intros d Hd. by apply ident_char_solid.
  - destruct (all_ident_last c t Hc Ht) as (d & Hlast & Hd).
    eapply TrimSpace_solid; [done | exact Hlast | by apply ident_char_solid].
Qed.

Lemma quoted_spec v : str1 Ch.dquote +:+ escapeValue v +:+ str1 Ch.dquote = quoted v.
Proof. done. Qed.

Lemma readEnvFile_value_quoted v : readEnvFile_value (quoted v) = letters_unescaped v.
Proof.
  unfold quoted, readEnvFile_value.
  assert (Hne : exists e es, escapeValue v +:+ str1 Ch.dquote = String e es).
  { destruct (escapeValue v); by eexists _, _. }
  destruct Hne as (e & es & Hshape).
  pose proof (last_byte_snoc (escapeValue v) Ch.dquote) as Hlast.
  pose proof (but_last_snoc (escapeValue v) Ch.dquote) as Hbut.
  rewrite Hshape in *. rewrite Hlast, Hbut.
  rewrite !bool_decide_eq_true_2 by done. cbn [andb orb].
  apply unescape_escapeValue_any.
Qed.

Lemma TrimSpace_quoted v : strings.TrimSpace (quoted v) = quoted v.
Proof.
  unfold quoted. eapply (TrimSpace_solid _ _ Ch.dquote); [done | | done].
  change (String Ch.dquote (escapeValue v +:+ str1 Ch.dquote))
    with (String Ch.dquote (escapeValue v) +:+ str1 Ch.dquote).
  apply last_byte_snoc.
Qed.

(** The line written for a valid name is read back as that name, with the
    value it was written from once the letters are unescaped. *)
Lemma readEnvFile_lines_written i key v rest envVars :
  Rule.local_name key = true ->
  readEnvFile_lines i ((key +:+ "=" +:+ quoted v) :: rest) envVars
  = readEnvFile_lines (S i) rest (<[key := letters_unescaped v]> envVars).
Proof.
  intros Hkey.
  destruct (local_name_shape key Hkey) as (c & t & Hshape & Hc & Hhash & Heq & _ & Htrim).
  cbn [readEnvFile_lines].
  assert (Hline : strings.TrimSpace (key +:+ "=" +:+ quoted v)
                  = key +:+ "=" +:+ quoted v).
  { rewrite Hshape, app_cons_s.
    eapply (TrimSpace_solid _ _ Ch.dquote); [done | | done].
    unfold quoted. rewrite <- app_cons_s.
    replace (String c t +:+ "=" +:+ String Ch.dquote (escapeValue v +:+ str1 Ch.dquote))
      with ((String c t +:+ "=" +:+ String Ch.dquote (escapeValue v)) +:+ str1 Ch.dquote).
    - apply last_byte_snoc.
    - by rewrite !app_assoc_s. }
  rewrite Hline.
  assert (Hnot : bool_decide (key +:+ "=" +:+ quoted v = "")
                 || strings.HasPrefix (key +:+ "=" +:+ quoted v) "#" = false).
  { rewrite Hshape, app_cons_s. cbn [strings.HasPrefix].
    rewrite bool_decide_eq_false_2 by done.
    by rewrite bool_decide_eq_false_2. }
  rewrite Hnot.
  change ("=" +:+ quoted v) with (String Ch.eq (quoted v)).
  rewrite SplitN2_first_eq by done.
  by rewrite Htrim, TrimSpace_quoted, readEnvFile_value_quoted.
Qed.

Lemma fold_insert_lookup (f : string -> string) keys (m : gmap string string) k :
  fold_left (λ m k, <[k := f k]> m) keys m !! k
  = if decide (k ∈ keys) then Some (f k) else m !! k.
Proof.
  revert m. induction keys as [| k' keys IH]; intros m.
  - cbn. case_decide as H; [by apply elem_of_nil in H | done].
  - cbn [fold_left]. rewrite IH.
    destruct (decide (k ∈ keys)) as [Hin | Hnin].
    + rewrite decide_True; [done | by right].
    + destruct (decide (k = k')) as [-> | Hne].
      * rewrite decide_True by left. by rewrite lookup_insert_eq.
      * rewrite decide_False by (intros [? | ?]%elem_of_cons; done).
        by rewrite lookup_insert_ne.
Qed.

Lemma sort_Strings_keys (s : gmap string string) k :
  k ∈ sort_Strings (map_to_list s).*1 <-> is_Some (s !! k).
Proof.
  unfold sort_Strings. rewrite merge_sort_Permutation, list_elem_of_fmap. split.
  - intros ([k' v] & -> & Hin). apply elem_of_map_to_list in Hin. by exists v.
  - intros [v Hv]. exists (k, v). split; [done |]. by apply elem_of_map_to_list.
Qed.

(** The text [writeEnvFile] leaves in the file, and the mode of the file. *)
Lemma fold_WriteString filename (line : string -> string) keys file f :
  os.files file !! filename = Some f ->
  let file' := fold_left (λ file key, os.WriteString file filename (line key)) keys file in
  os.files file' !! filename
    = Some (os.mkFile (os.Mode f) (os.Data f +:+ joined (line <$> keys)))
  /\ (forall other, other <> filename -> os.files file' !! other = os.files file !! other)
  /\ os.umask file' = os.umask file /\ os.readonly file' = os.readonly file.
Proof.
  revert file f. induction keys as [| key keys IH]; intros file f Hf.
  - cbn. rewrite app_nil_r_s. by destruct f.
  - cbn [fold_left fmap list_fmap joined foldr].
    destruct (IH (os.WriteString file filename (line key))
                 (os.mkFile (os.Mode f) (os.Data f +:+ line key)))
      as (Hdata & Hother & Hum & Hro).
    { cbn. rewrite lookup_alter_eq, Hf. done. }
    cbn [os.Mode os.Data] in Hdata. rewrite app_assoc_s in Hdata.
    split; [exact Hdata |]. split; [| done].
    intros other Hne. rewrite (Hother other Hne). cbn.
    by rewrite lookup_alter_ne.
Qed.

Lemma writeEnvFile_written fs filename envVars alwaysQuote :
  validateFilePath filename = None ->
  filename ∉ os.readonly fs ->
  exists fs',
    writeEnvFile fs filename envVars alwaysQuote = (fs', None)
    /\ os.files fs' !! filename
       = Some (os.mkFile
                 (match os.files fs !! filename with
                  | Some f => os.Mode f
                  | None => Z.land 384 (Z.lnot (os.umask fs))
                  end)
                 (joined (writeEnvFile_line envVars alwaysQuote
                            <$> sort_Strings (map_to_list envVars).*1)))
    /\ (forall other, other <> filename ->
          os.files fs' !! other = os.files fs !! other).
Proof.
  intros Hpath Hrw. unfold writeEnvFile, os.OpenFile_create_trunc.
  rewrite Hpath, bool_decide_eq_false_2 by done.
  set (mode := match os.files fs !! filename with
               | Some f => os.Mode f
               | None => Z.land 384 (Z.lnot (os.umask fs))
               end).
  set (file := os.mkFS (<[filename := os.mkFile mode ""]> (os.files fs))
                       (os.umask fs) (os.readonly fs)).
  eexists. split; [done |].
  destruct (fold_WriteString filename (writeEnvFile_line envVars alwaysQuote)
              (sort_Strings (map_to_list envVars).*1) file (os.mkFile mode ""))
    as (Hdata & Hother & _).
  { apply lookup_insert_eq. }
  rewrite Hdata. cbn [os.Mode os.Data]. split; [done |].
  intros other Hne. rewrite (Hother other Hne). cbn [os.files file].
  by rewrite lookup_insert_ne.
Qed.

(** What is read back from a file written with [alwaysQuote]: the snapshot
    with the letters of its values unescaped. *)
Lemma env_file_read_back fs filename (s : gmap string string) :
  validateFilePath filename = None ->
  filename ∉ os.readonly fs ->
  (forall k, is_Some (s !! k) -> validateEnvVarName k = None) ->
  exists fs',
    writeEnvFile fs filename s true = (fs', None)
    /\ readEnvFile fs' filename = Ok (letters_unescaped <$> s).
Proof.
  intros Hpath Hrw Hs.
  destruct (writeEnvFile_written fs filename s true Hpath Hrw)
    as (fs' & Hwrite & Hfile & _).
  exists fs'. split; [done |].
  unfold readEnvFile, os.ReadFile. rewrite Hpath, Hfile.
  cbn [fmap option_fmap option_map os.Data].
  set (keys := sort_Strings (map_to_list s).*1).
  assert (Hkeys : Forall (λ k, is_Some (s !! k)) keys).
  { apply Forall_forall. intros k Hk. by apply sort_Strings_keys in Hk. }
  assert (Hlines : writeEnvFile_line s true <$> keys
    = (λ body, body +:+ str1 Ch.lf)
        <$> ((λ k, k +:+ "=" +:+ quoted (default "" (s !! k))) <$> keys)).
  { rewrite <- list_fmap_compose. apply list_fmap_ext. intros _ k _.
    unfold writeEnvFile_line, compose. rewrite quoted_spec.
    by rewrite !app_assoc_s. }
  rewrite Hlines, Split_joined_lines.
  - assert (Hparse : forall i m,
      readEnvFile_lines i
        (((λ k, k +:+ "=" +:+ quoted (default "" (s !! k))) <$> keys) ++ [""]) m
      = Ok (fold_left (λ m k, <[k := letters_unescaped (default "" (s !! k))]> m)
                      keys m)).
    { clear Hlines. induction Hkeys as [| k keys Hk _ IH]; intros i m; [done |].
      cbn [fmap list_fmap app fold_left].
      pose proof (Hs k Hk) as Hname. apply validateEnvVarName_rule in Hname.
      rewrite readEnvFile_lines_written by done. apply IH. }
    rewrite Hparse. f_equal. apply map_eq. intros k.
    rewrite (fold_insert_lookup (λ k, letters_unescaped (default "" (s !! k)))).
    rewrite lookup_fmap.
    destruct (decide (k ∈ keys)) as [Hin | Hnin].
    + apply sort_Strings_keys in Hin as [v Hv]. by rewrite Hv.
    + rewrite lookup_empty. symmetry.
      assert (s !! k = None) as ->; [| done].
      apply eq_None_not_Some. intros Hsome. by apply Hnin, sort_Strings_keys.
  - apply Forall_fmap, Forall_forall. intros k Hk.
    apply sort_Strings_keys in Hk. cbn.
    pose proof (Hs k Hk) as Hname. apply validateEnvVarName_rule in Hname.
    destruct (local_name_shape k Hname) as (_ & _ & _ & _ & _ & _ & Hlf & _).
    rewrite !occurs_app, Hlf. cbn [orb]. unfold quoted.
    change (String Ch.dquote (escapeValue (default "" (s !! k)) +:+ str1 Ch.dquote))
      with (str1 Ch.dquote +:+ escapeValue (default "" (s !! k)) +:+ str1 Ch.dquote).
    rewrite !occurs_app, escapeValue_expand, expand_escapes_no_lf. done.
Qed.

(** C1 (as amended): for a snapshot whose keys are valid variable names and
    in whose values no backslash is directly followed by [n], [r] or [t],
    written with [alwaysQuote] to a path the file can be written at, the
    write succeeds and reading the file back yields exactly the snapshot. *)
Theorem env_file_round_trip
    (fs : os.FS) (filename : string) (s : gmap string string) :
  validateFilePath filename = None ->
  filename ∉ os.readonly fs ->
  (forall k v, s !! k = Some v ->
     validateEnvVarName k = None /\ plain_backslashes v = true) ->
  exists fs',
    writeEnvFile fs filename s true = (fs', None)
    /\ readEnvFile fs' filename = Ok s.
Proof.
  intros Hpath Hrw Hs.
  destruct (env_file_read_back fs filename s Hpath Hrw) as (fs' & Hwrite & Hread).
  { intros k [v Hv]. by destruct (Hs k v Hv). }
  exists fs'. split; [done |]. rewrite Hread. f_equal.
  apply map_eq. intros k. rewrite lookup_fmap.
  destruct (s !! k) as [v |] eqn:Hv; [| done].
  cbn. f_equal. apply letters_unescaped_fixed. by destruct (Hs k v Hv).
Qed.

(** For valid names the condition on the values is the exact one. *)
Lemma env_file_round_trip_exact fs filename (s : gmap string string) fs' :
  validateFilePath filename = None ->
  filename ∉ os.readonly fs ->
  (forall k, is_Some (s !! k) -> validateEnvVarName k = None) ->
  writeEnvFile fs filename s true = (fs', None) ->
  readEnvFile fs' filename = Ok s
  <-> forall k v, s !! k = Some v -> plain_backslashes v = true.
Proof.
  intros Hpath Hrw Hs Hwrite.
  destruct (env_file_read_back fs filename s Hpath Hrw Hs) as (fs'' & Hwrite' & Hread).
  rewrite Hwrite in Hwrite'. injection Hwrite' as <-. rewrite Hread. split.
  - intros [= Heq] k v Hv. apply letters_unescaped_fixed.
    apply (f_equal (λ m : gmap string string, m !! k)) in Heq.
    rewrite lookup_fmap, Hv in Heq. by injection Heq.
  - intros Hplain. f_equal. apply map_eq. intros k. rewrite lookup_fmap.
    destruct (s !! k) as [v |] eqn:Hv; [| done].
    cbn. f_equal. by apply letters_unescaped_fixed, (Hplain k).
Qed.

(** ** Parsing an env-file *)

Lemma readEnvFile_lines_step i line rest envVars :
  readEnvFile_lines i (line :: rest) envVars
  = if line_malformed line
    then Err (Errorf "invalid line %d: %s" [ArgD (i + 1); ArgS (strings.TrimSpace line)])
    else readEnvFile_lines (S i) rest (bind_line envVars line).
Proof.
  cbn [readEnvFile_lines]. unfold line_malformed, bind_line, line_binding, line_skipped.
  destruct (bool_decide (strings.TrimSpace line = "")
            || strings.HasPrefix (strings.TrimSpace line) "#"); [done |].
  cbn [negb andb].
  destruct (occurs Ch.eq (strings.TrimSpace line)) eqn:Heq; cbn [negb].
  - destruct (SplitN2_some _ Heq) as (k & v & _ & _ & ->). done.
  - by rewrite (SplitN2_none _ Heq).
Qed.

Lemma readEnvFile_lines_ok i lines envVars :
  Forall (λ l, line_malformed l = false) lines ->
  readEnvFile_lines i lines envVars = Ok (fold_left bind_line lines envVars).
Proof.
  intros Hok. revert i envVars.
  induction Hok as [| line lines Hline _ IH]; intros i envVars; [done |].
  rewrite readEnvFile_lines_step, Hline. apply IH.
Qed.

Lemma readEnvFile_lines_malformed i pre line post envVars :
  Forall (λ l, line_malformed l = false) pre ->
  line_malformed line = true ->
  readEnvFile_lines i (pre ++ line :: post) envVars
  = Err (Errorf "invalid line %d: %s"
                [ArgD (i + length pre + 1); ArgS (strings.TrimSpace line)]).
Proof.
  intros Hok Hbad. revert i envVars.
  induction Hok as [| l pre Hl _ IH]; intros i envVars.
  - cbn [app length]. rewrite readEnvFile_lines_step, Hbad.
    by rewrite Nat.add_0_r.
  - cbn [app length]. rewrite readEnvFile_lines_step, Hl, IH.
    do 3 f_equal. f_equal. lia.
Qed.

Lemma bind_line_skipped envVars line :
  line_skipped line = true -> bind_line envVars line = envVars.
Proof. intros H. unfold bind_line, line_binding. by rewrite H. Qed.

Lemma bind_line_first_eq envVars line k v :
  line_skipped line = false ->
  strings.TrimSpace line = k +:+ "=" +:+ v ->
  occurs Ch.eq k = false ->
  bind_line envVars line
  = <[strings.TrimSpace k := readEnvFile_value (strings.TrimSpace v)]> envVars.
Proof.
  intros Hskip Hline Hk. unfold bind_line, line_binding. rewrite Hskip, Hline.
  change ("=" +:+ v) with (String Ch.eq v). by rewrite SplitN2_first_eq.
Qed.

Lemma line_skipped_blank ws : ascii_blank ws = true -> line_skipped ws = true.
Proof. intros H. unfold line_skipped. by rewrite TrimSpace_blank. Qed.

Lemma line_skipped_comment ws rest :
  ascii_blank ws = true -> line_skipped (ws +:+ "#" +:+ rest) = true.
Proof.
  intros H. unfold line_skipped.
  destruct (TrimSpace_first ws Ch.hash rest H eq_refl) as [rest' Htrim].
  change ("#" +:+ rest) with (String Ch.hash rest). rewrite Htrim.
  rewrite (bool_decide_eq_false_2 (String Ch.hash rest' = "")) by done.
  by destruct rest'.
Qed.

(** C7 (as amended): blank lines and lines whose first non-space character
    is [#] are skipped; every other line must contain at least one [=], and
    the first one separates the trimmed key from the trimmed value (a value
    may itself contain [=]); the first line without any makes the parse
    fail with its 1-based line number. *)
Theorem env_file_parsing (fs : os.FS) (filename text : string) :
  validateFilePath filename = None ->
  os.ReadFile fs filename = Some text ->
  let lines := strings.Split text Ch.lf in
  (forall pre line post,
      lines = pre ++ line :: post ->
      Forall (λ l, line_malformed l = false) pre ->
      line_malformed line = true ->
      readEnvFile fs filename
      = Err (Errorf "invalid line %d: %s"
                    [ArgD (length pre + 1); ArgS (strings.TrimSpace line)]))
  /\ (Forall (λ l, line_malformed l = false) lines ->
      readEnvFile fs filename = Ok (fold_left bind_line lines ∅))
  /\ (forall envVars line,
        line_skipped line = true -> bind_line envVars line = envVars)
  /\ (forall envVars line k v,
        line_skipped line = false ->
        strings.TrimSpace line = k +:+ "=" +:+ v ->
        occurs Ch.eq k = false ->
        bind_line envVars line
        = <[strings.TrimSpace k := readEnvFile_value (strings.TrimSpace v)]> envVars)
  /\ (forall ws, ascii_blank ws = true -> line_skipped ws = true)
  /\ (forall ws rest,
        ascii_blank ws = true -> line_skipped (ws +:+ "#" +:+ rest) = true).
Proof.
  intros Hpath Hread lines.
  assert (Hparse : readEnvFile fs filename = readEnvFile_lines 0 lines ∅).
  { unfold readEnvFile. by rewrite Hpath, Hread. }
  rewrite Hparse. repeat split.
  - intros pre line post -> Hok Hbad.
    by rewrite readEnvFile_lines_malformed.
  - apply readEnvFile_lines_ok.
  - apply bind_line_skipped.
  - apply bind_line_first_eq.
  - apply line_skipped_blank.
  - apply line_skipped_comment.
Qed.

Lemma env_file_parsing_witness :
  readEnvFile (Ex.file 420 Ex.text_foobar) ".env"
  = Err (Errorf "invalid line %d: %s" [ArgD 4; ArgS "FOOBAR"]).
Proof.
  pose proof (env_file_parsing (Ex.file 420 Ex.text_foobar) ".env"
                Ex.text_foobar eq_refl eq_refl) as [H _].
  apply (H ["VALID_KEY=value"; " # a comment"; ""] "FOOBAR" ["ANOTHER_VALID=test"]).
  - vm_compute. reflexivity.
  - repeat constructor.
  - vm_compute. reflexivity.
Defined.

(** C7 as stated fails: the line [A=b=c] has two [=] and is accepted. *)
Lemma second_equals_sign_accepted :
  readEnvFile (Ex.file 420 "A=b=c") ".env" = Ok {[ "A" := "b=c" ]}.
Proof. vm_compute. reflexivity. Qed.

(** ** Repeated keys *)

Lemma fold_bind_line_other lines envVars k :
  Forall (λ l, forall v, line_binding l <> Some (k, v)) lines ->
  fold_left bind_line lines envVars !! k = envVars !! k.
Proof.
  intros Hno. revert envVars.
  induction Hno as [| l lines Hl _ IH]; intros envVars; [done |].
  cbn [fold_left]. rewrite IH. unfold bind_line.
  destruct (line_binding l) as [[k' v'] |] eqn:Hb; [| done].
  destruct (decide (k' = k)) as [-> | Hne]; [by destruct (Hl v') |].
  by rewrite lookup_insert_ne.
Qed.

(** C10: when every line that is not skipped contains an [=], the parse
    succeeds, and a key bound by several lines has the value of the last of
    them: the earlier ones are dropped without an error. *)
Theorem last_binding_wins
    (fs : os.FS) (filename text : string) (pre post : list string)
    (line k v : string) :
  validateFilePath filename = None ->
  os.ReadFile fs filename = Some text ->
  strings.Split text Ch.lf = pre ++ line :: post ->
  Forall (λ l, line_malformed l = false) (strings.Split text Ch.lf) ->
  line_binding line = Some (k, v) ->
  Forall (λ l, forall v', line_binding l <> Some (k, v')) post ->
  exists envVars,
    readEnvFile fs filename = Ok envVars /\ envVars !! k = Some v.
Proof.
  intros Hpath Hread Hsplit Hok Hline Hpost.
  unfold readEnvFile. rewrite Hpath, Hread.
  rewrite readEnvFile_lines_ok by done. eexists. split; [done |].
  rewrite Hsplit, fold_left_app. cbn [fold_left].
  rewrite fold_bind_line_other by done.
  unfold bind_line at 1. rewrite Hline. apply lookup_insert_eq.
Qed.

Lemma last_binding_wins_witness :
  exists envVars,
    readEnvFile (Ex.file 420 Ex.text_repeated) ".env" = Ok envVars /\ envVars !! "A" = Some "3".
Proof.
  apply (last_binding_wins (Ex.file 420 Ex.text_repeated) ".env"
           Ex.text_repeated ["A=1"; "B=2"] [""] "A=3" "A" "3").
  - vm_compute. reflexivity.
  - vm_compute. reflexivity.
  - vm_compute. reflexivity.
  - repeat constructor.
  - vm_compute. reflexivity.
  - repeat constructor. intros v'. vm_compute. discriminate.
Defined.

Lemma env_file_round_trip_witness :
  exists fs',
    writeEnvFile Ex.fs0 ".env" {[ "DB_PATH" := "C:\dir\x y" ]} true = (fs', None)
    /\ readEnvFile fs' ".env" = Ok {[ "DB_PATH" := "C:\dir\x y" ]}.
Proof.
  apply (env_file_round_trip Ex.fs0 ".env" {[ "DB_PATH" := "C:\dir\x y" ]}).
  - vm_compute. reflexivity.
  - apply not_elem_of_empty.
  - intros k v [<- <-]%lookup_singleton_Some. split; vm_compute; reflexivity.
Defined.

(** C1 as stated fails: the key is a valid name, the value (a backslash and
    the letter n) has no null byte, and it is read back as a line feed. *)
Lemma backslash_letter_not_restored :
  validateEnvVarName "A" = None
  /\ occurs zero "\n" = false
  /\ readEnvFile (writeEnvFile Ex.fs0 ".env" {[ "A" := "\n" ]} true).1 ".env"
     = Ok {[ "A" := str1 Ch.lf ]}
  /\ ({[ "A" := str1 Ch.lf ]} : gmap string string) <> {[ "A" := "\n" ]}.
Proof.
  split; [vm_compute; reflexivity |]. split; [vm_compute; reflexivity |].
  split; [vm_compute; reflexivity |].
  intros H. apply (f_equal (λ m : gmap string string, m !! "A")) in H.
  vm_compute in H. discriminate.
Qed.

(** The same loss without [alwaysQuote]: a backslash makes the value quoted. *)
Example windows_path_not_restored :
  readEnvFile (writeEnvFile Ex.fs0 ".env" {[ "P" := "C:\new" ]} false).1 ".env"
  = Ok {[ "P" := "C:" +:+ str1 Ch.lf +:+ "ew" ]}.
Proof. vm_compute. reflexivity. Qed.

Example blank_and_comment_lines_skipped :
  readEnvFile (Ex.file 420 "  # settings

 KEY = value  ") ".env" = Ok {[ "KEY" := "value" ]}.
Proof. vm_compute. reflexivity. Qed.

Example single_quotes_stripped :
  readEnvFile (Ex.file 420 "URL='postgresql://localhost:5432/mydb'") ".env"
  = Ok {[ "URL" := "postgresql://localhost:5432/mydb" ]}.
Proof. vm_compute. reflexivity. Qed.

(** ** The comparison of a sync *)

Lemma syncParameters_compare_elem entries localEnvVars ssmEnvVars acc d :
  d ∈ syncParameters_compare entries localEnvVars ssmEnvVars acc <->
  d ∈ acc \/ exists name id,
    (name, id) ∈ entries /\ differs localEnvVars ssmEnvVars name id d.
Proof.
  revert acc. induction entries as [| [envKey ssmPath] rest IH]; intros acc.
  - cbn. split; [auto |]. intros [H | (name & id & H & _)]; [done |].
    by apply elem_of_nil in H.
  - cbn [syncParameters_compare]. rewrite IH. clear IH.
    assert (Hhere : forall acc' : list Difference,
      (d ∈ acc' <-> d ∈ acc \/ differs localEnvVars ssmEnvVars envKey ssmPath d) ->
      (d ∈ acc' \/ (exists name id, (name, id) ∈ rest
                     /\ differs localEnvVars ssmEnvVars name id d)) <->
      (d ∈ acc \/ (exists name id, (name, id) ∈ (envKey, ssmPath) :: rest
                     /\ differs localEnvVars ssmEnvVars name id d))).
    { intros acc' Hacc. rewrite Hacc. split.
      - intros [[H | H] | (name & id & H & Hd)]; [by left | |].
        + right. exists envKey, ssmPath. split; [by left | done].
        + right. exists name, id. split; [by right | done].
      - intros [H | (name & id & H & Hd)]; [by left; left |].
        apply elem_of_cons in H as [H | H].
        + injection H as -> ->. by left; right.
        + right. by exists name, id. }
    apply Hhere. unfold differs.
    destruct (localEnvVars !! envKey) as [lv |] eqn:Hl;
      destruct (ssmEnvVars !! envKey) as [rv |] eqn:Hr.
    + case_bool_decide as Hne.
      * rewrite elem_of_app, list_elem_of_singleton. split.
        -- intros [H | ->]; [by left |]. right. right. by exists lv, rv.
        -- intros [H | [[? _] | (lv' & rv' & ? & ? & _ & ->)]];
             [by left | done | simplify_eq; by right].
      * split; [by left |].
        intros [H | [[? _] | (lv' & rv' & ? & ? & Hneq & _)]]; [done | done |].
        simplify_eq; try by destruct Hne.
    + split; [by left |].
      intros [H | [[? _] | (lv' & rv' & _ & ? & _)]]; done.
    + rewrite elem_of_app, list_elem_of_singleton. split.
      * intros [H | ->]; [by left |]. right. left. split; [done |]. by exists rv.
      * intros [H | [[_ (rv' & ? & ->)] | (lv' & rv' & ? & _)]];
          [by left | simplify_eq; by right | done].
    + split; [by left |].
      intros [H | [[_ (rv' & ? & _)] | (lv' & rv' & ? & _)]]; done.
Qed.

Lemma sort_differences_elem d differences :
  d ∈ sort_differences differences <-> d ∈ differences.
Proof.
  unfold sort_differences. by rewrite merge_sort_Permutation.
Qed.

Lemma sort_differences_sorted differences :
  Sorted (λ a b, String.le (Key a) (Key b)) (sort_differences differences).
Proof.
  unfold sort_differences.
  assert (Total (λ a b : Difference, String.le (Key a) (Key b)))
    by (intros a b; apply String.le_total).
  by apply Sorted_merge_sort.
Qed.

(** C2: an entry of the mapping yields a difference exactly when the local
    snapshot lacks the name and the remote one has it (the local value is
    then recorded as the empty string), or when both have it with unequal
    values; a name only the local snapshot has, and a name with equal
    values on both sides, yield none. *)
Theorem sync_difference_classification
    (entries : list (string * string)) (localEnvVars ssmEnvVars : gmap string string)
    (name id : string) :
  (name, id) ∈ entries ->
  let differences :=
    sort_differences (syncParameters_compare entries localEnvVars ssmEnvVars []) in
  ((exists d, d ∈ differences /\ Key d = name /\ SSMPath d = id) <->
     (localEnvVars !! name = None /\ is_Some (ssmEnvVars !! name))
     \/ (exists lv rv, localEnvVars !! name = Some lv
                       /\ ssmEnvVars !! name = Some rv /\ lv <> rv))
  /\ (forall rv, localEnvVars !! name = None -> ssmEnvVars !! name = Some rv ->
        mkDifference name "" rv id true ∈ differences)
  /\ (forall lv rv, localEnvVars !! name = Some lv -> ssmEnvVars !! name = Some rv ->
        lv <> rv -> mkDifference name lv rv id true ∈ differences)
  /\ (is_Some (localEnvVars !! name) -> ssmEnvVars !! name = None ->
        forall d, d ∈ differences -> Key d <> name)
  /\ (forall v, localEnvVars !! name = Some v -> ssmEnvVars !! name = Some v ->
        forall d, d ∈ differences -> Key d <> name).
Proof.
  intros Hin differences.
  assert (Helem : forall d, d ∈ differences <->
            exists name' id', (name', id') ∈ entries
                              /\ differs localEnvVars ssmEnvVars name' id' d).
  { intros d. unfold differences.
    rewrite sort_differences_elem, syncParameters_compare_elem.
    split; [intros [H | H]; [by apply elem_of_nil in H | done] | by right]. }
  assert (Hkey : forall d name' id',
            differs localEnvVars ssmEnvVars name' id' d -> Key d = name').
  { intros d name' id' [[_ (rv & _ & ->)] | (lv & rv & _ & _ & _ & ->)]; done. }
  repeat split.
  - intros (d & Hd & Hk & _). apply Helem in Hd as (name' & id' & _ & Hd).
    pose proof (Hkey _ _ _ Hd) as Hk'. rewrite Hk in Hk'. subst name'.
    destruct Hd as [[Hl (rv & Hr & _)] | (lv & rv & Hl & Hr & Hne & _)].
    + left. by rewrite Hr.
    + right. by exists lv, rv.
  - intros [[Hl [rv Hr]] | (lv & rv & Hl & Hr & Hne)].
    + exists (mkDifference name "" rv id true). split; [| done].
      apply Helem. exists name, id. split; [done |]. left. split; [done |].
      by exists rv.
    + exists (mkDifference name lv rv id true). split; [| done].
      apply Helem. exists name, id. split; [done |]. right. by exists lv, rv.
  - intros rv Hl Hr. apply Helem. exists name, id. split; [done |].
    left. split; [done |]. by exists rv.
  - intros lv rv Hl Hr Hne. apply Helem. exists name, id. split; [done |].
    right. by exists lv, rv.
  - intros [lv Hl] Hr d Hd Hk. apply Helem in Hd as (name' & id' & _ & Hd).
    pose proof (Hkey _ _ _ Hd) as Hk'. rewrite Hk in Hk'. subst name'.
    destruct Hd as [[Hl' _] | (lv' & rv & _ & Hr' & _)]; congruence.
  - intros v Hl Hr d Hd Hk. apply Helem in Hd as (name' & id' & _ & Hd).
    pose proof (Hkey _ _ _ Hd) as Hk'. rewrite Hk in Hk'. subst name'.
    destruct Hd as [[Hl' _] | (lv' & rv & Hl' & Hr' & Hne & _)]; congruence.
Qed.

Lemma sync_difference_classification_witness :
  mkDifference "B" "" "9" "/app/b" true
    ∈ sort_differences
        (syncParameters_compare Ex.entries Ex.local_AC Ex.remote_AB []).
Proof.
  assert (Hin : ("B", "/app/b") ∈ Ex.entries) by (vm_compute; set_solver).
  pose proof (sync_difference_classification Ex.entries Ex.local_AC Ex.remote_AB
                "B" "/app/b" Hin) as (_ & H & _).
  apply H; reflexivity.
Defined.

(** ** Bulk push *)

Lemma present_puts_present envVars envKey id value rest :
  envVars !! envKey = Some value ->
  present_puts envVars ((envKey, id) :: rest)
  = CallPut id value :: present_puts envVars rest.
Proof. intros H. unfold present_puts. simpl. by rewrite H. Qed.

Lemma present_puts_absent envVars envKey id rest :
  envVars !! envKey = None ->
  present_puts envVars ((envKey, id) :: rest) = present_puts envVars rest.
Proof. intros H. unfold present_puts. simpl. by rewrite H. Qed.

Lemma pushParameters_range_calls client envVars entries w :
  exists issued,
    calls (pushParameters_range client envVars entries w).1 = calls w ++ issued
    /\ issued `prefix_of` present_puts envVars entries
    /\ ((pushParameters_range client envVars entries w).2 = None ->
        issued = present_puts envVars entries).
Proof.
  revert w. induction entries as [| [envKey ssmPath] rest IH]; intros w.
  - exists []. by rewrite app_nil_r.
  - cbn [pushParameters_range].
    destruct (envVars !! envKey) as [value |] eqn:Hv;
      [rewrite (present_puts_present _ _ _ _ _ Hv)
      | rewrite (present_puts_absent _ _ _ _ Hv)].
    + destruct (Put client (calls w) ssmPath value).
      * destruct (IH (record w (CallPut ssmPath value)))
          as (issued & Hc & Hp & He).
        exists (CallPut ssmPath value :: issued). cbn [calls record] in Hc.
        rewrite Hc, <- app_assoc. split; [done |]. split.
        -- by apply prefix_cons.
        -- intros H. by rewrite (He H).
      * exists [CallPut ssmPath value]. split; [done |]. split; [| done].
        apply prefix_cons, prefix_nil.
    + apply IH.
Qed.

Lemma pushParametersToAzure_range_calls client envVars entries w :
  exists issued,
    calls (pushParametersToAzure_range client envVars entries w).1
      = calls w ++ issued
    /\ issued `prefix_of` present_puts envVars entries
    /\ ((pushParametersToAzure_range client envVars entries w).2 = None ->
        issued = present_puts envVars entries).
Proof.
  revert w. induction entries as [| [envKey secretName] rest IH]; intros w.
  - exists []. by rewrite app_nil_r.
  - cbn [pushParametersToAzure_range].
    destruct (envVars !! envKey) as [value |] eqn:Hv;
      [rewrite (present_puts_present _ _ _ _ _ Hv)
      | rewrite (present_puts_absent _ _ _ _ Hv)].
    + destruct (Put client (calls w) secretName value) as [| f].
      * destruct (IH (record w (CallPut secretName value)))
          as (issued & Hc & Hp & He).
        exists (CallPut secretName value :: issued). cbn [calls record] in Hc.
        rewrite Hc, <- app_assoc. split; [done |]. split.
        -- by apply prefix_cons.
        -- intros H. by rewrite (He H).
      * exists [CallPut secretName value].
        split; [by destruct (checkAzureAuthError f) |]. split.
        -- apply prefix_cons, prefix_nil.
        -- by destruct (checkAzureAuthError f).
    + apply IH.
Qed.

Lemma pushParameters_range_succeeds client envVars entries w :
  (forall history id v, Put client history id v = PutDone) ->
  (pushParameters_range client envVars entries w).2 = None.
Proof.
  intros Hput. revert w. induction entries as [| [envKey ssmPath] rest IH];
    intros w; [done |].
  cbn [pushParameters_range]. destruct (envVars !! envKey); [| apply IH].
  rewrite Hput. apply IH.
Qed.

Lemma pushParametersToAzure_range_succeeds client envVars entries w :
  (forall history id v, Put client history id v = PutDone) ->
  (pushParametersToAzure_range client envVars entries w).2 = None.
Proof.
  intros Hput. revert w. induction entries as [| [envKey secretName] rest IH];
    intros w; [done |].
  cbn [pushParametersToAzure_range]. destruct (envVars !! envKey); [| apply IH].
  rewrite Hput. apply IH.
Qed.

Lemma pushParameters_range_silent client envVars entries w :
  stdout (pushParameters_range client envVars entries w).1 = stdout w.
Proof.
  revert w. induction entries as [| [envKey ssmPath] rest IH]; intros w; [done |].
  cbn [pushParameters_range]. destruct (envVars !! envKey) as [value |]; [| apply IH].
  destruct (Put client (calls w) ssmPath value); [by rewrite IH | done].
Qed.

Lemma pushParametersToAzure_range_silent client envVars entries w :
  stdout (pushParametersToAzure_range client envVars entries w).1 = stdout w.
Proof.
  revert w. induction entries as [| [envKey secretName] rest IH]; intros w; [done |].
  cbn [pushParametersToAzure_range].
  destruct (envVars !! envKey) as [value |]; [| apply IH].
  destruct (Put client (calls w) secretName value) as [| f]; [by rewrite IH |].
  by destruct (checkAzureAuthError f).
Qed.

Lemma present_puts_elem envVars entries c :
  c ∈ present_puts envVars entries <->
  exists name id v, (name, id) ∈ entries /\ envVars !! name = Some v
                    /\ c = CallPut id v.
Proof.
  unfold present_puts. rewrite list_elem_of_omap. split.
  - intros ([name id] & Hin & Hc). destruct (envVars !! name) as [v |] eqn:Hv; [| done].
    injection Hc as <-. by exists name, id, v.
  - intros (name & id & v & Hin & Hv & ->). exists (name, id). split; [done |].
    by rewrite Hv.
Qed.

(** C5 (as amended): a bulk push issues store calls only for the entries
    whose name the local snapshot has, each with the local value, in the
    order the entries are visited; an entry whose name is absent gets no
    call and no message.  When no call fails these are all such entries; a
    call that fails ends the push, so in general the calls issued are a
    leading part of them. *)
Theorem push_calls_present_entries
    (client : Client) (envVars : gmap string string)
    (entries : list (string * string)) (w : World) :
  let aws := pushParameters_range client envVars entries w in
  let az := pushParametersToAzure_range client envVars entries w in
  (exists issued, calls aws.1 = calls w ++ issued
                  /\ issued `prefix_of` present_puts envVars entries)
  /\ (exists issued, calls az.1 = calls w ++ issued
                     /\ issued `prefix_of` present_puts envVars entries)
  /\ (aws.2 = None -> calls aws.1 = calls w ++ present_puts envVars entries)
  /\ (az.2 = None -> calls az.1 = calls w ++ present_puts envVars entries)
  /\ ((forall history id v, Put client history id v = PutDone) ->
      aws.2 = None /\ az.2 = None)
  /\ (forall c, c ∈ present_puts envVars entries <->
        exists name id v, (name, id) ∈ entries /\ envVars !! name = Some v
                          /\ c = CallPut id v)
  /\ stdout aws.1 = stdout w /\ stdout az.1 = stdout w.
Proof.
  intros aws az.
  destruct (pushParameters_range_calls client envVars entries w)
    as (i1 & Hc1 & Hp1 & He1).
  destruct (pushParametersToAzure_range_calls client envVars entries w)
    as (i2 & Hc2 & Hp2 & He2).
  split; [by exists i1 |]. split; [by exists i2 |].
  split; [intros H; unfold aws; by rewrite Hc1, (He1 H) |].
  split; [intros H; unfold az; by rewrite Hc2, (He2 H) |].
  split.
  { intros Hput. split.
    - by apply pushParameters_range_succeeds.
    - by apply pushParametersToAzure_range_succeeds. }
  split; [apply present_puts_elem |].
  split; [apply pushParameters_range_silent | apply pushParametersToAzure_range_silent].
Qed.

Lemma push_calls_present_entries_witness :
  calls (pushParameters_range Ex.accepting Ex.local_AC Ex.entries Ex.world0).1
  = [CallPut "/app/a" "1"; CallPut "/app/c" "3"].
Proof.
  pose proof (push_calls_present_entries Ex.accepting Ex.local_AC Ex.entries
                Ex.world0) as (_ & _ & H & _).
  rewrite H; reflexivity.
Defined.

(** C5 as stated fails: both names are in the local snapshot, the store
    refuses the first call, and the second entry is never stored. *)
Lemma push_stops_at_failed_call :
  present_puts Ex.local_AB (map_to_list Ex.mapping)
    = [CallPut "/app/a" "1"; CallPut "/app/b" "2"]
  /\ calls (pushParameters Ex.failing Ex.local_AB Ex.mapping Ex.world0).1
    = [CallPut "/app/a" "1"].
Proof. split; vm_compute; reflexivity. Qed.

(** ** A sync that finds nothing to do *)

Lemma fetchParameters_range_fs client entries envVars w :
  fs (fetchParameters_range client entries envVars w).1 = fs w.
Proof.
  revert envVars w. induction entries as [| [envKey ssmPath] rest IH];
    intros envVars w; [done |].
  cbn [fetchParameters_range].
  destruct (Get client (calls w) ssmPath) as [[value |] | []];
    try rewrite IH; done.
Qed.

Lemma fetchParametersFromAzure_range_fs client entries envVars w :
  fs (fetchParametersFromAzure_range client entries envVars w).1 = fs w.
Proof.
  revert envVars w. induction entries as [| [envKey secretName] rest IH];
    intros envVars w; [done |].
  cbn [fetchParametersFromAzure_range].
  destruct (Get client (calls w) secretName) as [[value |] | []];
    cbn [checkAzureAuthError]; try rewrite IH; done.
Qed.

Lemma fetch_of_fs b client paramMap w :
  fs (fetch_of b client paramMap w).1 = fs w.
Proof.
  destruct b; [apply fetchParameters_range_fs | apply fetchParametersFromAzure_range_fs].
Qed.

(** C4: when the comparison of a sync yields no difference, the sync prints
    that all values are in sync and returns without error, and the file
    system, the local env-file with it, is what it was. *)
Theorem sync_without_differences_writes_nothing
    (b : Backend) (client : Client) (localEnvVars remoteEnvVars : gmap string string)
    (paramMap : ParameterMap) (envFile : string) (force quotes : bool)
    (w fetched : World) :
  fetch_of b client paramMap w = (fetched, Ok remoteEnvVars) ->
  syncParameters_compare (map_to_list paramMap) localEnvVars remoteEnvVars [] = [] ->
  exists w',
    sync_of b client localEnvVars paramMap envFile force quotes w = Some (w', None)
    /\ stdout w' = stdout fetched ++ [in_sync_message]
    /\ fs w' = fs w
    /\ os.ReadFile (fs w') envFile = os.ReadFile (fs w) envFile.
Proof.
  intros Hfetch Hnone.
  pose proof (fetch_of_fs b client paramMap w) as Hfs. rewrite Hfetch in Hfs.
  cbn [fst] in Hfs.
  exists (print fetched "✓ All values are in sync. No updates needed.\n" []).
  assert (Hfs' : fs (print fetched "✓ All values are in sync. No updates needed.\n" [])
                 = fs w) by done.
  rewrite Hfs'. split; [| done].
  destruct b; cbn [fetch_of sync_of] in *.
  - unfold syncParameters. rewrite Hfetch. unfold sync_after_fetch.
    by rewrite Hnone.
  - unfold syncParametersWithAzure. rewrite Hfetch. unfold sync_after_fetch.
    by rewrite Hnone.
Qed.

Lemma sync_without_differences_writes_nothing_witness :
  exists w',
    syncParameters (Ex.holding {[ "/app/a" := "1" ]}) {[ "A" := "1" ]} Ex.mapping
      ".env" false false Ex.world0 = Some (w', None)
    /\ fs w' = Ex.fs0.
Proof.
  destruct (sync_without_differences_writes_nothing AWS
              (Ex.holding {[ "/app/a" := "1" ]}) {[ "A" := "1" ]} {[ "A" := "1" ]}
              Ex.mapping ".env" false false Ex.world0
              (fetchParameters (Ex.holding {[ "/app/a" := "1" ]}) Ex.mapping
                 Ex.world0).1)
    as (w' & Hsync & _ & Hfs & _).
  - vm_compute. reflexivity.
  - vm_compute. reflexivity.
  - exists w'. split; [exact Hsync | exact Hfs].
Defined.

(** ** The interactive selection *)

Example read_answer_yes : read_answer "YES" = AnsYes.
Proof. vm_compute. reflexivity. Qed.

Example read_answer_all : read_answer "a" = AnsAll.
Proof. vm_compute. reflexivity. Qed.

Example read_answer_empty : read_answer "" = AnsInvalid.
Proof. vm_compute. reflexivity. Qed.

Example read_answer_other : read_answer "maybe" = AnsInvalid.
Proof. vm_compute. reflexivity. Qed.


Lemma promptForUpdates_range_step n i diff rest toUpdate out response inputs :
  promptForUpdates_range n i (diff :: rest) toUpdate out (response :: inputs)
  = match read_answer response with
    | AnsYes =>
      promptForUpdates_range n (S i) rest (toUpdate ++ [diff])
        (out ++ [prompt_line n i diff]) inputs
    | AnsNo =>
      promptForUpdates_range n (S i) rest toUpdate
        (out ++ [prompt_line n i diff]) inputs
    | AnsAll => Some (toUpdate ++ diff :: rest, out ++ [prompt_line n i diff], inputs)
    | AnsCancel => Some (toUpdate, out ++ [prompt_line n i diff], inputs)
    | AnsInvalid =>
      promptForUpdates_range n i (diff :: rest) toUpdate
        (out ++ [prompt_line n i diff; invalid_line]) inputs
    end.
Proof.
  cbn [promptForUpdates_range]. destruct (read_answer response); try done.
  by rewrite <- app_assoc.
Qed.

(** The loop follows the protocol of the specification on the answers as
    read: what it returns is the selection so far followed by what the
    protocol selects, and the unread answers are those the protocol leaves. *)
Lemma promptForUpdates_range_select n i differences toUpdate out inputs :
  match promptForUpdates_range n i differences toUpdate out inputs,
        select differences (read_answer <$> inputs) with
  | Some (selected, _, unread), Some (accepted, unread') =>
    selected = toUpdate ++ accepted /\ read_answer <$> unread = unread'
  | None, None => True
  | _, _ => False
  end.
Proof.
  revert i toUpdate out inputs.
  induction differences as [| diff rest IH]; intros i toUpdate out inputs.
  - cbn. by rewrite app_nil_r.
  - revert out. induction inputs as [| response inputs IHin]; intros out; [done |].
    rewrite promptForUpdates_range_step.
    cbn [select fmap list_fmap]. fold (fmap (M:=list) read_answer inputs).
    destruct (read_answer response).
    + specialize (IH (S i) (toUpdate ++ [diff]) (out ++ [prompt_line n i diff]) inputs).
      destruct (promptForUpdates_range _ _ rest _ _ _) as [[[sel o] un] |],
        (select rest (read_answer <$> inputs)) as [[acc un'] |]; try done.
      destruct IH as [-> ->]. by rewrite <- app_assoc.
    + apply IH.
    + done.
    + by rewrite app_nil_r.
    + apply IHin.
Qed.

(** How an answer is read: trimmed, in lower case, it is one of the eight
    words of the prompt, or it is not understood. *)
Lemma read_answer_cases response :
  let answer := strings.ToLower (strings.TrimSpace response) in
  (answer = "y" \/ answer = "yes" -> read_answer response = AnsYes)
  /\ (answer = "n" \/ answer = "no" -> read_answer response = AnsNo)
  /\ (answer = "a" \/ answer = "all" -> read_answer response = AnsAll)
  /\ (answer = "c" \/ answer = "cancel" -> read_answer response = AnsCancel)
  /\ (answer ∉ ["y"; "yes"; "n"; "no"; "a"; "all"; "c"; "cancel"] ->
      read_answer response = AnsInvalid).
Proof.
  intros answer. unfold read_answer. fold answer.
  split; [| split; [| split; [| split]]].
  - intros [H | H]; rewrite H; reflexivity.
  - intros [H | H]; rewrite H; reflexivity.
  - intros [H | H]; rewrite H; reflexivity.
  - intros [H | H]; rewrite H; reflexivity.
  - intros H.
    assert (H1 : ~ (answer = "y" \/ answer = "yes")).
    { intros [Heq | Heq]; apply H; rewrite Heq; set_solver. }
    assert (H2 : ~ (answer = "n" \/ answer = "no")).
    { intros [Heq | Heq]; apply H; rewrite Heq; set_solver. }
    assert (H3 : ~ (answer = "a" \/ answer = "all")).
    { intros [Heq | Heq]; apply H; rewrite Heq; set_solver. }
    assert (H4 : ~ (answer = "c" \/ answer = "cancel")).
    { intros [Heq | Heq]; apply H; rewrite Heq; set_solver. }
    by rewrite (bool_decide_eq_false_2 _ H1), (bool_decide_eq_false_2 _ H2),
      (bool_decide_eq_false_2 _ H3), (bool_decide_eq_false_2 _ H4).
Qed.

Lemma promptForUpdates_select differences w :
  match promptForUpdates differences w,
        select differences (read_answer <$> stdin w) with
  | Some (w', selected), Some (accepted, unread) =>
    selected = accepted /\ read_answer <$> stdin w' = unread
    /\ fs w' = fs w /\ calls w' = calls w
  | None, None => True
  | _, _ => False
  end.
Proof.
  unfold promptForUpdates.
  pose proof (promptForUpdates_range_select (length differences) 0 differences []
                (stdout w) (stdin w)) as Hrun.
  destruct (promptForUpdates_range _ _ _ _ _ _) as [[[selected out] unread] |],
    (select differences (read_answer <$> stdin w)) as [[accepted unread'] |];
    try done.
  by destruct Hrun as [-> <-].
Qed.

(** C3: the answer read at a difference is trimmed and put in lower case.
    If it is y or yes, the difference is added to the selection and the
    prompt moves to the next one; if it is n or no, the prompt moves on
    without it; if it is a or all, the prompt returns at once the selection
    with this difference and every one after it; if it is c or cancel, it
    returns at once the selection as it stands; any other answer is used
    up, and the prompt asks again about the same difference with the
    selection unchanged.  After the last difference the selection is
    returned.  [promptForUpdates] runs this from the first difference with
    an empty selection: it returns what the protocol of the specification
    selects on the answers read and leaves unread the answers that the
    protocol leaves, without touching the files or the store, and it has
    no result exactly when the answers run out first. *)
Theorem interactive_selection_protocol
    (n i : nat) (diff : Difference) (rest toUpdate : list Difference)
    (out : list Message) (response : string) (inputs : list string)
    (differences : list Difference) (w : World) :
  let answer := strings.ToLower (strings.TrimSpace response) in
  let asked := out ++ [prompt_line n i diff] in
  let run :=
    promptForUpdates_range n i (diff :: rest) toUpdate out (response :: inputs) in
  (answer = "y" \/ answer = "yes" ->
     run = promptForUpdates_range n (S i) rest (toUpdate ++ [diff]) asked inputs)
  /\ (answer = "n" \/ answer = "no" ->
      run = promptForUpdates_range n (S i) rest toUpdate asked inputs)
  /\ (answer = "a" \/ answer = "all" ->
      run = Some (toUpdate ++ diff :: rest, asked, inputs))
  /\ (answer = "c" \/ answer = "cancel" -> run = Some (toUpdate, asked, inputs))
  /\ (answer ∉ ["y"; "yes"; "n"; "no"; "a"; "all"; "c"; "cancel"] ->
      run = promptForUpdates_range n i (diff :: rest) toUpdate
              (asked ++ [invalid_line]) inputs)
  /\ promptForUpdates_range n i [] toUpdate out inputs = Some (toUpdate, out, inputs)
  /\ ((answer = "y" \/ answer = "yes" -> read_answer response = AnsYes)
      /\ (answer = "n" \/ answer = "no" -> read_answer response = AnsNo)
      /\ (answer = "a" \/ answer = "all" -> read_answer response = AnsAll)
      /\ (answer = "c" \/ answer = "cancel" -> read_answer response = AnsCancel)
      /\ (answer ∉ ["y"; "yes"; "n"; "no"; "a"; "all"; "c"; "cancel"] ->
          read_answer response = AnsInvalid))
  /\ (forall answers,
        match promptForUpdates_range n i differences toUpdate out answers,
              select differences (read_answer <$> answers) with
        | Some (selected, _, unread), Some (accepted, unread') =>
          selected = toUpdate ++ accepted /\ read_answer <$> unread = unread'
        | None, None => True
        | _, _ => False
        end)
  /\ match promptForUpdates differences w,
           select differences (read_answer <$> stdin w) with
     | Some (w', selected), Some (accepted, unread) =>
       selected = accepted /\ read_answer <$> stdin w' = unread
       /\ fs w' = fs w /\ calls w' = calls w
     | None, None => True
     | _, _ => False
     end.
Proof.
  intros answer asked run.
  destruct (read_answer_cases response) as (Hyes & Hno & Hall & Hcancel & Hother).
  fold answer in Hyes, Hno, Hall, Hcancel, Hother.
  assert (Hstep := promptForUpdates_range_step n i diff rest toUpdate out response inputs).
  fold run in Hstep. fold asked in Hstep.
  split; [intros H; by rewrite Hstep, (Hyes H) |].
  split; [intros H; by rewrite Hstep, (Hno H) |].
  split; [intros H; by rewrite Hstep, (Hall H) |].
  split; [intros H; by rewrite Hstep, (Hcancel H) |].
  split.
  { intros H. rewrite Hstep, (Hother H). unfold asked. by rewrite <- app_assoc. }
  split; [done |]. split; [done |].
  split; [intros answers; apply promptForUpdates_range_select |].
  apply promptForUpdates_select.
Qed.

(** Two differences, answers "maybe", "y", "c": the first is selected, the
    second is not, and nothing is left to read. *)
Example prompt_run :
  promptForUpdates
    [mkDifference "A" "1" "2" "/app/a" true; mkDifference "B" "" "9" "/app/b" true]
    (mkWorld Ex.fs0 [] ["maybe"; "y"; "c"] [])
  = Some (mkWorld Ex.fs0 [] []
            [prompt_line 2 0 (mkDifference "A" "1" "2" "/app/a" true);
             invalid_line;
             prompt_line 2 0 (mkDifference "A" "1" "2" "/app/a" true);
             prompt_line 2 1 (mkDifference "B" "" "9" "/app/b" true)],
          [mkDifference "A" "1" "2" "/app/a" true]).
Proof. vm_compute. reflexivity. Qed.

(** ** Validation before any remote call *)

Lemma exit_usage_calls w message :
  exists w', exit_usage w message = Some (w', 1)
             /\ calls w' = calls w /\ fs w' = fs w.
Proof. unfold exit_usage, exit1. by eexists. Qed.

Lemma check_flags_calls f w stop :
  check_flags f w = Some stop ->
  exists w', stop = Some (w', 1) /\ calls w' = calls w /\ fs w' = fs w.
Proof.
  unfold check_flags. intros H.
  repeat match type of H with
  | (if ?c then _ else _) = _ => destruct c
  end; simplify_eq; apply exit_usage_calls.
Qed.

Lemma main_azure_rejected env f client w :
  (push f = true -> key f = "") ->
  azure f = true ->
  mapping_rejected env f (fs w) ->
  exists w', main_azure env f client w = Some (w', 1)
             /\ calls w' = calls w /\ fs w' = fs w.
Proof.
  intros Hkey Haz Hrej. unfold mapping_rejected in Hrej. rewrite Haz in Hrej.
  assert (Hload : forall k : ParameterMap -> option (World * Z),
    exists w',
      match loadParameterMapRaw env (fs w) (mapFile f) with
      | Err err => exit1_err w "Error loading parameter map: %v\n" err
      | Ok paramMap =>
        match validateAzureParameterMap paramMap with
        | Some err => exit1_err w "Error: invalid parameter map: %v\n" err
        | None => k paramMap
        end
      end = Some (w', 1) /\ calls w' = calls w /\ fs w' = fs w).
  { intros k. destruct Hrej as [[err ->] | (paramMap & err & -> & ->)];
      unfold exit1_err; by eexists. }
  unfold main_azure. destruct (push f) eqn:Hpush.
  - rewrite (Hkey eq_refl). change (empty "") with true. cbn [negb]. apply Hload.
  - destruct (sync f); apply Hload.
Qed.

Lemma main_aws_rejected env f client w :
  (push f = true -> key f = "") ->
  azure f = false ->
  mapping_rejected env f (fs w) ->
  exists w', main_aws env f client w = Some (w', 1)
             /\ calls w' = calls w /\ fs w' = fs w.
Proof.
  intros Hkey Haz Hrej. unfold mapping_rejected in Hrej. rewrite Haz in Hrej.
  destruct Hrej as [err Hrej].
  unfold main_aws. destruct (push f) eqn:Hpush.
  - rewrite (Hkey eq_refl). change (empty "") with true. cbn [negb]. rewrite Hrej.
    unfold exit1_err. by eexists.
  - destruct (sync f); rewrite Hrej; unfold exit1_err; by eexists.
Qed.

(** C6 (as amended): a run that reads a mapping file (a pull, a sync, or a
    push that is not the push of a single key) and whose mapping file does not load or
    does not pass validation ends without a single call to the remote
    store, and without touching the file system; unless it only shows the
    version, its exit status is 1. *)
Theorem rejected_mapping_makes_no_remote_call
    (env : Env) (f : Flags) (w : World) :
  (push f = true -> key f = "") ->
  mapping_rejected env f (fs w) ->
  exists w' status,
    main env f w = Some (w', status)
    /\ calls w' = calls w
    /\ fs w' = fs w
    /\ (showVersion f = false -> status = 1).
Proof.
  intros Hkey Hrej. unfold main.
  destruct (showVersion f); [by eexists _, _ |].
  set (w0 := print w "asciiArt" []).
  assert (Hw0 : calls w0 = calls w /\ fs w0 = fs w) by done.
  destruct Hw0 as [Hc0 Hf0].
  destruct (check_flags f w0) as [stop |] eqn:Hflags.
  { apply check_flags_calls in Hflags as (w' & -> & Hc & Hf).
    exists w', 1. rewrite Hc, Hf. done. }
  destruct (azure f) eqn:Haz.
  - destruct (createAzureClient env (vaultName f)) as [client |].
    + destruct (main_azure_rejected env f client w0 Hkey Haz) as (w' & -> & Hc & Hf);
        [by rewrite Hf0 |].
      exists w', 1. rewrite Hc, Hf. done.
    + unfold exit1_err. by eexists _, _.
  - destruct (loadAWSConfig env (profile f) (region f)) as [client |].
    + destruct (main_aws_rejected env f client w0 Hkey Haz) as (w' & -> & Hc & Hf);
        [by rewrite Hf0 |].
      exists w', 1. rewrite Hc, Hf. done.
    + unfold exit1_err. by eexists _, _.
Qed.

Lemma rejected_mapping_makes_no_remote_call_witness :
  exists w' status,
    main (Ex.env ∅) (Ex.flags "map.json" false false)
         (Ex.world "mapping with a digit first" 384 "") = Some (w', status)
    /\ calls w' = [].
Proof.
  destruct (rejected_mapping_makes_no_remote_call (Ex.env ∅)
              (Ex.flags "map.json" false false)
              (Ex.world "mapping with a digit first" 384 ""))
    as (w' & status & Hmain & Hcalls & _).
  - intros H. vm_compute in H. discriminate.
  - unfold mapping_rejected. cbn [azure Ex.flags]. eexists. vm_compute. reflexivity.
  - exists w', status. split; [exact Hmain | exact Hcalls].
Defined.

(** C6 as stated fails for the push of a single key: that run never reads
    the mapping file, so a mapping file that does not parse does not keep
    it from its store call. *)
Lemma single_push_ignores_mapping_file :
  mapping_rejected (Ex.env ∅) Sample.push_flags_with_map (fs Sample.bad_mapping)
  /\ exists w',
       main (Ex.env ∅) Sample.push_flags_with_map Sample.bad_mapping = Some (w', 0)
       /\ calls w' = [CallPut "/app/api-key" "secret"].
Proof.
  split.
  - unfold mapping_rejected. cbn [azure Sample.push_flags_with_map].
    eexists. vm_compute. reflexivity.
  - eexists. split; vm_compute; reflexivity.
Qed.

(** ** The mode of the written file *)

Lemma writeEnvFile_created_owner_only fs filename envVars alwaysQuote fs' :
  os.files fs !! filename = None ->
  writeEnvFile fs filename envVars alwaysQuote = (fs', None) ->
  exists f, os.files fs' !! filename = Some f
            /\ Z.land (os.Mode f) os.group_world = 0.
Proof.
  intros Hnew Hwrite. unfold writeEnvFile in Hwrite.
  destruct (validateFilePath filename) eqn:Hpath; [done |].
  destruct (os.OpenFile_create_trunc fs filename 384) eqn:Hopen; [| done].
  unfold os.OpenFile_create_trunc in Hopen.
  case_bool_decide as Hro; [done |].
  destruct (writeEnvFile_written fs filename envVars alwaysQuote Hpath Hro)
    as (fs'' & Hwrite' & Hfile & _).
  unfold writeEnvFile in Hwrite'. rewrite Hpath in Hwrite'.
  unfold os.OpenFile_create_trunc in Hwrite'.
  rewrite bool_decide_eq_false_2 in Hwrite' by done.
  injection Hopen as <-. rewrite Hwrite' in Hwrite. injection Hwrite as <-.
  rewrite Hnew in Hfile. eexists. split; [exact Hfile |].
  cbn [os.Mode]. unfold os.group_world.
  rewrite (Z.land_comm 384), <- Z.land_assoc. change (Z.land 384 63) with 0.
  apply Z.land_0_r.
Qed.

Lemma writeEnvFile_existing_keeps_mode fs filename envVars alwaysQuote fs' f :
  os.files fs !! filename = Some f ->
  writeEnvFile fs filename envVars alwaysQuote = (fs', None) ->
  exists f', os.files fs' !! filename = Some f' /\ os.Mode f' = os.Mode f.
Proof.
  intros Hold Hwrite. unfold writeEnvFile in Hwrite.
  destruct (validateFilePath filename) eqn:Hpath; [done |].
  destruct (os.OpenFile_create_trunc fs filename 384) eqn:Hopen; [| done].
  unfold os.OpenFile_create_trunc in Hopen.
  case_bool_decide as Hro; [done |].
  destruct (writeEnvFile_written fs filename envVars alwaysQuote Hpath Hro)
    as (fs'' & Hwrite' & Hfile & _).
  unfold writeEnvFile in Hwrite'. rewrite Hpath in Hwrite'.
  unfold os.OpenFile_create_trunc in Hwrite'.
  rewrite bool_decide_eq_false_2 in Hwrite' by done.
  injection Hopen as <-. rewrite Hwrite' in Hwrite. injection Hwrite as <-.
  rewrite Hold in Hfile. eexists. split; [exact Hfile | done].
Qed.

(** C9 on a run: a forced sync of an env-file that exists with mode 0644
    rewrites it with the remote value and leaves it readable by group and
    world. *)
Theorem sync_rewrite_keeps_group_and_world_access :
  exists w',
    main (Ex.env {[ "/app/a" := "2" ]}) (Ex.flags "map.json" true true)
         (Ex.world "mapping A" 420 "A=1
") = Some (w', 0)
    /\ os.files (fs w') !! ".env" = Some (os.mkFile 420 "A=2
")
    /\ Z.land 420 os.group_world = 36.
Proof. eexists. vm_compute. repeat split. Qed.

(** The same run on a missing env-file cannot start (the sync reads it
    first); a pull creates it, with no access for group and world. *)
Example pull_creates_owner_only :
  exists w',
    main (Ex.env {[ "/app/a" := "2" ]}) (Ex.flags "map.json" false false)
         (mkWorld (os.mkFS {[ "map.json" := os.mkFile 420 "mapping A" ]} 18 ∅) [] [] [])
    = Some (w', 0)
    /\ os.files (fs w') !! ".env" = Some (os.mkFile 384 "A=2
").
Proof. eexists. vm_compute. repeat split. Qed.

(** ** The mapping validators *)

Lemma validateParameterMap_range_ok entries :
  validateParameterMap_range entries = None <->
  Forall (λ e, validateEnvVarName e.1 = None /\ validateSSMPath e.2 = None) entries.
Proof.
  induction entries as [| [k p] entries IH]; [by split; [constructor |] |].
  cbn [validateParameterMap_range]. rewrite Forall_cons. cbn [fst snd].
  destruct (validateEnvVarName k); [split; [done | by intros [[? _] _]] |].
  destruct (validateSSMPath p); [split; [done | by intros [[_ ?] _]] |].
  rewrite IH. tauto.
Qed.

Lemma validateAzureParameterMap_range_ok entries :
  validateAzureParameterMap_range entries = None <->
  Forall (λ e, validateEnvVarName e.1 = None /\ validateAzureSecretName e.2 = None)
         entries.
Proof.
  induction entries as [| [k p] entries IH]; [by split; [constructor |] |].
  cbn [validateAzureParameterMap_range]. rewrite Forall_cons. cbn [fst snd].
  destruct (validateEnvVarName k); [split; [done | by intros [[? _] _]] |].
  destruct (validateAzureSecretName p); [split; [done | by intros [[_ ?] _]] |].
  rewrite IH. tauto.
Qed.

Lemma size_zero_empty (paramMap : ParameterMap) :
  (size paramMap =? 0)%nat = true <-> paramMap = ∅.
Proof. rewrite Nat.eqb_eq. apply map_size_empty_iff. Qed.

(** X1: [validateParameterMap] accepts exactly the mappings that are not empty
    and in which every name is a variable name and every identifier a
    path without two consecutive dots, in whatever order the entries are
    visited. *)
Theorem mapping_accepted_iff (paramMap : ParameterMap) :
  validateParameterMap paramMap = None <->
  paramMap <> ∅
  /\ forall name path, paramMap !! name = Some path ->
       Rule.local_name name = true
       /\ Rule.path_style path = true /\ strings.Contains path ".." = false.
Proof.
  unfold validateParameterMap.
  destruct (size paramMap =? 0)%nat eqn:Hsize.
  - apply size_zero_empty in Hsize. split; [done | by intros [? _]].
  - assert (Hne : paramMap <> ∅).
    { intros H%size_zero_empty. congruence. }
    rewrite validateParameterMap_range_ok, Forall_forall. split.
    + intros H. split; [done |]. intros name path Hin.
      apply elem_of_map_to_list in Hin. destruct (H _ Hin) as [Hn Hp].
      by apply validateEnvVarName_rule in Hn; apply validateSSMPath_rule in Hp.
    + intros [_ H] [name path] Hin%elem_of_map_to_list.
      destruct (H _ _ Hin) as (Hn & Hp & Hdots). cbn [fst snd].
      split; [by apply validateEnvVarName_rule | by apply validateSSMPath_rule].
Qed.

(** X2: [validateAzureParameterMap] accepts exactly the mappings that are not
    empty and in which every name is a variable name and every identifier
    has 1 to 127 characters, letters, digits or hyphens. *)
Theorem azure_mapping_accepted_iff (paramMap : ParameterMap) :
  validateAzureParameterMap paramMap = None <->
  paramMap <> ∅
  /\ forall name secret, paramMap !! name = Some secret ->
       Rule.local_name name = true /\ Rule.name_style secret = true.
Proof.
  unfold validateAzureParameterMap.
  destruct (size paramMap =? 0)%nat eqn:Hsize.
  - apply size_zero_empty in Hsize. split; [done | by intros [? _]].
  - assert (Hne : paramMap <> ∅).
    { intros H%size_zero_empty. congruence. }
    rewrite validateAzureParameterMap_range_ok, Forall_forall. split.
    + intros H. split; [done |]. intros name secret Hin.
      apply elem_of_map_to_list in Hin. destruct (H _ Hin) as [Hn Hp].
      by apply validateEnvVarName_rule in Hn; apply validateAzureSecretName_rule in Hp.
    + intros [_ H] [name secret] Hin%elem_of_map_to_list.
      destruct (H _ _ Hin) as (Hn & Hp). cbn [fst snd].
      split; [by apply validateEnvVarName_rule | by apply validateAzureSecretName_rule].
Qed.

(** ** The guard on file paths *)

Lemma first_lo b sz lo hi : utf8.first b = Some (sz, lo, hi) -> 128 <= lo.
Proof.
  unfold utf8.first, utf8.locb.
  repeat match goal with
  | |- context [if ?c then _ else _] => destruct c
  end; intros [= <- <- <-]; lia.
Qed.

(** The bytes of a rune after its first are not ASCII. *)
Lemma decode_high_prefix c t r w :
  utf8.DecodeRuneInString (String c t) = (r, w) -> high_prefix (w - 1) t = true.
Proof.
  cbn [utf8.DecodeRuneInString].
  destruct (byte c <? utf8.RuneSelf); [by intros [= _ <-] |].
  destruct (utf8.first (byte c)) as [[[sz lo] hi] |] eqn:Hf; [| by intros [= _ <-]].
  apply first_lo in Hf.
  destruct t as [| c1 t1]; [by intros [= _ <-] |].
  destruct ((byte c1 <? lo) || (hi <? byte c1)) eqn:H1; [by intros [= _ <-] |].
  apply orb_false_iff in H1 as [H1 _]. apply Z.ltb_ge in H1.
  assert (Hc1 : (128 <=? byte c1) = true) by (apply Z.leb_le; lia).
  destruct (sz <=? 2)%nat.
  { intros [= _ <-]. cbn. by rewrite Hc1. }
  destruct t1 as [| c2 t2]; [by intros [= _ <-] |].
  destruct (utf8.is_cont (byte c2)) eqn:H2; cbn [negb]; [| by intros [= _ <-]].
  assert (Hc2 : (128 <=? byte c2) = true).
  { unfold utf8.is_cont, utf8.locb in H2. by apply andb_true_iff in H2 as [-> _]. }
  destruct (sz <=? 3)%nat.
  { intros [= _ <-]. cbn. by rewrite Hc1, Hc2. }
  destruct t2 as [| c3 t3]; [by intros [= _ <-] |].
  destruct (utf8.is_cont (byte c3)) eqn:H3; cbn [negb]; [| by intros [= _ <-]].
  assert (Hc3 : (128 <=? byte c3) = true).
  { unfold utf8.is_cont, utf8.locb in H3. by apply andb_true_iff in H3 as [-> _]. }
  intros [= _ <-]. cbn. by rewrite Hc1, Hc2, Hc3.
Qed.

Lemma solid_not_high c d : solid c = true -> 128 <= byte d -> d <> c.
Proof.
  intros [Hlo _]%andb_true_iff Hd ->. apply Z.ltb_lt in Hlo. lia.
Qed.

(** Trimming on the left removes a prefix in which no ASCII byte other
    than white space occurs. *)
Lemma trimLeft_go_split c s k :
  solid c = true -> high_prefix k s = true ->
  exists a, s = a +:+ strings.trimLeft_go k s /\ occurs c a = false.
Proof.
  intros Hc. revert k. induction s as [| d s IH]; intros k Hk.
  - destruct k; [| done]. by exists "".
  - destruct k as [| k].
    + cbn [strings.trimLeft_go].
      destruct (utf8.DecodeRuneInString (String d s)) as [r w] eqn:Hd.
      destruct (strings.IsSpace r) eqn:Hsp; [| by exists ""].
      destruct (IH (w - 1)%nat) as (a & Hs & Ha).
      { eapply decode_high_prefix, Hd. }
      exists (String d a). rewrite app_cons_s, <- Hs. split; [done |].
      cbn [occurs]. rewrite Ha, orb_false_r. apply bool_decide_eq_false_2.
      destruct (Z.lt_ge_cases (byte d) 128) as [Hlo | Hhi].
      * rewrite decode_ascii in Hd by done. injection Hd as <- _.
        intros ->. apply andb_true_iff in Hc as [_ Hc].
        by rewrite Hsp in Hc.
      * by apply solid_not_high.
    + cbn [strings.trimLeft_go]. cbn [high_prefix] in Hk.
      apply andb_true_iff in Hk as [Hd Hk]. apply Z.leb_le in Hd.
      destruct (IH k Hk) as (a & Hs & Ha).
      exists (String d a). rewrite app_cons_s, <- Hs. split; [done |].
      cbn [occurs]. rewrite Ha, orb_false_r. apply bool_decide_eq_false_2.
      by apply solid_not_high.
Qed.

Lemma trimRight_go_split c rs k :
  solid c = true -> high_prefix k rs = true ->
  exists a, rs = a +:+ strings.trimRight_go k rs /\ occurs c a = false.
Proof.
  intros Hc. revert k. induction rs as [| d s IH]; intros k Hk.
  - destruct k; [| done]. by exists "".
  - destruct k as [| k].
    + cbn [strings.trimRight_go].
      destruct (utf8.DecodeLastRune_rev (String d s)) as [r w] eqn:Hd.
      destruct (strings.IsSpace r) eqn:Hsp; [| by exists ""].
      destruct (IH (w - 1)%nat) as (a & Hs & Ha).
      { eapply DecodeLastRune_rev_high, Hd. }
      exists (String d a). rewrite app_cons_s, <- Hs. split; [done |].
      cbn [occurs]. rewrite Ha, orb_false_r. apply bool_decide_eq_false_2.
      destruct (Z.lt_ge_cases (byte d) 128) as [Hlo | Hhi].
      * rewrite DecodeLastRune_rev_ascii in Hd by done. injection Hd as <- _.
        intros ->. apply andb_true_iff in Hc as [_ Hc].
        by rewrite Hsp in Hc.
      * by apply solid_not_high.
    + cbn [strings.trimRight_go]. cbn [high_prefix] in Hk.
      apply andb_true_iff in Hk as [Hd Hk]. apply Z.leb_le in Hd.
      destruct (IH k Hk) as (a & Hs & Ha).
      exists (String d a). rewrite app_cons_s, <- Hs. split; [done |].
      cbn [occurs]. rewrite Ha, orb_false_r. apply bool_decide_eq_false_2.
      by apply solid_not_high.
Qed.

Lemma occurs_rev c s : occurs c (String.rev s) = occurs c s.
Proof.
  induction s as [| d s IH]; [done |].
  rewrite rev_cons_s, occurs_app, IH. cbn [occurs str1].
  by rewrite orb_false_r, orb_comm.
Qed.

(** [strings.TrimSpace] removes a prefix and a suffix in which the byte
    [c], ASCII and not white space, does not occur. *)
Lemma TrimSpace_split c s :
  solid c = true ->
  exists a b, s = a +:+ strings.TrimSpace s +:+ b
              /\ occurs c a = false /\ occurs c b = false.
Proof.
  intros Hc. unfold strings.TrimSpace, strings.TrimLeftSpace, strings.TrimRightSpace.
  destruct (trimLeft_go_split c s 0 Hc eq_refl) as (a & Hs & Ha).
  set (l := strings.trimLeft_go 0 s) in *.
  destruct (trimRight_go_split c (String.rev l) 0 Hc eq_refl) as (b & Hl & Hb).
  exists a, (String.rev b). split; [| split; [done | by rewrite occurs_rev]].
  rewrite Hs at 1. f_equal.
  rewrite <- (rev_involutive_s l) at 1. rewrite Hl at 1. apply rev_app_s.
Qed.

Lemma HasPrefix_nil s : strings.HasPrefix s "" = true.
Proof. by destruct s. Qed.

Lemma HasPrefix_two_app c m b :
  occurs c b = false ->
  strings.HasPrefix (m +:+ b) (str2 c c) = strings.HasPrefix m (str2 c c).
Proof.
  intros Hb. destruct m as [| d [| e m]].
  - rewrite app_nil_l_s. destruct b as [| d b]; [done |].
    cbn [occurs] in Hb. apply orb_false_iff in Hb as [Hd _].
    cbn [strings.HasPrefix str2]. by rewrite Hd.
  - rewrite app_cons_s, app_nil_l_s. cbn [strings.HasPrefix str2].
    destruct b as [| e b]; [done |].
    cbn [occurs] in Hb. apply orb_false_iff in Hb as [He _].
    cbn [strings.HasPrefix]. rewrite He. by destruct (bool_decide (d = c)).
  - rewrite !app_cons_s. cbn [strings.HasPrefix str2]. by rewrite !HasPrefix_nil.
Qed.

Lemma Contains_two_free c b :
  occurs c b = false -> strings.Contains b (str2 c c) = false.
Proof.
  induction b as [| d b IH]; [done |]. cbn [occurs strings.Contains].
  intros [Hd Hb]%orb_false_iff. rewrite (IH Hb), orb_false_r.
  cbn [strings.HasPrefix str2]. by rewrite Hd.
Qed.

Lemma Contains_two_trimmed c a m b :
  occurs c a = false -> occurs c b = false ->
  strings.Contains (a +:+ m +:+ b) (str2 c c) = strings.Contains m (str2 c c).
Proof.
  intros Ha Hb. induction a as [| d a IH].
  - rewrite app_nil_l_s. clear Ha. induction m as [| d m IH].
    + rewrite app_nil_l_s. by rewrite Contains_two_free.
    + rewrite app_cons_s. cbn [strings.Contains].
      rewrite <- app_cons_s, HasPrefix_two_app by done. by rewrite IH.
  - cbn [occurs] in Ha. apply orb_false_iff in Ha as [Hd Ha].
    rewrite app_cons_s. cbn [strings.Contains]. rewrite (IH Ha).
    cbn [strings.HasPrefix str2]. by rewrite Hd.
Qed.

Lemma Contains_one c s : strings.Contains s (str1 c) = occurs c s.
Proof.
  induction s as [| d s IH]; [done |]. cbn [strings.Contains occurs].
  rewrite IH. cbn [strings.HasPrefix str1]. by rewrite HasPrefix_nil, andb_true_r.
Qed.

(** X3: The trimming inside [validateFilePath] changes nothing to its verdict:
    a path is accepted exactly when it is not empty and nowhere holds two
    consecutive dots or a null byte (a path made of white space only is
    accepted).  So neither [readEnvFile] nor [writeEnvFile] nor the loading
    of a mapping opens a path with two consecutive dots or a null byte:
    each fails, and the file system is as it was. *)
Theorem file_path_guard
    (env : Env) (fs : os.FS) (path : string) (envVars : gmap string string)
    (alwaysQuote : bool) :
  (validateFilePath path = None <->
     path <> "" /\ strings.Contains path ".." = false /\ occurs zero path = false)
  /\ (strings.Contains path ".." = true \/ occurs zero path = true ->
      (exists err, readEnvFile fs path = Err (Wrapf "invalid file path: %w" [] err))
      /\ (exists err, writeEnvFile fs path envVars alwaysQuote
                      = (fs, Some (Wrapf "invalid file path: %w" [] err)))
      /\ (exists err, loadParameterMapRaw env fs path
                      = Err (Wrapf "invalid file path: %w" [] err))).
Proof.
  assert (Hrule : validateFilePath path = None <->
    path <> "" /\ strings.Contains path ".." = false /\ occurs zero path = false).
  { unfold validateFilePath.
    case_bool_decide as Hne; [split; [done | by intros [? _]] |].
    destruct (TrimSpace_split "."%char path eq_refl) as (a & b & Hsplit & Ha & Hb).
    destruct (TrimSpace_split zero path eq_refl) as (a0 & b0 & Hsplit0 & Ha0 & Hb0).
    assert (Hdots : strings.Contains (strings.TrimSpace path) ".."
                    = strings.Contains path "..").
    { rewrite Hsplit at 2. symmetry. by apply (Contains_two_trimmed "."%char). }
    assert (Hnull : strings.Contains (strings.TrimSpace path) (str1 zero)
                    = occurs zero path).
    { rewrite Contains_one. rewrite Hsplit0 at 2.
      by rewrite !occurs_app, Ha0, Hb0, orb_false_r. }
    rewrite Hdots, Hnull.
    destruct (strings.Contains path ".."); [split; [done | by intros (_ & ? & _)] |].
    destruct (occurs zero path); [split; [done | by intros (_ & _ & ?)] |].
    done. }
  split; [exact Hrule |]. intros Hbad.
  destruct (validateFilePath path) as [err |] eqn:Hv.
  - unfold readEnvFile, writeEnvFile, loadParameterMapRaw. rewrite Hv.
    repeat split; by exists err.
  - destruct Hrule as [Hrule _]. destruct (Hrule eq_refl) as (_ & Hdots & Hnull).
    destruct Hbad; congruence.
Qed.

Example white_space_path_accepted : validateFilePath " " = None.
Proof. vm_compute. reflexivity. Qed.

(** ** Values written without quotes *)

Lemma ContainsAny_occurs s chars c :
  strings.ContainsAny s chars = false -> c ∈ chars -> occurs c s = false.
Proof.
  intros Hs Hc. induction s as [| d s IH]; [done |].
  cbn [strings.ContainsAny occurs] in *.
  apply orb_false_iff in Hs as [Hd Hs]. rewrite (IH Hs), orb_false_r.
  apply bool_decide_eq_false_2. intros ->.
  by apply bool_decide_eq_false_1 in Hd.
Qed.

Lemma needsQuoting_occurs v c :
  needsQuoting v = false ->
  c ∈ [Ch.space; Ch.tab; Ch.lf; Ch.cr; Ch.dquote; Ch.squote; Ch.backslash] ->
  occurs c v = false.
Proof. apply ContainsAny_occurs. Qed.

Lemma readEnvFile_value_bare v :
  occurs Ch.dquote v = false -> occurs Ch.squote v = false ->
  readEnvFile_value v = v.
Proof.
  destruct v as [| c [| d t]]; [done | done |].
  intros Hd Hs. cbn [occurs] in Hd, Hs.
  apply orb_false_iff in Hd as [Hd _]. apply orb_false_iff in Hs as [Hs _].
  unfold readEnvFile_value. by rewrite Hd, Hs.
Qed.

Lemma TrimSpace_bare_safe v : bare_safe v = true -> strings.TrimSpace v = v.
Proof.
  destruct v as [| c t]; [done |]. unfold bare_safe.
  intros [Hc Hlast]%andb_true_iff.
  destruct (last_byte (String c t)) as [d |] eqn:Hd; [| done].
  by eapply TrimSpace_solid.
Qed.

(** The line written for a valid name and a value that needs no quotes is
    read back as that name and that value. *)
Lemma readEnvFile_lines_written_bare i key v rest envVars :
  Rule.local_name key = true ->
  needsQuoting v = false -> bare_safe v = true ->
  readEnvFile_lines i ((key +:+ "=" +:+ v) :: rest) envVars
  = readEnvFile_lines (S i) rest (<[key := v]> envVars).
Proof.
  intros Hkey Hq Hsafe.
  destruct (local_name_shape key Hkey) as (c & t & Hshape & Hc & Hhash & Heq & _ & Htrim).
  cbn [readEnvFile_lines].
  assert (Hline : strings.TrimSpace (key +:+ "=" +:+ v) = key +:+ "=" +:+ v).
  { rewrite Hshape, app_cons_s.
    destruct v as [| e v'].
    - eapply (TrimSpace_solid _ _ Ch.eq); [done | | done].
      rewrite app_nil_r_s, <- app_cons_s. apply last_byte_snoc.
    - unfold bare_safe in Hsafe. apply andb_true_iff in Hsafe as [_ Hsafe].
      destruct (last_byte (String e v')) as [d |] eqn:Hd; [| done].
      eapply (TrimSpace_solid _ _ d); [done | | done].
      rewrite (last_byte_split _ _ Hd), <- app_cons_s, <- !app_assoc_s.
      apply last_byte_snoc. }
  rewrite Hline.
  assert (Hnot : bool_decide (key +:+ "=" +:+ v = "")
                 || strings.HasPrefix (key +:+ "=" +:+ v) "#" = false).
  { rewrite Hshape, app_cons_s. cbn [strings.HasPrefix].
    rewrite bool_decide_eq_false_2 by done.
    by rewrite bool_decide_eq_false_2. }
  rewrite Hnot.
  change ("=" +:+ v) with (String Ch.eq v).
  rewrite SplitN2_first_eq by done.
  rewrite Htrim, TrimSpace_bare_safe by done.
  rewrite readEnvFile_value_bare; [done | |];
    apply needsQuoting_occurs; try done; set_solver.
Qed.

Lemma readEnvFile_lines_written_value q i key v rest envVars :
  Rule.local_name key = true ->
  (q || needsQuoting v = false -> bare_safe v = true) ->
  readEnvFile_lines i ((key +:+ "=" +:+ written_value q v) :: rest) envVars
  = readEnvFile_lines (S i) rest (<[key := read_value q v]> envVars).
Proof.
  intros Hkey Hsafe. unfold written_value, read_value.
  destruct (q || needsQuoting v) eqn:Hq.
  - by apply readEnvFile_lines_written.
  - apply readEnvFile_lines_written_bare; auto.
    by apply orb_false_iff in Hq as [_ ?].
Qed.

Lemma written_value_no_lf q v : occurs Ch.lf (written_value q v) = false.
Proof.
  unfold written_value. destruct (q || needsQuoting v) eqn:Hq.
  - unfold quoted.
    change (String Ch.dquote (escapeValue v +:+ str1 Ch.dquote))
      with (str1 Ch.dquote +:+ escapeValue v +:+ str1 Ch.dquote).
    by rewrite !occurs_app, escapeValue_expand, expand_escapes_no_lf.
  - apply orb_false_iff in Hq as [_ Hq].
    apply needsQuoting_occurs; [done | set_solver].
Qed.

Lemma writeEnvFile_line_value s q k :
  writeEnvFile_line s q k
  = (k +:+ "=" +:+ written_value q (default "" (s !! k))) +:+ str1 Ch.lf.
Proof.
  unfold writeEnvFile_line, written_value. rewrite quoted_spec, !app_assoc_s.
  by destruct q.
Qed.

(** What is read back from a written file, in either mode, when the names
    are valid and the values written bare are safe. *)
Lemma written_read_back fs filename (s : gmap string string) q :
  validateFilePath filename = None ->
  filename ∉ os.readonly fs ->
  (forall k v, s !! k = Some v ->
     validateEnvVarName k = None
     /\ (q || needsQuoting v = false -> bare_safe v = true)) ->
  exists fs',
    writeEnvFile fs filename s q = (fs', None)
    /\ readEnvFile fs' filename = Ok (read_value q <$> s).
Proof.
  intros Hpath Hrw Hs.
  destruct (writeEnvFile_written fs filename s q Hpath Hrw)
    as (fs' & Hwrite & Hfile & _).
  exists fs'. split; [done |].
  unfold readEnvFile, os.ReadFile. rewrite Hpath, Hfile.
  cbn [fmap option_fmap option_map os.Data].
  set (keys := sort_Strings (map_to_list s).*1).
  assert (Hkeys : Forall (λ k, is_Some (s !! k)) keys).
  { apply Forall_forall. intros k Hk. by apply sort_Strings_keys in Hk. }
  assert (Hlines : writeEnvFile_line s q <$> keys
    = (λ body, body +:+ str1 Ch.lf)
        <$> ((λ k, k +:+ "=" +:+ written_value q (default "" (s !! k))) <$> keys)).
  { rewrite <- list_fmap_compose. apply list_fmap_ext. intros _ k _.
    apply writeEnvFile_line_value. }
  rewrite Hlines, Split_joined_lines.
  - assert (Hparse : forall i m,
      readEnvFile_lines i
        (((λ k, k +:+ "=" +:+ written_value q (default "" (s !! k))) <$> keys) ++ [""]) m
      = Ok (fold_left (λ m k, <[k := read_value q (default "" (s !! k))]> m) keys m)).
    { clear Hlines. induction Hkeys as [| k keys [v Hv] _ IH]; intros i m; [done |].
      cbn [fmap list_fmap app fold_left].
      destruct (Hs k v Hv) as (Hname & Hsafe).
      apply validateEnvVarName_rule in Hname. rewrite Hv. cbn [default from_option id].
      rewrite readEnvFile_lines_written_value by done.
      apply IH. }
    rewrite Hparse. f_equal. apply map_eq. intros k.
    rewrite (fold_insert_lookup (λ k, read_value q (default "" (s !! k)))).
    rewrite lookup_fmap.
    destruct (decide (k ∈ keys)) as [Hin | Hnin].
    + apply sort_Strings_keys in Hin as [v Hv]. by rewrite Hv.
    + rewrite lookup_empty. symmetry.
      assert (s !! k = None) as ->; [| done].
      apply eq_None_not_Some. intros Hsome. by apply Hnin, sort_Strings_keys.
  - apply Forall_fmap, Forall_forall. intros k Hk.
    apply sort_Strings_keys in Hk as [v Hv]. cbn.
    destruct (Hs k v Hv) as (Hname & _). apply validateEnvVarName_rule in Hname.
    destruct (local_name_shape k Hname) as (_ & _ & _ & _ & _ & _ & Hlf & _).
    by rewrite !occurs_app, Hlf, written_value_no_lf.
Qed.

Lemma read_value_plain q v : plain_backslashes v = true -> read_value q v = v.
Proof.
  intros Hplain%letters_unescaped_fixed. unfold read_value.
  by destruct (q || needsQuoting v).
Qed.

(** X4: Written without [--quotes], a snapshot is read back exactly when its
    names are valid, no backslash of a value is directly followed by [n],
    [r] or [t], and every value that is written bare is empty or begins
    and ends with an ASCII byte that is not white space. *)
Theorem env_file_round_trip_unquoted
    (fs : os.FS) (filename : string) (s : gmap string string) :
  validateFilePath filename = None ->
  filename ∉ os.readonly fs ->
  (forall k v, s !! k = Some v ->
     validateEnvVarName k = None /\ plain_backslashes v = true
     /\ (needsQuoting v = false -> bare_safe v = true)) ->
  exists fs',
    writeEnvFile fs filename s false = (fs', None)
    /\ readEnvFile fs' filename = Ok s.
Proof.
  intros Hpath Hrw Hs.
  destruct (written_read_back fs filename s false Hpath Hrw) as (fs' & Hwrite & Hread).
  { intros k v Hv. destruct (Hs k v Hv) as (Hname & _ & Hsafe). by split. }
  exists fs'. split; [done |]. rewrite Hread. f_equal.
  apply map_eq. intros k. rewrite lookup_fmap.
  destruct (s !! k) as [v |] eqn:Hv; [| done].
  cbn. f_equal. apply read_value_plain. by destruct (Hs k v Hv) as (_ & ? & _).
Qed.

Lemma env_file_round_trip_unquoted_witness :
  exists fs',
    writeEnvFile Ex.fs0 ".env" {[ "URL" := "http://host/p?a=b" ]} false = (fs', None)
    /\ readEnvFile fs' ".env" = Ok {[ "URL" := "http://host/p?a=b" ]}.
Proof.
  apply (env_file_round_trip_unquoted Ex.fs0 ".env" {[ "URL" := "http://host/p?a=b" ]}).
  - vm_compute. reflexivity.
  - apply not_elem_of_empty.
  - intros k v [<- <-]%lookup_singleton_Some.
    split; [vm_compute; reflexivity |]. split; vm_compute; reflexivity.
Defined.

(** A value made of a form feed needs no quotes for [needsQuoting], is
    written bare, and is trimmed away by the reader. *)
Example bare_form_feed_lost :
  needsQuoting (str1 form_feed) = false
  /\ readEnvFile (writeEnvFile Ex.fs0 ".env" {[ "A" := str1 form_feed ]} false).1 ".env"
     = Ok {[ "A" := "" ]}.
Proof. split; vm_compute; reflexivity. Qed.

(** ** The written file *)

Lemma writeEnvFile_success fs filename envVars alwaysQuote fs' :
  writeEnvFile fs filename envVars alwaysQuote = (fs', None) ->
  validateFilePath filename = None /\ filename ∉ os.readonly fs.
Proof.
  unfold writeEnvFile, os.OpenFile_create_trunc.
  destruct (validateFilePath filename); [done |].
  by case_bool_decide.
Qed.

Lemma sort_Strings_sorted keys : Sorted String.le (sort_Strings keys).
Proof. apply (Sorted_merge_sort String.le). Qed.

Lemma sort_Strings_order (order keys : list string) :
  order ≡ₚ keys -> sort_Strings order = sort_Strings keys.
Proof.
  intros Hperm. apply (Sorted_unique String.le); try apply sort_Strings_sorted.
  unfold sort_Strings. by rewrite !merge_sort_Permutation.
Qed.

(** X5: The lines of the written file are those of the names of the snapshot,
    each once, in ascending order, in whatever order the loop collecting
    the names has visited the map. *)
Theorem written_lines_in_name_order
    (fs : os.FS) (filename : string) (envVars : gmap string string)
    (alwaysQuote : bool) (fs' : os.FS) :
  writeEnvFile fs filename envVars alwaysQuote = (fs', None) ->
  exists keys,
    os.ReadFile fs' filename
      = Some (joined (writeEnvFile_line envVars alwaysQuote <$> keys))
    /\ StronglySorted String.le keys
    /\ NoDup keys
    /\ (forall k, k ∈ keys <-> is_Some (envVars !! k))
    /\ (forall order, order ≡ₚ (map_to_list envVars).*1 -> sort_Strings order = keys).
Proof.
  intros Hwrite. destruct (writeEnvFile_success _ _ _ _ _ Hwrite) as [Hpath Hrw].
  destruct (writeEnvFile_written fs filename envVars alwaysQuote Hpath Hrw)
    as (fs'' & Hwrite' & Hfile & _).
  rewrite Hwrite in Hwrite'. injection Hwrite' as <-.
  exists (sort_Strings (map_to_list envVars).*1).
  split; [| split; [| split; [| split]]].
  - unfold os.ReadFile. by rewrite Hfile.
  - apply (Sorted_StronglySorted String.le), sort_Strings_sorted.
  - unfold sort_Strings. rewrite merge_sort_Permutation.
    apply NoDup_fst_map_to_list.
  - apply sort_Strings_keys.
  - intros order Hperm. by apply sort_Strings_order.
Qed.

Lemma written_lines_in_name_order_witness :
  exists keys,
    os.ReadFile (writeEnvFile Ex.fs0 ".env" Ex.remote_AB false).1 ".env"
      = Some (joined (writeEnvFile_line Ex.remote_AB false <$> keys))
    /\ StronglySorted String.le keys.
Proof.
  destruct (written_lines_in_name_order Ex.fs0 ".env" Ex.remote_AB false
              (writeEnvFile Ex.fs0 ".env" Ex.remote_AB false).1)
    as (keys & Hread & Hsorted & _).
  - vm_compute. reflexivity.
  - by exists keys.
Defined.

(** X6: A successful [writeEnvFile] changes the named file and nothing else: a
    file that it creates gets mode 0600 less the umask, so no group or
    world bit; a file that exists keeps the mode it has; the other files,
    the umask and the write protections are as before. *)
Theorem written_file_mode
    (fs : os.FS) (filename : string) (envVars : gmap string string)
    (alwaysQuote : bool) (fs' : os.FS) :
  writeEnvFile fs filename envVars alwaysQuote = (fs', None) ->
  exists f',
    os.files fs' !! filename = Some f'
    /\ os.Mode f' = match os.files fs !! filename with
                    | Some f => os.Mode f
                    | None => Z.land 384 (Z.lnot (os.umask fs))
                    end
    /\ (os.files fs !! filename = None -> Z.land (os.Mode f') os.group_world = 0)
    /\ (forall other, other <> filename ->
          os.files fs' !! other = os.files fs !! other).
Proof.
  intros Hwrite. destruct (writeEnvFile_success _ _ _ _ _ Hwrite) as [Hpath Hrw].
  destruct (writeEnvFile_written fs filename envVars alwaysQuote Hpath Hrw)
    as (fs'' & Hwrite' & Hfile & Hother).
  rewrite Hwrite in Hwrite'. injection Hwrite' as <-.
  eexists. split; [exact Hfile |]. cbn [os.Mode]. split; [done |]. split; [| done].
  intros ->. unfold os.group_world.
  rewrite (Z.land_comm 384), <- Z.land_assoc. change (Z.land 384 63) with 0.
  apply Z.land_0_r.
Qed.

Lemma written_file_mode_witness :
  exists f', os.files (writeEnvFile Ex.fs0 ".env" Ex.remote_AB false).1 !! ".env"
             = Some f'
             /\ Z.land (os.Mode f') os.group_world = 0.
Proof.
  destruct (written_file_mode Ex.fs0 ".env" Ex.remote_AB false
              (writeEnvFile Ex.fs0 ".env" Ex.remote_AB false).1)
    as (f' & Hfile & _ & Hnew & _).
  - vm_compute. reflexivity.
  - exists f'. split; [exact Hfile |]. apply Hnew. vm_compute. reflexivity.
Defined.

(** ** Fetching *)

Lemma fetch_range_of_calls b client entries envVars w :
  exists issued,
    calls (fetch_range_of b client entries envVars w).1 = calls w ++ issued
    /\ issued `prefix_of` (CallGet <$> entries.*2)
    /\ (forall result, (fetch_range_of b client entries envVars w).2 = Ok result ->
          issued = CallGet <$> entries.*2)
    /\ stdin (fetch_range_of b client entries envVars w).1 = stdin w.
Proof.
  revert envVars w. induction entries as [| [envKey id] rest IH]; intros envVars w.
  - exists []. destruct b; cbn; rewrite app_nil_r; done.
  - assert (Hnext : forall envVars' w',
      calls w' = calls w ++ [CallGet id] -> stdin w' = stdin w ->
      exists issued,
        calls (fetch_range_of b client rest envVars' w').1 = calls w ++ issued
        /\ issued `prefix_of` (CallGet <$> ((envKey, id) :: rest).*2)
        /\ (forall result, (fetch_range_of b client rest envVars' w').2 = Ok result ->
              issued = CallGet <$> ((envKey, id) :: rest).*2)
        /\ stdin (fetch_range_of b client rest envVars' w').1 = stdin w).
    { intros envVars' w' Hcalls Hin.
      destruct (IH envVars' w') as (issued & Hc & Hp & Hall & Hs).
      exists (CallGet id :: issued). rewrite Hc, Hcalls, <- app_assoc.
      split; [done |]. split; [by apply prefix_cons |].
      split; [| congruence]. intros result Hr. cbn. f_equal. by eapply Hall. }
    assert (Hstop : exists issued,
      calls w ++ [CallGet id] = calls w ++ issued
      /\ issued `prefix_of` (CallGet <$> ((envKey, id) :: rest).*2)).
    { exists [CallGet id]. split; [done |]. cbn. apply prefix_cons, prefix_nil. }
    destruct b; cbn [fetch_range_of fetchParameters_range fetchParametersFromAzure_range];
      destruct (Get client (calls w) id) as [[value |] | []];
      cbn [checkAzureAuthError];
      try (apply Hnext; done);
      destruct Hstop as (issued & Hc & Hp); exists issued; cbn [fst snd record calls stdin];
      done.
Qed.

(** X7: A fetch reads the identifiers of the mapping one after the other, each
    once, and stops at the first read that fails otherwise than by a
    missing identifier; it stores nothing, and leaves the files and the
    pending answers alone. *)
Theorem fetch_reads_each_identifier
    (b : Backend) (client : Client) (paramMap : ParameterMap) (w : World) :
  let r := fetch_of b client paramMap w in
  exists issued,
    calls r.1 = calls w ++ issued
    /\ issued `prefix_of` (CallGet <$> (map_to_list paramMap).*2)
    /\ (forall envVars, r.2 = Ok envVars ->
          issued = CallGet <$> (map_to_list paramMap).*2)
    /\ fs r.1 = fs w /\ stdin r.1 = stdin w.
Proof.
  cbn zeta.
  destruct (fetch_range_of_calls b client (map_to_list paramMap) ∅ w)
    as (issued & Hc & Hp & Hall & Hs).
  exists issued. rewrite fetch_of_fs. by destruct b.
Qed.

Lemma fetched_cons client k id rest envVars :
  fetched client ((k, id) :: rest) envVars
  = fetched client rest
      match fetched_value (Get client [] id) with
      | Some value => <[k := value]> envVars
      | None => envVars
      end.
Proof. done. Qed.

Lemma fetch_range_of_steady b client entries envVars w :
  steady client ->
  Forall (λ e, fatal (Get client [] e.2) = false) entries ->
  (fetch_range_of b client entries envVars w).2 = Ok (fetched client entries envVars).
Proof.
  intros Hsteady Hok. revert envVars w.
  induction Hok as [| [envKey id] rest Hhead _ IH]; intros envVars w.
  - by destruct b.
  - cbn [snd] in Hhead. rewrite fetched_cons.
    destruct b; cbn [fetch_range_of fetchParameters_range fetchParametersFromAzure_range];
      rewrite (Hsteady (calls w) [] id);
      destruct (Get client [] id) as [[value |] | []]; try done;
      cbn [fetched_value checkAzureAuthError]; apply IH.
Qed.

Lemma fetch_range_of_fatal b client entries envVars w :
  steady client ->
  Exists (λ e, fatal (Get client [] e.2) = true) entries ->
  exists err, (fetch_range_of b client entries envVars w).2 = Err err.
Proof.
  intros Hsteady. revert envVars w.
  induction entries as [| [envKey id] rest IH]; intros envVars w Hbad.
  - by apply Exists_nil in Hbad.
  - destruct b; cbn [fetch_range_of fetchParameters_range fetchParametersFromAzure_range];
      rewrite (Hsteady (calls w) [] id);
      destruct (Get client [] id) as [[value |] | []] eqn:Hget;
      cbn [checkAzureAuthError]; try (by eexists);
      apply IH; apply Exists_cons in Hbad as [Hbad | Hbad]; try done;
      cbn [snd] in Hbad; rewrite Hget in Hbad; done.
Qed.

Lemma fetched_other client entries envVars k :
  k ∉ entries.*1 -> fetched client entries envVars !! k = envVars !! k.
Proof.
  revert envVars. induction entries as [| [k0 id0] rest IH]; intros envVars Hk; [done |].
  cbn [fmap list_fmap fst] in Hk. apply not_elem_of_cons in Hk as [Hne Hk].
  rewrite fetched_cons, IH by done.
  destruct (fetched_value (Get client [] id0)); [| done].
  by rewrite lookup_insert_ne.
Qed.

Lemma fetched_lookup client entries envVars k id :
  NoDup entries.*1 -> (k, id) ∈ entries ->
  fetched client entries envVars !! k
  = match fetched_value (Get client [] id) with
    | Some value => Some value
    | None => envVars !! k
    end.
Proof.
  revert envVars. induction entries as [| [k0 id0] rest IH]; intros envVars Hnodup Hin.
  - by apply elem_of_nil in Hin.
  - cbn [fmap list_fmap fst] in Hnodup. apply NoDup_cons in Hnodup as [Hk0 Hnodup].
    rewrite fetched_cons.
    apply elem_of_cons in Hin as [[= <- <-] | Hin].
    + rewrite fetched_other by done.
      destruct (fetched_value (Get client [] id)); [| done].
      apply lookup_insert_eq.
    + rewrite (IH _ Hnodup Hin).
      assert (Hne : k0 <> k).
      { intros ->. apply Hk0. apply list_elem_of_fmap. by exists (k, id). }
      destruct (fetched_value (Get client [] id)); [done |].
      destruct (fetched_value (Get client [] id0)); [| done].
      by rewrite lookup_insert_ne.
Qed.

Lemma fetched_map_lookup client (paramMap : ParameterMap) name :
  fetched client (map_to_list paramMap) ∅ !! name
  = paramMap !! name ≫= λ id, fetched_value (Get client [] id).
Proof.
  destruct (paramMap !! name) as [id |] eqn:Hname; cbn.
  - rewrite (fetched_lookup _ _ _ name id).
    + by destruct (fetched_value (Get client [] id)).
    + apply NoDup_fst_map_to_list.
    + by apply elem_of_map_to_list.
  - rewrite fetched_other; [done |].
    intros ([k id] & -> & Hin%elem_of_map_to_list)%list_elem_of_fmap.
    cbn in Hname. congruence.
Qed.

(** X8: With a store whose answers do not change during the run: a fetch
    succeeds exactly when no identifier of the mapping meets a failure
    other than a missing identifier, and the snapshot it returns binds a
    name of the mapping to the value stored at its identifier, and no
    other name; a name whose identifier is missing is skipped. *)
Theorem fetch_result
    (b : Backend) (client : Client) (paramMap : ParameterMap) (w : World) :
  steady client ->
  ((forall name id, paramMap !! name = Some id -> fatal (Get client [] id) = false) ->
   exists envVars,
     (fetch_of b client paramMap w).2 = Ok envVars
     /\ forall name,
          envVars !! name
          = paramMap !! name ≫= λ id, fetched_value (Get client [] id))
  /\ ((exists name id, paramMap !! name = Some id /\ fatal (Get client [] id) = true) ->
      exists err, (fetch_of b client paramMap w).2 = Err err).
Proof.
  intros Hsteady.
  assert (Hfetch : fetch_of b client paramMap w
                   = fetch_range_of b client (map_to_list paramMap) ∅ w).
  { by destruct b. }
  rewrite Hfetch. split.
  - intros Hok. eexists. split.
    + apply fetch_range_of_steady; [done |]. apply Forall_forall.
      intros [name id] Hin%elem_of_map_to_list. by eapply Hok.
    + apply fetched_map_lookup.
  - intros (name & id & Hin & Hbad). apply fetch_range_of_fatal; [done |].
    apply Exists_exists. exists (name, id). split; [| done].
    by apply elem_of_map_to_list.
Qed.

Lemma fetch_result_witness :
  exists envVars,
    (fetchParameters (Ex.holding {[ "/app/a" := "1" ]}) Ex.mapping Ex.world0).2
      = Ok envVars
    /\ envVars !! "A" = Some "1" /\ envVars !! "B" = None.
Proof.
  destruct (fetch_result AWS (Ex.holding {[ "/app/a" := "1" ]}) Ex.mapping Ex.world0)
    as [Hok _].
  - intros history history' id. reflexivity.
  - destruct Hok as (envVars & Hfetch & Hlookup).
    + intros name id _. cbn.
      by destruct (({[ "/app/a" := "1" ]} : gmap string string) !! id).
    + exists envVars. split; [exact Hfetch |].
      split; rewrite Hlookup; vm_compute; reflexivity.
Defined.

(** ** The prompt *)

Lemma promptForUpdates_range_sublist n i differences toUpdate out inputs
    selected out' unread :
  promptForUpdates_range n i differences toUpdate out inputs
    = Some (selected, out', unread) ->
  exists accepted,
    selected = toUpdate ++ accepted /\ accepted `sublist_of` differences
    /\ unread `suffix_of` inputs /\ out `prefix_of` out'.
Proof.
  revert i toUpdate out inputs.
  induction differences as [| diff rest IH]; intros i toUpdate out inputs.
  - intros [= <- <- <-]. exists []. by rewrite app_nil_r.
  - revert out.
    induction inputs as [| response inputs IHin]; intros out; [done |].
    rewrite promptForUpdates_range_step.
    destruct (read_answer response).
    + intros (accepted & -> & Hsub & Hsuf & Hpre)%IH.
      exists (diff :: accepted). rewrite <- app_assoc. split; [done |].
      split; [by apply sublist_skip |]. split; [by apply suffix_cons_r |].
      by eapply prefix_app_l.
    + intros (accepted & -> & Hsub & Hsuf & Hpre)%IH.
      exists accepted. split; [done |].
      split; [by apply sublist_cons |]. split; [by apply suffix_cons_r |].
      by eapply prefix_app_l.
    + intros [= <- <- <-]. exists (diff :: rest). split; [done |].
      split; [done |]. split; [by apply suffix_cons_r |].
      by apply prefix_app_r.
    + intros [= <- <- <-]. exists []. rewrite app_nil_r. split; [done |].
      split; [apply sublist_nil_l |]. split; [by apply suffix_cons_r |].
      by apply prefix_app_r.
    + intros (accepted & -> & Hsub & Hsuf & Hpre)%IHin.
      exists accepted. split; [done |]. split; [done |].
      split; [by apply suffix_cons_r |]. by eapply prefix_app_l.
Qed.

(** X9: What [promptForUpdates] selects is a subsequence of the differences it
    was given, in their order; it reads answers from the front of the
    input, only adds to the output, and touches neither the files nor the
    store. *)
Theorem prompt_selects_subsequence
    (differences : list Difference) (w w' : World) (toUpdate : list Difference) :
  promptForUpdates differences w = Some (w', toUpdate) ->
  toUpdate `sublist_of` differences
  /\ stdin w' `suffix_of` stdin w
  /\ stdout w `prefix_of` stdout w'
  /\ fs w' = fs w /\ calls w' = calls w.
Proof.
  unfold promptForUpdates.
  destruct (promptForUpdates_range _ _ _ _ _ _) as [[[selected out] unread] |] eqn:Hrun;
    [| done].
  intros [= <- <-].
  apply promptForUpdates_range_sublist in Hrun as (accepted & -> & Hsub & Hsuf & Hpre).
  done.
Qed.

Lemma prompt_selects_subsequence_witness :
  [mkDifference "A" "1" "2" "/app/a" true]
    `sublist_of` [mkDifference "A" "1" "2" "/app/a" true;
                  mkDifference "B" "" "9" "/app/b" true].
Proof.
  apply (prompt_selects_subsequence
           [mkDifference "A" "1" "2" "/app/a" true;
            mkDifference "B" "" "9" "/app/b" true]
           (mkWorld Ex.fs0 [] ["maybe"; "y"; "c"] [])
           (mkWorld Ex.fs0 [] []
              [prompt_line 2 0 (mkDifference "A" "1" "2" "/app/a" true);
               invalid_line;
               prompt_line 2 0 (mkDifference "A" "1" "2" "/app/a" true);
               prompt_line 2 1 (mkDifference "B" "" "9" "/app/b" true)])).
  vm_compute. reflexivity.
Defined.

Lemma promptForUpdates_range_returns n i differences toUpdate out inputs :
  (length differences <= length (List.filter decisive inputs))%nat ->
  is_Some (promptForUpdates_range n i differences toUpdate out inputs).
Proof.
  revert i toUpdate out inputs.
  induction differences as [| diff rest IH]; intros i toUpdate out inputs; [by eexists |].
  revert out.
  induction inputs as [| response inputs IHin]; intros out Hlen.
  - cbn in Hlen. lia.
  - rewrite promptForUpdates_range_step.
    cbn [List.filter length] in Hlen. unfold decisive in Hlen at 1.
    destruct (read_answer response); cbn [length] in Hlen;
      try (by eexists); try (apply IH; lia).
    by apply IHin.
Qed.

(** X10: The prompt returns as soon as the input holds one answer among yes,
    no, all and cancel for every difference; the answers it does not
    understand are asked again and do not count. *)
Theorem prompt_returns_with_enough_answers
    (differences : list Difference) (w : World) :
  (length differences <= length (List.filter decisive (stdin w)))%nat ->
  is_Some (promptForUpdates differences w).
Proof.
  intros Hlen. unfold promptForUpdates.
  destruct (promptForUpdates_range_returns (length differences) 0 differences []
              (stdout w) (stdin w) Hlen) as [[[selected out] unread] ->].
  by eexists.
Qed.

Lemma prompt_returns_with_enough_answers_witness :
  is_Some (promptForUpdates
             [mkDifference "A" "1" "2" "/app/a" true;
              mkDifference "B" "" "9" "/app/b" true]
             (mkWorld Ex.fs0 [] ["maybe"; "y"; "what"; "n"] [])).
Proof.
  apply prompt_returns_with_enough_answers. vm_compute. lia.
Defined.

(** ** Applying the differences *)

Lemma apply_updates_snoc localEnvVars toUpdate d :
  apply_updates localEnvVars (toUpdate ++ [d])
  = <[Key d := SSMVal d]> (apply_updates localEnvVars toUpdate).
Proof. unfold apply_updates. by rewrite fold_left_app. Qed.

Lemma apply_updates_other localEnvVars toUpdate name :
  (forall d, d ∈ toUpdate -> Key d <> name) ->
  apply_updates localEnvVars toUpdate !! name = localEnvVars !! name.
Proof.
  induction toUpdate as [| d toUpdate IH] using rev_ind; intros Hno; [done |].
  rewrite apply_updates_snoc, lookup_insert_ne.
  - apply IH. intros d' Hd'. apply Hno, elem_of_app. by left.
  - apply Hno, elem_of_app. right. by apply list_elem_of_singleton.
Qed.

Lemma apply_updates_selected localEnvVars toUpdate name rv :
  (exists d, d ∈ toUpdate /\ Key d = name) ->
  (forall d, d ∈ toUpdate -> Key d = name -> SSMVal d = rv) ->
  apply_updates localEnvVars toUpdate !! name = Some rv.
Proof.
  induction toUpdate as [| d toUpdate IH] using rev_ind; intros (d0 & Hin & Hkey) Hval.
  - by apply elem_of_nil in Hin.
  - rewrite apply_updates_snoc.
    destruct (decide (Key d = name)) as [Hd | Hd].
    + rewrite <- Hd, lookup_insert_eq. f_equal. apply Hval; [| done].
      apply elem_of_app. right. by apply list_elem_of_singleton.
    + rewrite lookup_insert_ne by done. apply IH.
      * exists d0. split; [| done].
        apply elem_of_app in Hin as [Hin | Hin%list_elem_of_singleton]; [done |].
        by subst d0.
      * intros d' Hd'. apply Hval, elem_of_app. by left.
Qed.

Lemma differs_key localEnvVars ssmEnvVars name id d :
  differs localEnvVars ssmEnvVars name id d ->
  Key d = name /\ ssmEnvVars !! name = Some (SSMVal d)
  /\ localEnvVars !! name <> Some (SSMVal d).
Proof.
  intros [(Hl & rv & Hr & ->) | (lv & rv & Hl & Hr & Hne & ->)]; cbn.
  - by rewrite Hl.
  - rewrite Hl. repeat split; [done |]. by intros [= ->].
Qed.

Lemma differences_elem entries localEnvVars ssmEnvVars d :
  d ∈ sort_differences (syncParameters_compare entries localEnvVars ssmEnvVars []) <->
  exists name id, (name, id) ∈ entries /\ differs localEnvVars ssmEnvVars name id d.
Proof.
  rewrite sort_differences_elem, syncParameters_compare_elem. split.
  - intros [Hnil | H]; [by apply elem_of_nil in Hnil | done].
  - by right.
Qed.

Lemma updated_remote localEnvVars ssmEnvVars selected name rv :
  (forall d, d ∈ selected ->
     exists name' id', differs localEnvVars ssmEnvVars name' id' d) ->
  (exists d, d ∈ selected /\ Key d = name) ->
  ssmEnvVars !! name = Some rv ->
  apply_updates localEnvVars selected !! name = Some rv.
Proof.
  intros Hsel Hsome Hr. apply apply_updates_selected; [done |].
  intros d Hd Hkey. destruct (Hsel d Hd) as (name' & id' & Hdiff).
  apply differs_key in Hdiff as (Hk & Hv & _). congruence.
Qed.

(** X11: applying every difference, as the force mode does, gives the
    snapshot that the sync then writes.  In it a name of the mapping that
    the store holds has the value of the store, and every name without a
    difference has the value it had; the comparison loop run on it against
    the same fetched values finds no difference.  This is about the
    snapshot in memory: a later run compares what it reads back from the
    env-file, which is this snapshot only when the file reads back
    exactly. *)
Theorem forced_sync_settles
    (entries : list (string * string)) (localEnvVars ssmEnvVars : gmap string string) :
  let differences :=
    sort_differences (syncParameters_compare entries localEnvVars ssmEnvVars []) in
  let updated := apply_updates localEnvVars differences in
  (forall name id rv, (name, id) ∈ entries -> ssmEnvVars !! name = Some rv ->
     updated !! name = Some rv)
  /\ (forall name, (forall d, d ∈ differences -> Key d <> name) ->
        updated !! name = localEnvVars !! name)
  /\ syncParameters_compare entries updated ssmEnvVars [] = [].
Proof.
  intros differences updated.
  assert (Hremote : forall name id rv,
    (name, id) ∈ entries -> ssmEnvVars !! name = Some rv -> updated !! name = Some rv).
  { intros name id rv Hin Hr.
    destruct (decide (localEnvVars !! name = Some rv)) as [Hl | Hl].
    - unfold updated. rewrite apply_updates_other; [done |].
      intros d (name' & id' & _ & Hdiff)%differences_elem Hkey.
      apply differs_key in Hdiff as (Hk & Hv & Hne). congruence.
    - eapply updated_remote; [| | exact Hr].
      + intros d (name' & id' & _ & Hdiff)%differences_elem. eauto.
      + destruct (localEnvVars !! name) as [lv |] eqn:Hlv.
        * exists (mkDifference name lv rv id true). split; [| done].
          apply differences_elem. exists name, id. split; [done |].
          right. exists lv, rv. repeat split; try done. by intros ->.
        * exists (mkDifference name "" rv id true). split; [| done].
          apply differences_elem. exists name, id. split; [done |].
          left. split; [done |]. by exists rv. }
  split; [exact Hremote |]. split; [by apply apply_updates_other |].
  apply elem_of_nil_inv. intros d Hd.
  apply syncParameters_compare_elem in Hd as [Hnil | (name & id & Hin & Hdiff)];
    [by apply elem_of_nil in Hnil |].
  apply differs_key in Hdiff as (_ & Hr & Hne).
  by apply Hne, (Hremote name id).
Qed.

(** ** What a sync leaves in the file *)

Lemma fetch_of_stdin b client paramMap w :
  stdin (fetch_of b client paramMap w).1 = stdin w.
Proof.
  destruct (fetch_range_of_calls b client (map_to_list paramMap) ∅ w)
    as (_ & _ & _ & _ & Hs).
  by destruct b.
Qed.

Lemma print_differences_effects remoteLabel pathLabel i differences w :
  fs (print_differences remoteLabel pathLabel i differences w) = fs w
  /\ calls (print_differences remoteLabel pathLabel i differences w) = calls w
  /\ stdin (print_differences remoteLabel pathLabel i differences w) = stdin w.
Proof.
  revert i w. induction differences as [| d differences IH]; intros i w; [done |].
  cbn [print_differences].
  destruct (IH (S i)
    (print (print (if bool_decide (LocalVal d = "")
                   then print (print w "%d. %s\n" [ArgD (i + 1); ArgS (Key d)])
                              "   Local:  (not set)\n" []
                   else print (print w "%d. %s\n" [ArgD (i + 1); ArgS (Key d)])
                              "   Local:  %s\n" [ArgS (LocalVal d)])
                  remoteLabel [ArgS (SSMVal d)])
           pathLabel [ArgS (SSMPath d)])) as (-> & -> & ->).
  by case_bool_decide.
Qed.

Lemma sort_differences_nil differences :
  sort_differences differences = [] <-> differences = [].
Proof.
  split; [| by intros ->].
  intros Hnil. apply Permutation_nil_r. rewrite <- Hnil.
  unfold sort_differences. by rewrite merge_sort_Permutation.
Qed.

(** What remains of a sync once the fetch has succeeded, when the env-file
    can be written. *)
Lemma sync_after_fetch_run txt remoteEnvVars localEnvVars paramMap envFile
    (force quotes : bool) w :
  validateFilePath envFile = None ->
  envFile ∉ os.readonly (fs w) ->
  let differences :=
    sort_differences
      (syncParameters_compare (map_to_list paramMap) localEnvVars remoteEnvVars []) in
  let chosen : option (list Difference * list Answer) :=
    if force then Some (differences, read_answer <$> stdin w)
    else select differences (read_answer <$> stdin w) in
  match chosen with
  | None =>
    sync_after_fetch txt remoteEnvVars localEnvVars paramMap envFile force quotes w
    = None
  | Some (toUpdate, unread) =>
    exists w',
      sync_after_fetch txt remoteEnvVars localEnvVars paramMap envFile force quotes w
      = Some (w', None)
      /\ calls w' = calls w
      /\ read_answer <$> stdin w' = unread
      /\ (force = true -> stdin w' = stdin w)
      /\ match toUpdate with
         | [] => fs w' = fs w
         | _ :: _ =>
           writeEnvFile (fs w) envFile (apply_updates localEnvVars toUpdate) quotes
           = (fs w', None)
           /\ os.ReadFile (fs w') envFile
              = Some (file_text (apply_updates localEnvVars toUpdate) quotes)
         end
  end.
Proof.
  intros Hpath Hrw differences chosen. unfold sync_after_fetch.
  set (found := syncParameters_compare (map_to_list paramMap) localEnvVars
                  remoteEnvVars []) in *.
  destruct (length found =? 0)%nat eqn:Hlen.
  { apply Nat.eqb_eq, nil_length_inv in Hlen.
    assert (Hnone : differences = []) by by apply sort_differences_nil.
    subst chosen. rewrite Hnone.
    destruct force; cbn [select]; eexists; done. }
  fold differences.
  set (listed := print_differences (txtRemote txt) (txtPath txt) 0 differences
                   (print w (txtFound txt) [ArgD (length differences)])).
  destruct (print_differences_effects (txtRemote txt) (txtPath txt) 0 differences
              (print w (txtFound txt) [ArgD (length differences)]))
    as (Hfs & Hcalls & Hstdin).
  fold listed in Hfs, Hcalls, Hstdin. cbn [print fs calls stdin] in Hfs, Hcalls, Hstdin.
  assert (Hfinish : forall asked toUpdate,
    fs asked = fs w -> calls asked = calls w ->
    exists w',
      (if (length toUpdate =? 0)%nat
       then Some (print asked (txtNone txt) [], None)
       else
         let '(fs', err) :=
           writeEnvFile (fs asked) envFile (apply_updates localEnvVars toUpdate)
             quotes in
         match err with
         | Some err =>
           Some (with_fs asked fs',
                 Some (Wrapf "failed to write updated .env file: %w" [] err))
         | None =>
           Some (print (with_fs asked fs') (txtDone txt)
                       [ArgS envFile; ArgD (length toUpdate)], None)
         end) = Some (w', None)
      /\ calls w' = calls w /\ stdin w' = stdin asked
      /\ match toUpdate with
         | [] => fs w' = fs w
         | _ :: _ =>
           writeEnvFile (fs w) envFile (apply_updates localEnvVars toUpdate) quotes
           = (fs w', None)
           /\ os.ReadFile (fs w') envFile
              = Some (file_text (apply_updates localEnvVars toUpdate) quotes)
         end).
  { intros asked toUpdate Hafs Hacalls.
    destruct toUpdate as [| d toUpdate]; [by eexists |].
    cbn [length Nat.eqb]. rewrite Hafs.
    destruct (writeEnvFile_written (fs w) envFile
                (apply_updates localEnvVars (d :: toUpdate)) quotes Hpath Hrw)
      as (fs' & Hwrite & Hfile & _).
    rewrite Hwrite. eexists. split; [done |].
    cbn [print with_fs fs calls stdin]. split; [done |]. split; [done |].
    split; [done |]. unfold os.ReadFile. by rewrite Hfile. }
  subst chosen. destruct force.
  - destruct (Hfinish (print listed (txtForce txt) [ArgD (length differences)])
                differences) as (w' & Hrun & Hc & Hs & Hfile); [done | done |].
    exists w'. split; [exact Hrun |]. cbn [print stdin] in Hs.
    split; [done |]. split; [by rewrite Hs, Hstdin |].
    split; [intros _; by rewrite Hs |]. exact Hfile.
  - unfold promptForUpdates. rewrite Hstdin.
    pose proof (promptForUpdates_range_select (length differences) 0 differences []
                  (stdout listed) (stdin w)) as Hprompt.
    destruct (promptForUpdates_range _ _ _ _ _ _) as [[[selected out] unread] |],
      (select differences (read_answer <$> stdin w)) as [[accepted unread'] |];
      try done.
    destruct Hprompt as [-> <-]. cbn [app].
    destruct (Hfinish (mkWorld (fs listed) (calls listed) unread out) accepted)
      as (w' & Hrun & Hc & Hs & Hfile); [done | done |].
    exists w'. split; [exact Hrun |]. cbn [stdin] in Hs.
    split; [done |]. split; [by rewrite Hs |]. split; [done |]. exact Hfile.
Qed.

(** X12: a sync (on either back end) whose fetch succeeds and whose env-file
    can be written does the following.  It selects every difference in
    force mode, reading no answer, and otherwise what the protocol of the
    prompt selects on the answers of the input; when the answers run out
    before the protocol ends, the sync has no result.  When the selection
    is empty (nothing differs, or nothing is selected) it returns without
    an error and leaves the file system as it was; when it is not, it
    writes the local snapshot updated with the selection to the env-file
    and returns without an error.  Its calls are those of its fetch: it
    stores nothing. *)
Theorem sync_outcome
    (b : Backend) (client : Client) (localEnvVars remoteEnvVars : gmap string string)
    (paramMap : ParameterMap) (envFile : string) (force quotes : bool)
    (w fetched : World) :
  fetch_of b client paramMap w = (fetched, Ok remoteEnvVars) ->
  validateFilePath envFile = None ->
  envFile ∉ os.readonly (fs w) ->
  let differences :=
    sort_differences
      (syncParameters_compare (map_to_list paramMap) localEnvVars remoteEnvVars []) in
  let chosen : option (list Difference * list Answer) :=
    if force then Some (differences, read_answer <$> stdin w)
    else select differences (read_answer <$> stdin w) in
  match chosen with
  | None =>
    sync_of b client localEnvVars paramMap envFile force quotes w = None
  | Some (toUpdate, unread) =>
    exists w',
      sync_of b client localEnvVars paramMap envFile force quotes w = Some (w', None)
      /\ calls w' = calls fetched
      /\ read_answer <$> stdin w' = unread
      /\ (force = true -> stdin w' = stdin w)
      /\ match toUpdate with
         | [] => fs w' = fs w
         | _ :: _ =>
           writeEnvFile (fs w) envFile (apply_updates localEnvVars toUpdate) quotes
           = (fs w', None)
           /\ os.ReadFile (fs w') envFile
              = Some (file_text (apply_updates localEnvVars toUpdate) quotes)
         end
  end.
Proof.
  intros Hfetch Hpath Hrw.
  pose proof (fetch_of_fs b client paramMap w) as Hfs.
  pose proof (fetch_of_stdin b client paramMap w) as Hstdin.
  rewrite Hfetch in Hfs, Hstdin. cbn [fst] in Hfs, Hstdin.
  assert (Hsync : sync_of b client localEnvVars paramMap envFile force quotes w
                  = sync_after_fetch (text_of b) remoteEnvVars localEnvVars paramMap
                      envFile force quotes fetched).
  { destruct b; cbn [sync_of fetch_of text_of] in *;
      unfold syncParameters, syncParametersWithAzure; by rewrite Hfetch. }
  rewrite Hsync, <- Hfs, <- Hstdin. rewrite <- Hfs in Hrw.
  apply sync_after_fetch_run; done.
Qed.

Lemma sync_outcome_witness :
  exists w',
    syncParameters Sample.store Sample.local Ex.mapping ".env" true false Ex.world0
      = Some (w', None)
    /\ calls w' = calls (fetchParameters Sample.store Ex.mapping Ex.world0).1.
Proof.
  pose proof (sync_outcome AWS Sample.store Sample.local {[ "A" := "2" ]} Ex.mapping
                ".env" true false Ex.world0
                (fetchParameters Sample.store Ex.mapping Ex.world0).1) as Hrun.
  lazy beta iota zeta in Hrun.
  destruct Hrun as (w' & Hsync & Hcalls & _).
  - vm_compute. reflexivity.
  - vm_compute. reflexivity.
  - apply not_elem_of_empty.
  - exists w'. split; [exact Hsync | exact Hcalls].
Defined.

(** ** The effects of a run *)

Lemma prefix_gets issued ids :
  issued `prefix_of` (CallGet <$> ids) -> Forall (λ c, is_get c = true) issued.
Proof.
  intros [rest Hrest].
  assert (Hall : Forall (λ c, is_get c = true) (CallGet <$> ids)).
  { apply Forall_fmap, Forall_forall. done. }
  rewrite Hrest in Hall. by apply Forall_app in Hall as [? _].
Qed.

Lemma prefix_puts issued envVars entries :
  issued `prefix_of` present_puts envVars entries ->
  Forall (λ c, is_get c = false) issued.
Proof.
  intros [rest Hrest].
  assert (Hall : Forall (λ c, is_get c = false) (present_puts envVars entries)).
  { apply Forall_forall. intros c (name & id & v & _ & _ & ->)%present_puts_elem. done. }
  rewrite Hrest in Hall. by apply Forall_app in Hall as [? _].
Qed.

Lemma pushParameters_range_local client envVars entries w :
  fs (pushParameters_range client envVars entries w).1 = fs w
  /\ stdin (pushParameters_range client envVars entries w).1 = stdin w.
Proof.
  revert w. induction entries as [| [envKey id] rest IH]; intros w; [done |].
  cbn [pushParameters_range]. destruct (envVars !! envKey) as [v |]; [| apply IH].
  destruct (Put client (calls w) id v); [| done].
  destruct (IH (record w (CallPut id v))) as [-> ->]. done.
Qed.

Lemma pushParametersToAzure_range_local client envVars entries w :
  fs (pushParametersToAzure_range client envVars entries w).1 = fs w
  /\ stdin (pushParametersToAzure_range client envVars entries w).1 = stdin w.
Proof.
  revert w. induction entries as [| [envKey id] rest IH]; intros w; [done |].
  cbn [pushParametersToAzure_range]. destruct (envVars !! envKey) as [v |]; [| apply IH].
  destruct (Put client (calls w) id v) as [| failure].
  - destruct (IH (record w (CallPut id v))) as [-> ->]. done.
  - by destruct (checkAzureAuthError failure).
Qed.

Lemma writeEnvFile_other fs filename envVars alwaysQuote other :
  other <> filename ->
  os.files (writeEnvFile fs filename envVars alwaysQuote).1 !! other
  = os.files fs !! other.
Proof.
  intros Hne.
  destruct (writeEnvFile fs filename envVars alwaysQuote) as [fs' [err |]] eqn:Hwrite.
  - unfold writeEnvFile in Hwrite.
    destruct (validateFilePath filename); [by injection Hwrite as <- |].
    destruct (os.OpenFile_create_trunc fs filename 384); [done |].
    by injection Hwrite as <-.
  - destruct (writeEnvFile_success _ _ _ _ _ Hwrite) as [Hpath Hrw].
    destruct (writeEnvFile_written fs filename envVars alwaysQuote Hpath Hrw)
      as (fs'' & Hwrite' & _ & Hother).
    rewrite Hwrite in Hwrite'. injection Hwrite' as <-. by apply Hother.
Qed.

Lemma sync_after_fetch_local txt remoteEnvVars localEnvVars paramMap envFile
    force quotes w w' err :
  sync_after_fetch txt remoteEnvVars localEnvVars paramMap envFile force quotes w
    = Some (w', err) ->
  calls w' = calls w
  /\ (forall other, other <> envFile ->
        os.files (fs w') !! other = os.files (fs w) !! other)
  /\ (force = true -> stdin w' = stdin w).
Proof.
  unfold sync_after_fetch.
  set (found := syncParameters_compare (map_to_list paramMap) localEnvVars
                  remoteEnvVars []).
  destruct (length found =? 0)%nat; [by intros [= <- _] |].
  set (differences := sort_differences found).
  set (listed := print_differences (txtRemote txt) (txtPath txt) 0 differences
                   (print w (txtFound txt) [ArgD (length differences)])).
  destruct (print_differences_effects (txtRemote txt) (txtPath txt) 0 differences
              (print w (txtFound txt) [ArgD (length differences)]))
    as (Hfs & Hcalls & Hstdin).
  fold listed in Hfs, Hcalls, Hstdin. cbn [print fs calls stdin] in Hfs, Hcalls, Hstdin.
  assert (Hsel : forall asked toUpdate,
    fs asked = fs w -> calls asked = calls w -> (force = true -> stdin asked = stdin w) ->
    (if (length toUpdate =? 0)%nat
     then Some (print asked (txtNone txt) [], None)
     else
       let '(fs', err) :=
         writeEnvFile (fs asked) envFile (apply_updates localEnvVars toUpdate) quotes in
       match err with
       | Some err =>
         Some (with_fs asked fs',
               Some (Wrapf "failed to write updated .env file: %w" [] err))
       | None =>
         Some (print (with_fs asked fs') (txtDone txt)
                     [ArgS envFile; ArgD (length toUpdate)], None)
       end) = Some (w', err) ->
    calls w' = calls w
    /\ (forall other, other <> envFile ->
          os.files (fs w') !! other = os.files (fs w) !! other)
    /\ (force = true -> stdin w' = stdin w)).
  { intros asked toUpdate Hafs Hacalls Hain.
    destruct (length toUpdate =? 0)%nat.
    { intros [= <- _]. cbn [print fs calls stdin]. by rewrite Hafs. }
    rewrite Hafs.
    pose proof (writeEnvFile_other (fs w) envFile
                  (apply_updates localEnvVars toUpdate) quotes) as Hother.
    destruct (writeEnvFile (fs w) envFile (apply_updates localEnvVars toUpdate) quotes)
      as [fs' [e |]]; intros [= <- _]; done. }
  destruct force.
  - by apply Hsel.
  - unfold promptForUpdates.
    destruct (promptForUpdates_range _ _ _ _ _ _) as [[[selected out] unread] |];
      [| done].
    by apply Hsel.
Qed.

Lemma sync_of_local b client localEnvVars paramMap envFile force quotes w w' err :
  sync_of b client localEnvVars paramMap envFile force quotes w = Some (w', err) ->
  (exists issued, calls w' = calls w ++ issued
                  /\ Forall (λ c, is_get c = true) issued)
  /\ (forall other, other <> envFile ->
        os.files (fs w') !! other = os.files (fs w) !! other)
  /\ (force = true -> stdin w' = stdin w).
Proof.
  intros Hsync.
  pose proof (fetch_of_fs b client paramMap w) as Hfs.
  pose proof (fetch_of_stdin b client paramMap w) as Hstdin.
  destruct (fetch_range_of_calls b client (map_to_list paramMap) ∅ w)
    as (issued & Hcalls & Hprefix%prefix_gets & _).
  assert (Hfetch : fetch_range_of b client (map_to_list paramMap) ∅ w
                   = fetch_of b client paramMap w) by by destruct b.
  rewrite Hfetch in Hcalls.
  assert (Hrun : w' = (fetch_of b client paramMap w).1
    \/ exists remoteEnvVars,
         sync_after_fetch (text_of b) remoteEnvVars localEnvVars paramMap envFile
           force quotes (fetch_of b client paramMap w).1 = Some (w', err)).
  { destruct b; cbn [sync_of fetch_of] in *;
      unfold syncParameters, syncParametersWithAzure in Hsync.
    - destruct (fetchParameters client paramMap w) as [fetched [remote | e]].
      + right. by exists remote.
      + left. by injection Hsync as <- _.
    - destruct (fetchParametersFromAzure client paramMap w) as [fetched [remote | e]].
      + right. by exists remote.
      + left. by injection Hsync as <- _. }
  destruct Hrun as [-> | (remoteEnvVars & Hafter)].
  - split; [by exists issued |]. rewrite Hfs. done.
  - apply sync_after_fetch_local in Hafter as (Hc & Hother & Hin).
    split; [exists issued; by rewrite Hc |].
    split; [intros other Hne; rewrite (Hother other Hne); by rewrite Hfs |].
    intros Hf. by rewrite (Hin Hf).
Qed.

Lemma run_effects_same f w w' :
  calls w' = calls w -> fs w' = fs w -> stdin w' = stdin w -> run_effects f w w'.
Proof.
  intros Hc Hfs Hs. split; [exists []; by rewrite app_nil_r |].
  split; [intros; by rewrite Hfs |]. done.
Qed.

Lemma run_effects_push f w w' issued :
  push f = true ->
  calls w' = calls w ++ issued -> Forall (λ c, is_get c = false) issued ->
  fs w' = fs w -> stdin w' = stdin w -> run_effects f w w'.
Proof.
  intros Hpush Hc Hall Hfs Hs. split; [exists issued; by rewrite Hpush |].
  split; [intros; by rewrite Hfs |]. done.
Qed.

Lemma main_aws_effects env f client w w' status :
  main_aws env f client w = Some (w', status) -> run_effects f w w'.
Proof.
  unfold main_aws. destruct (push f) eqn:Hpush.
  - destruct (negb (empty (key f))).
    + destruct (validateEnvVarName (key f));
        [intros [= <- _]; by apply run_effects_same |].
      destruct (validateSSMPath (ssmPath f));
        [intros [= <- _]; by apply run_effects_same |].
      unfold pushSingleParameter.
      destruct (Put client (calls w) (ssmPath f) (value f)); intros [= <- _];
        apply (run_effects_push _ _ _ [CallPut (ssmPath f) (value f)]);
        try done; by repeat constructor.
    + destruct (loadParameterMap env (fs w) (mapFile f)) as [paramMap | e];
        [| intros [= <- _]; by apply run_effects_same].
      destruct (readEnvFile (fs w) (envFile f)) as [envVars | e];
        [| intros [= <- _]; by apply run_effects_same].
      unfold pushParameters.
      destruct (pushParameters_range_calls client envVars (map_to_list paramMap) w)
        as (issued & Hc & Hprefix%prefix_puts & _).
      destruct (pushParameters_range_local client envVars (map_to_list paramMap) w)
        as [Hfs Hs].
      destruct (pushParameters_range client envVars (map_to_list paramMap) w)
        as [pushed [e |]]; intros [= <- _];
        by apply (run_effects_push _ _ _ issued).
  - destruct (sync f) eqn:Hsync.
    + destruct (loadParameterMap env (fs w) (mapFile f)) as [paramMap | e];
        [| intros [= <- _]; by apply run_effects_same].
      destruct (readEnvFile (fs w) (envFile f)) as [envVars | e];
        [| intros [= <- _]; by apply run_effects_same].
      pose proof (sync_of_local AWS client envVars paramMap (envFile f) (force f)
                    (quotes f) w) as Hlocal.
      cbn [sync_of] in Hlocal.
      destruct (syncParameters client envVars paramMap (envFile f) (force f)
                  (quotes f) w) as [[synced [e |]] |]; [| | done].
      * intros [= <- _]. destruct (Hlocal _ _ eq_refl) as (Hc & Hother & Hin).
        unfold run_effects. rewrite Hpush. cbn [negb fs calls stdin].
        split; [exact Hc |]. split; [exact Hother |]. split; [done |].
        intros [? | Hf]; [congruence | by apply Hin].
      * intros [= <- _]. destruct (Hlocal _ _ eq_refl) as (Hc & Hother & Hin).
        unfold run_effects. rewrite Hpush. cbn [negb].
        split; [exact Hc |]. split; [exact Hother |]. split; [done |].
        intros [? | Hf]; [congruence | by apply Hin].
    + destruct (loadParameterMap env (fs w) (mapFile f)) as [paramMap | e];
        [| intros [= <- _]; by apply run_effects_same].
      pose proof (fetch_of_fs AWS client paramMap w) as Hfs.
      pose proof (fetch_of_stdin AWS client paramMap w) as Hs.
      destruct (fetch_range_of_calls AWS client (map_to_list paramMap) ∅ w)
        as (issued & Hc & Hprefix%prefix_gets & _).
      cbn [fetch_of fetch_range_of] in Hfs, Hs, Hc. fold (fetchParameters client paramMap w) in Hc.
      destruct (fetchParameters client paramMap w) as [fetched [envVars | e]];
        cbn [fst] in Hfs, Hs, Hc.
      * pose proof (writeEnvFile_other (fs fetched) (envFile f) envVars (quotes f))
          as Hother.
        destruct (writeEnvFile (fs fetched) (envFile f) envVars (quotes f))
          as [fs' [e |]]; intros [= <- _]; unfold run_effects; rewrite Hpush;
          cbn [negb fs calls stdin print with_fs];
          (split; [by exists issued |]); (split; [| done]).
        -- intros other Hne. by rewrite Hfs.
        -- intros other Hne. rewrite <- Hfs. by apply Hother.
      * intros [= <- _]. unfold run_effects. rewrite Hpush. cbn [negb fs calls stdin].
        split; [by exists issued |]. split; [| done].
        intros other Hne. by rewrite Hfs.
Qed.

Lemma main_azure_effects env f client w w' status :
  main_azure env f client w = Some (w', status) -> run_effects f w w'.
Proof.
  unfold main_azure. destruct (push f) eqn:Hpush.
  - destruct (negb (empty (key f))).
    + destruct (validateEnvVarName (key f));
        [intros [= <- _]; by apply run_effects_same |].
      destruct (validateAzureSecretName (secretName f));
        [intros [= <- _]; by apply run_effects_same |].
      unfold pushSingleParameterToAzure.
      destruct (Put client (calls w) (secretName f) (value f)) as [| failure];
        [| destruct (checkAzureAuthError failure)]; intros [= <- _];
        apply (run_effects_push _ _ _ [CallPut (secretName f) (value f)]);
        try done; by repeat constructor.
    + destruct (loadParameterMapRaw env (fs w) (mapFile f)) as [paramMap | e];
        [| intros [= <- _]; by apply run_effects_same].
      destruct (validateAzureParameterMap paramMap);
        [intros [= <- _]; by apply run_effects_same |].
      destruct (readEnvFile (fs w) (envFile f)) as [envVars | e];
        [| intros [= <- _]; by apply run_effects_same].
      unfold pushParametersToAzure.
      destruct (pushParametersToAzure_range_calls client envVars (map_to_list paramMap) w)
        as (issued & Hc & Hprefix%prefix_puts & _).
      destruct (pushParametersToAzure_range_local client envVars (map_to_list paramMap) w)
        as [Hfs Hs].
      destruct (pushParametersToAzure_range client envVars (map_to_list paramMap) w)
        as [pushed [e |]]; intros [= <- _];
        by apply (run_effects_push _ _ _ issued).
  - destruct (sync f) eqn:Hsync.
    + destruct (loadParameterMapRaw env (fs w) (mapFile f)) as [paramMap | e];
        [| intros [= <- _]; by apply run_effects_same].
      destruct (validateAzureParameterMap paramMap);
        [intros [= <- _]; by apply run_effects_same |].
      destruct (readEnvFile (fs w) (envFile f)) as [envVars | e];
        [| intros [= <- _]; by apply run_effects_same].
      pose proof (sync_of_local Azure client envVars paramMap (envFile f) (force f)
                    (quotes f) w) as Hlocal.
      cbn [sync_of] in Hlocal.
      destruct (syncParametersWithAzure client envVars paramMap (envFile f) (force f)
                  (quotes f) w) as [[synced [e |]] |]; [| | done].
      * intros [= <- _]. destruct (Hlocal _ _ eq_refl) as (Hc & Hother & Hin).
        unfold run_effects. rewrite Hpush. cbn [negb fs calls stdin].
        split; [exact Hc |]. split; [exact Hother |]. split; [done |].
        intros [? | Hf]; [congruence | by apply Hin].
      * intros [= <- _]. destruct (Hlocal _ _ eq_refl) as (Hc & Hother & Hin).
        unfold run_effects. rewrite Hpush. cbn [negb].
        split; [exact Hc |]. split; [exact Hother |]. split; [done |].
        intros [? | Hf]; [congruence | by apply Hin].
    + destruct (loadParameterMapRaw env (fs w) (mapFile f)) as [paramMap | e];
        [| intros [= <- _]; by apply run_effects_same].
      destruct (validateAzureParameterMap paramMap);
        [intros [= <- _]; by apply run_effects_same |].
      pose proof (fetch_of_fs Azure client paramMap w) as Hfs.
      pose proof (fetch_of_stdin Azure client paramMap w) as Hs.
      destruct (fetch_range_of_calls Azure client (map_to_list paramMap) ∅ w)
        as (issued & Hc & Hprefix%prefix_gets & _).
      cbn [fetch_of fetch_range_of] in Hfs, Hs, Hc.
      fold (fetchParametersFromAzure client paramMap w) in Hc.
      destruct (fetchParametersFromAzure client paramMap w) as [fetched [envVars | e]];
        cbn [fst] in Hfs, Hs, Hc.
      * pose proof (writeEnvFile_other (fs fetched) (envFile f) envVars (quotes f))
          as Hother.
        destruct (writeEnvFile (fs fetched) (envFile f) envVars (quotes f))
          as [fs' [e |]]; intros [= <- _]; unfold run_effects; rewrite Hpush;
          cbn [negb fs calls stdin print with_fs];
          (split; [by exists issued |]); (split; [| done]).
        -- intros other Hne. by rewrite Hfs.
        -- intros other Hne. rewrite <- Hfs. by apply Hother.
      * intros [= <- _]. unfold run_effects. rewrite Hpush. cbn [negb fs calls stdin].
        split; [by exists issued |]. split; [| done].
        intros other Hne. by rewrite Hfs.
Qed.

Lemma main_effects env f w w' status :
  main env f w = Some (w', status) -> run_effects f w w'.
Proof.
  unfold main. destruct (showVersion f); [intros [= <- _]; by apply run_effects_same |].
  destruct (check_flags f (print w "asciiArt" [])) as [stop |] eqn:Hflags.
  - destruct (check_flags_calls _ _ _ Hflags) as (w1 & -> & Hc & Hfs).
    intros [= <- _].
    assert (Hs : stdin w1 = stdin w).
    { revert Hflags. unfold check_flags, exit_usage, exit1.
      repeat match goal with
      | |- context [if ?c then _ else _] => destruct c
      end; by intros [= <-]. }
    by apply run_effects_same.
  - destruct (azure f).
    + destruct (createAzureClient env (vaultName f)) as [client |];
        [| intros [= <- _]; by apply run_effects_same].
      intros Hrun%main_azure_effects. exact Hrun.
    + destruct (loadAWSConfig env (profile f) (region f)) as [client |];
        [| intros [= <- _]; by apply run_effects_same].
      intros Hrun%main_aws_effects. exact Hrun.
Qed.

(** X13: A run in push mode only writes to the store, and a pull or a sync only
    reads from it: whatever its mode and its answers, a sync never changes
    the store. *)
Theorem store_calls_follow_the_mode
    (env : Env) (f : Flags) (w w' : World) (status : Z) :
  main env f w = Some (w', status) ->
  exists issued,
    calls w' = calls w ++ issued
    /\ Forall (λ c, is_get c = negb (push f)) issued.
Proof. intros Hrun. by destruct (main_effects _ _ _ _ _ Hrun) as (? & _). Qed.

Lemma store_calls_follow_the_mode_witness :
  exists issued,
    calls Sample.ran = calls Sample.start ++ issued
    /\ Forall (λ c, is_get c = true) issued.
Proof.
  apply (store_calls_follow_the_mode (Ex.env {[ "/app/a" := "2" ]})
           (Ex.flags "map.json" true true) Sample.start Sample.ran 0).
  vm_compute. reflexivity.
Defined.



(** ** Pushing one value *)

(** X15: A push of one value validates the name and the identifier first: when
    both pass, the run makes exactly one call, storing the value at the
    identifier, and exits with 0 exactly when the store accepts it; when
    one of them fails, the run makes no call and exits with 1.  Either
    way no file changes. *)
Theorem single_push_validates_before_storing
    (env : Env) (f : Flags) (client : Client) (w : World) :
  showVersion f = false -> push f = true -> sync f = false ->
  key f <> "" -> value f <> "" ->
  (if azure f
   then vaultName f <> "" /\ secretName f <> ""
        /\ createAzureClient env (vaultName f) = Some client
   else ssmPath f <> "" /\ loadAWSConfig env (profile f) (region f) = Some client) ->
  let id := if azure f then secretName f else ssmPath f in
  exists w' status,
    main env f w = Some (w', status)
    /\ fs w' = fs w
    /\ match validateEnvVarName (key f),
             (if azure f then validateAzureSecretName id else validateSSMPath id) with
       | None, None =>
         calls w' = calls w ++ [CallPut id (value f)]
         /\ (status = 0 <-> Put client (calls w) id (value f) = PutDone)
       | _, _ => calls w' = calls w /\ status = 1
       end.
Proof.
  intros Hver Hpush Hsync Hkey Hvalue Hmode id. subst id.
  assert (Hk : empty (key f) = false) by by apply bool_decide_eq_false_2.
  assert (Hv : empty (value f) = false) by by apply bool_decide_eq_false_2.
  unfold main, check_flags. rewrite Hver, Hpush, Hsync, Hk, Hv.
  destruct (azure f) eqn:Hazure.
  - destruct Hmode as (Hvault & Hsecret & ->).
    assert (Hvn : empty (vaultName f) = false) by by apply bool_decide_eq_false_2.
    assert (Hsn : empty (secretName f) = false) by by apply bool_decide_eq_false_2.
    rewrite Hvn, Hsn. cbn [andb orb negb].
    unfold main_azure. rewrite Hpush, Hk. cbn [negb].
    destruct (validateEnvVarName (key f)); [by eexists _, _ |].
    destruct (validateAzureSecretName (secretName f)); [by eexists _, _ |].
    unfold pushSingleParameterToAzure. cbn [calls print].
    destruct (Put client (calls w) (secretName f) (value f)) as [| failure].
    + by eexists _, _.
    + destruct (checkAzureAuthError failure); eexists _, _;
        (split; [done |]); (split; [done |]); (split; [done |]); by split.
  - destruct Hmode as (Hpath & ->).
    assert (Hsp : empty (ssmPath f) = false) by by apply bool_decide_eq_false_2.
    rewrite Hsp. cbn [andb orb negb].
    unfold main_aws. rewrite Hpush, Hk. cbn [negb].
    destruct (validateEnvVarName (key f)); [by eexists _, _ |].
    destruct (validateSSMPath (ssmPath f)); [by eexists _, _ |].
    unfold pushSingleParameter. cbn [calls print].
    destruct (Put client (calls w) (ssmPath f) (value f)) as [| failure].
    + by eexists _, _.
    + eexists _, _.
      (split; [done |]); (split; [done |]); (split; [done |]); by split.
Qed.

Lemma single_push_validates_before_storing_witness :
  exists w' status,
    main (Ex.env ∅) Sample.push_flags Ex.world0 = Some (w', status)
    /\ fs w' = fs Ex.world0
    /\ calls w' = [CallPut "/app/api-key" "secret"]
    /\ (status = 0 <-> PutDone = PutDone).
Proof.
  apply (single_push_validates_before_storing (Ex.env ∅) Sample.push_flags
           (Ex.holding ∅) Ex.world0); (done || (vm_compute; done)).
Defined.

(** ** An env-file that cannot be read *)

(** X16: When a bulk push or a sync cannot read or parse its env-file, the run
    ends with status 1 before any remote call, and changes no file. *)
Theorem unreadable_env_file_makes_no_remote_call
    (env : Env) (f : Flags) (w : World) (err : error) :
  push f = true \/ sync f = true ->
  (push f = true -> key f = "") ->
  readEnvFile (fs w) (envFile f) = Err err ->
  exists w' status,
    main env f w = Some (w', status)
    /\ calls w' = calls w /\ fs w' = fs w
    /\ (showVersion f = false -> status = 1).
Proof.
  intros Hmode Hbulk Hread. unfold main.
  destruct (showVersion f); [by eexists _, _ |].
  destruct (check_flags f (print w "asciiArt" [])) as [stop |] eqn:Hflags.
  { destruct (check_flags_calls _ _ _ Hflags) as (w1 & -> & Hc & Hfs).
    by exists w1, 1. }
  assert (Hkey : push f = true -> negb (empty (key f)) = false).
  { intros Hp. rewrite (Hbulk Hp). done. }
  assert (Hsync : push f = false -> sync f = true).
  { intros Hp. destruct Hmode; congruence. }
  destruct (azure f).
  - destruct (createAzureClient env (vaultName f)) as [client |]; [| by eexists _, _].
    unfold main_azure. cbn [fs print].
    destruct (push f); [rewrite Hkey by done | rewrite Hsync by done];
      (destruct (loadParameterMapRaw env (fs w) (mapFile f)) as [paramMap | e];
         [| by eexists _, _]);
      (destruct (validateAzureParameterMap paramMap); [by eexists _, _ |]);
      rewrite Hread; by eexists _, _.
  - destruct (loadAWSConfig env (profile f) (region f)) as [client |];
      [| by eexists _, _].
    unfold main_aws. cbn [fs print].
    destruct (push f); [rewrite Hkey by done | rewrite Hsync by done];
      (destruct (loadParameterMap env (fs w) (mapFile f)) as [paramMap | e];
         [| by eexists _, _]);
      rewrite Hread; by eexists _, _.
Qed.

Lemma unreadable_env_file_makes_no_remote_call_witness :
  exists w' status,
    main (Ex.env ∅) (Ex.flags "map.json" true false)
         (Ex.world "mapping A" 420 "NO SEPARATOR") = Some (w', status)
    /\ calls w' = [].
Proof.
  destruct (unreadable_env_file_makes_no_remote_call (Ex.env ∅)
              (Ex.flags "map.json" true false)
              (Ex.world "mapping A" 420 "NO SEPARATOR")
              (Errorf "invalid line %d: %s" [ArgD 1; ArgS "NO SEPARATOR"]))
    as (w' & status & Hrun & Hcalls & _).
  - by right.
  - done.
  - vm_compute. reflexivity.
  - by exists w', status.
Defined.


(** ** Two runs that show the limits of the statements above *)

(** A forced sync with a store that holds a backslash before the letter n
    writes a file that reads back with a line feed; a second forced sync
    therefore finds the same difference again and rewrites the file. *)
Example second_forced_sync_rewrites :
  readEnvFile (fs Sample.windows_ran) ".env"
  = Ok {[ "A" := "C:" +:+ str1 Ch.lf +:+ "ew" ]}
  /\ exists w2,
       main Sample.windows_env (Ex.flags "map.json" true true) Sample.windows_ran
       = Some (w2, 0)
       /\ last (stdout w2) = Some (Printf (txtDone ssm_text) [ArgS ".env"; ArgD 1]).
Proof.
  split; [vm_compute; reflexivity |].
  eexists. split; vm_compute; reflexivity.
Qed.

(** A pull whose env-file is its mapping file loads the mapping, fetches,
    and overwrites the mapping file with the env-file. *)
Example pull_onto_mapping_file :
  exists w',
    main (Ex.env {[ "/app/a" := "2" ]}) Sample.same_file_flags Sample.start
    = Some (w', 0)
    /\ os.ReadFile (fs w') "map.json" = Some ("A=2" +:+ str1 Ch.lf).
Proof. eexists. split; vm_compute; reflexivity. Qed.

(** ** Lines and bindings *)

Lemma readEnvFile_lines_inv i lines envVars result :
  readEnvFile_lines i lines envVars = Ok result ->
  Forall (λ l, line_malformed l = false) lines
  /\ result = fold_left bind_line lines envVars.
Proof.
  revert i envVars. induction lines as [| line lines IH]; intros i envVars.
  - by intros [= <-].
  - rewrite readEnvFile_lines_step.
    destruct (line_malformed line) eqn:Hline; [done |].
    intros [Hok ->]%IH. split; [by constructor | done].
Qed.

Lemma fold_bind_line_lookup lines envVars k v :
  fold_left bind_line lines envVars !! k = Some v ->
  envVars !! k = Some v
  \/ exists line, line ∈ lines /\ line_binding line = Some (k, v).
Proof.
  revert envVars. induction lines as [| line lines IH]; intros envVars; [by left |].
  cbn [fold_left]. intros [Hbound | (l & Hin & Hl)]%IH.
  - unfold bind_line in Hbound.
    destruct (line_binding line) as [[k' v'] |] eqn:Hline; [| by left].
    destruct (decide (k' = k)) as [-> | Hne].
    + rewrite lookup_insert_eq in Hbound. injection Hbound as ->.
      right. exists line. split; [left | done].
    + rewrite lookup_insert_ne in Hbound by done. by left.
  - right. exists l. split; [by right | done].
Qed.

Lemma line_binding_name line k v :
  line_binding line = Some (k, v) -> occurs Ch.eq k = false.
Proof.
  unfold line_binding. destruct (line_skipped line); [done |].
  destruct (occurs Ch.eq (strings.TrimSpace line)) eqn:Heq.
  - destruct (SplitN2_some _ Heq) as (p0 & p1 & _ & Hp0 & ->). intros [= <- _].
    destruct (TrimSpace_split Ch.eq p0 eq_refl) as (a & b & Hsplit & _ & _).
    rewrite Hsplit, !occurs_app in Hp0.
    apply orb_false_iff in Hp0 as [_ Hp0]. by apply orb_false_iff in Hp0 as [? _].
  - by rewrite SplitN2_none.
Qed.

(** X17: A snapshot that [readEnvFile] returns binds a name to a value only if a
    line of the file does, and the file has no line without an [=] sign
    other than the blank lines and the comments; the names it binds hold
    no [=] sign. *)
Theorem snapshot_comes_from_lines
    (fs : os.FS) (filename : string) (envVars : gmap string string) :
  readEnvFile fs filename = Ok envVars ->
  exists text,
    os.ReadFile fs filename = Some text
    /\ Forall (λ l, line_malformed l = false) (strings.Split text Ch.lf)
    /\ forall k v, envVars !! k = Some v ->
         occurs Ch.eq k = false
         /\ exists line, line ∈ strings.Split text Ch.lf
                         /\ line_binding line = Some (k, v).
Proof.
  unfold readEnvFile. destruct (validateFilePath filename); [done |].
  destruct (os.ReadFile fs filename) as [text |]; [| done].
  intros [Hok ->]%readEnvFile_lines_inv. exists text.
  split; [done |]. split; [done |]. intros k v Hk.
  apply fold_bind_line_lookup in Hk as [Hempty | (line & Hin & Hline)].
  - by rewrite lookup_empty in Hempty.
  - split; [by eapply line_binding_name | by exists line].
Qed.

Lemma snapshot_comes_from_lines_witness :
  exists text, os.ReadFile (Ex.file 420 Ex.text_repeated) ".env" = Some text
               /\ Forall (λ l, line_malformed l = false) (strings.Split text Ch.lf).
Proof.
  destruct (snapshot_comes_from_lines (Ex.file 420 Ex.text_repeated) ".env"
              {[ "A" := "3"; "B" := "2" ]}) as (text & Hread & Hok & _).
  - vm_compute. reflexivity.
  - by exists text.
Defined.

(** X18: Whatever the values hold, the written file has one line for each name
    whose text has no line feed, and nothing else: a value with line
    feeds is quoted and its line feeds are escaped. *)
Theorem one_line_per_name
    (fs : os.FS) (filename : string) (envVars : gmap string string)
    (alwaysQuote : bool) (fs' : os.FS) :
  writeEnvFile fs filename envVars alwaysQuote = (fs', None) ->
  (forall k, is_Some (envVars !! k) -> occurs Ch.lf k = false) ->
  exists text,
    os.ReadFile fs' filename = Some text
    /\ strings.Split text Ch.lf
       = ((λ k, k +:+ "=" +:+ written_value alwaysQuote (default "" (envVars !! k)))
            <$> sort_Strings (map_to_list envVars).*1) ++ [""]
    /\ length (strings.Split text Ch.lf) = S (size envVars).
Proof.
  intros Hwrite Hkeys.
  destruct (writeEnvFile_success _ _ _ _ _ Hwrite) as [Hpath Hrw].
  destruct (writeEnvFile_written fs filename envVars alwaysQuote Hpath Hrw)
    as (fs'' & Hwrite' & Hfile & _).
  rewrite Hwrite in Hwrite'. injection Hwrite' as <-.
  eexists. split; [unfold os.ReadFile; by rewrite Hfile |]. cbn [os.Data].
  set (keys := sort_Strings (map_to_list envVars).*1).
  set (body := λ k, k +:+ "=" +:+ written_value alwaysQuote (default "" (envVars !! k))).
  assert (Hlines : writeEnvFile_line envVars alwaysQuote <$> keys
                   = (λ b, b +:+ str1 Ch.lf) <$> (body <$> keys)).
  { rewrite <- list_fmap_compose. apply list_fmap_ext. intros _ k _.
    apply writeEnvFile_line_value. }
  assert (Hsplit : strings.Split
                     (joined (writeEnvFile_line envVars alwaysQuote <$> keys)) Ch.lf
                   = (body <$> keys) ++ [""]).
  { rewrite Hlines. apply Split_joined_lines.
    apply Forall_fmap, Forall_forall. intros k Hk%sort_Strings_keys.
    unfold body. cbn. by rewrite !occurs_app, (Hkeys k Hk), written_value_no_lf. }
  split; [exact Hsplit |].
  rewrite Hsplit, length_app, length_fmap. cbn [length].
  unfold keys, sort_Strings. rewrite merge_sort_Permutation, length_fmap.
  rewrite length_map_to_list. lia.
Qed.

Lemma one_line_per_name_witness :
  exists text,
    os.ReadFile (writeEnvFile Ex.fs0 ".env" {[ "KEY" := "two
lines" ]} false).1 ".env" = Some text
    /\ length (strings.Split text Ch.lf) = 2%nat.
Proof.
  destruct (one_line_per_name Ex.fs0 ".env" {[ "KEY" := "two
lines" ]} false (writeEnvFile Ex.fs0 ".env" {[ "KEY" := "two
lines" ]} false).1) as (text & Hread & _ & Hlen).
  - vm_compute. reflexivity.
  - intros k [v [<- _]%lookup_singleton_Some]. vm_compute. reflexivity.
  - exists text. split; [exact Hread |]. rewrite Hlen. vm_compute. reflexivity.
Defined.

(** ** A pull, then a read *)

Lemma loadParameterMapRaw_path env fs filename paramMap :
  loadParameterMapRaw env fs filename = Ok paramMap -> empty filename = false.
Proof.
  unfold loadParameterMapRaw, empty. case_bool_decide as Hempty; [| done].
  by rewrite Hempty.
Qed.

Lemma loadParameterMap_inv env fs filename paramMap :
  loadParameterMap env fs filename = Ok paramMap ->
  loadParameterMapRaw env fs filename = Ok paramMap
  /\ validateParameterMap paramMap = None.
Proof.
  unfold loadParameterMap.
  destruct (loadParameterMapRaw env fs filename) as [m | e]; [| done].
  destruct (validateParameterMap m) eqn:Hv; [done |]. by intros [= <-].
Qed.

Lemma validateParameterMap_names (paramMap : ParameterMap) name id :
  validateParameterMap paramMap = None -> paramMap !! name = Some id ->
  validateEnvVarName name = None.
Proof.
  unfold validateParameterMap. destruct (size paramMap =? 0)%nat; [done |].
  rewrite validateParameterMap_range_ok, Forall_forall.
  intros Hall Hin%elem_of_map_to_list. by destruct (Hall _ Hin).
Qed.

Lemma validateAzureParameterMap_names (paramMap : ParameterMap) name id :
  validateAzureParameterMap paramMap = None -> paramMap !! name = Some id ->
  validateEnvVarName name = None.
Proof.
  unfold validateAzureParameterMap. destruct (size paramMap =? 0)%nat; [done |].
  rewrite validateAzureParameterMap_range_ok, Forall_forall.
  intros Hall Hin%elem_of_map_to_list. by destruct (Hall _ Hin).
Qed.

(** X19: A pull from a store whose answers do not change, with a mapping that
    is accepted and no failure other than missing identifiers, ends with
    status 0 and leaves an env-file that reads back as the values of the
    store under the names of the mapping, provided no backslash of a
    value is directly followed by [n], [r] or [t] and the values written
    bare are safe. *)
Theorem pull_then_read
    (env : Env) (f : Flags) (client : Client) (paramMap : ParameterMap) (w : World) :
  showVersion f = false -> push f = false -> sync f = false ->
  (if azure f
   then vaultName f <> "" /\ createAzureClient env (vaultName f) = Some client
        /\ loadParameterMapRaw env (fs w) (mapFile f) = Ok paramMap
        /\ validateAzureParameterMap paramMap = None
   else loadAWSConfig env (profile f) (region f) = Some client
        /\ loadParameterMap env (fs w) (mapFile f) = Ok paramMap) ->
  steady client ->
  (forall name id, paramMap !! name = Some id ->
     match Get client [] id with
     | GotValue (Some v) =>
       plain_backslashes v = true
       /\ (quotes f || needsQuoting v = false -> bare_safe v = true)
     | GotValue None | GetFailed NotFound => True
     | GetFailed _ => False
     end) ->
  validateFilePath (envFile f) = None ->
  envFile f ∉ os.readonly (fs w) ->
  exists w' envVars,
    main env f w = Some (w', 0)
    /\ readEnvFile (fs w') (envFile f) = Ok envVars
    /\ forall name,
         envVars !! name
         = paramMap !! name ≫= λ id, fetched_value (Get client [] id).
Proof.
  intros Hver Hpush Hsync Hmode Hsteady Hstore Hpath Hrw.
  set (b := if azure f then Azure else AWS).
  set (w0 := print w "asciiArt" []).
  set (snapshot := fetched client (map_to_list paramMap) ∅).
  assert (Hraw : loadParameterMapRaw env (fs w) (mapFile f) = Ok paramMap).
  { destruct (azure f); [by destruct Hmode as (_ & _ & ? & _) |].
    destruct Hmode as [_ Hload]. by apply loadParameterMap_inv in Hload as [? _]. }
  assert (Hnames : forall name id,
            paramMap !! name = Some id -> validateEnvVarName name = None).
  { intros name id. destruct (azure f).
    - destruct Hmode as (_ & _ & _ & Hvalid). by apply validateAzureParameterMap_names.
    - destruct Hmode as [_ Hload]. apply loadParameterMap_inv in Hload as [_ Hvalid].
      by apply validateParameterMap_names. }
  assert (Hfetch : (fetch_range_of b client (map_to_list paramMap) ∅ w0).2 = Ok snapshot).
  { apply fetch_range_of_steady; [done |]. apply Forall_forall.
    intros [name id] Hin%elem_of_map_to_list. cbn [snd].
    specialize (Hstore name id Hin).
    by destruct (Get client [] id) as [[v |] | []]. }
  assert (Hfs : fs (fetch_range_of b client (map_to_list paramMap) ∅ w0).1 = fs w).
  { pose proof (fetch_of_fs b client paramMap w0) as H. by destruct b. }
  destruct (written_read_back (fs w) (envFile f) snapshot (quotes f) Hpath Hrw)
    as (fs' & Hwrite & Hread).
  { intros k v Hk. unfold snapshot in Hk. rewrite fetched_map_lookup in Hk.
    destruct (paramMap !! k) as [id |] eqn:Hid; [| done]. cbn in Hk.
    split; [by eapply Hnames |].
    specialize (Hstore k id Hid).
    destruct (Get client [] id) as [[v' |] | []]; try done.
    cbn in Hk. injection Hk as ->. by destruct Hstore. }
  assert (Hsame : read_value (quotes f) <$> snapshot = snapshot).
  { apply map_eq. intros k. rewrite lookup_fmap.
    destruct (snapshot !! k) as [v |] eqn:Hk; [| done]. cbn. f_equal.
    apply read_value_plain.
    unfold snapshot in Hk. rewrite fetched_map_lookup in Hk.
    destruct (paramMap !! k) as [id |] eqn:Hid; [| done]. cbn in Hk.
    specialize (Hstore k id Hid).
    destruct (Get client [] id) as [[v' |] | []]; try done.
    cbn in Hk. injection Hk as ->. by destruct Hstore. }
  rewrite Hsame in Hread.
  assert (Hmap : empty (mapFile f) = false) by by eapply loadParameterMapRaw_path.
  unfold main, check_flags. rewrite Hver, Hpush, Hsync, Hmap. cbn [andb].
  fold w0. subst b. destruct (azure f).
  - destruct Hmode as (Hvault & -> & _ & Hvalid).
    assert (Hvn : empty (vaultName f) = false) by by apply bool_decide_eq_false_2.
    rewrite Hvn. cbn [andb].
    unfold main_azure. rewrite Hpush, Hsync. cbn [fs print w0].
    rewrite Hraw, Hvalid. unfold fetchParametersFromAzure.
    cbn [fetch_range_of] in Hfetch, Hfs.
    destruct (fetchParametersFromAzure_range client (map_to_list paramMap) ∅ w0)
      as [fetched_w result]. cbn [fst snd] in Hfetch, Hfs. subst result.
    rewrite Hfs, Hwrite. eexists _, snapshot. split; [done |].
    split; [exact Hread | apply fetched_map_lookup].
  - destruct Hmode as (-> & Hload).
    unfold main_aws. rewrite Hpush, Hsync. cbn [fs print w0].
    rewrite Hload. unfold fetchParameters.
    cbn [fetch_range_of] in Hfetch, Hfs.
    destruct (fetchParameters_range client (map_to_list paramMap) ∅ w0)
      as [fetched_w result]. cbn [fst snd] in Hfetch, Hfs. subst result.
    rewrite Hfs, Hwrite. eexists _, snapshot. split; [done |].
    split; [exact Hread | apply fetched_map_lookup].
Qed.

Lemma pull_then_read_witness :
  exists w' envVars,
    main (Ex.env {[ "/app/a" := "2" ]}) (Ex.flags "map.json" false false) Sample.start
      = Some (w', 0)
    /\ readEnvFile (fs w') ".env" = Ok envVars
    /\ envVars !! "A" = Some "2".
Proof.
  destruct (pull_then_read (Ex.env {[ "/app/a" := "2" ]})
              (Ex.flags "map.json" false false)
              (Ex.holding {[ "/app/a" := "2" ]}) {[ "A" := "/app/a" ]} Sample.start)
    as (w' & envVars & Hrun & Hread & Hlookup).
  - reflexivity.
  - reflexivity.
  - reflexivity.
  - vm_compute. split; reflexivity.
  - intros history history' id. reflexivity.
  - intros name id [<- <-]%lookup_singleton_Some. vm_compute. split; [reflexivity |].
    intros _. reflexivity.
  - vm_compute. reflexivity.
  - apply not_elem_of_empty.
  - exists w', envVars. split; [exact Hrun |]. split; [exact Hread |].
    rewrite Hlookup. vm_compute. reflexivity.
Defined.

(** ** A bulk push *)

(** X20: A bulk push whose mapping is accepted and whose env-file reads, with a
    store that accepts every write, ends with status 0 after storing the
    local value of every name of the mapping that the env-file binds, in
    the order the mapping is visited, and nothing else; no file changes.
    The number it reports is the number of names in the env-file, mapped
    or not, and not the number of values stored. *)
Theorem bulk_push_run
    (env : Env) (f : Flags) (client : Client) (paramMap : ParameterMap)
    (envVars : gmap string string) (w : World) :
  showVersion f = false -> push f = true -> sync f = false ->
  key f = "" -> value f = "" -> ssmPath f = "" -> secretName f = "" ->
  (if azure f
   then vaultName f <> "" /\ createAzureClient env (vaultName f) = Some client
        /\ loadParameterMapRaw env (fs w) (mapFile f) = Ok paramMap
        /\ validateAzureParameterMap paramMap = None
   else loadAWSConfig env (profile f) (region f) = Some client
        /\ loadParameterMap env (fs w) (mapFile f) = Ok paramMap) ->
  readEnvFile (fs w) (envFile f) = Ok envVars ->
  (forall history id v, Put client history id v = PutDone) ->
  exists w',
    main env f w = Some (w', 0)
    /\ calls w' = calls w ++ present_puts envVars (map_to_list paramMap)
    /\ fs w' = fs w
    /\ stdout w' = stdout w ++ [Printf "asciiArt" [];
                                pushed_message (azure f) (size envVars)].
Proof.
  intros Hver Hpush Hsync Hkey Hvalue Hpath Hsecret Hmode Hread Hstore.
  set (w0 := print w "asciiArt" []).
  assert (Hraw : loadParameterMapRaw env (fs w) (mapFile f) = Ok paramMap).
  { destruct (azure f); [by destruct Hmode as (_ & _ & ? & _) |].
    destruct Hmode as [_ Hload]. by apply loadParameterMap_inv in Hload as [? _]. }
  assert (Hmap : empty (mapFile f) = false) by by eapply loadParameterMapRaw_path.
  assert (Henv : empty (envFile f) = false).
  { unfold empty. case_bool_decide as Hempty; [| done].
    rewrite Hempty in Hread. done. }
  unfold main, check_flags.
  rewrite Hver, Hpush, Hsync, Hkey, Hvalue, Hpath, Hsecret, Hmap, Henv.
  change (empty "") with true. cbn [andb orb negb]. fold w0.
  destruct (azure f).
  - destruct Hmode as (Hvault & -> & _ & Hvalid).
    assert (Hvn : empty (vaultName f) = false) by by apply bool_decide_eq_false_2.
    rewrite Hvn. cbn [andb].
    unfold main_azure. rewrite Hpush, Hkey. change (empty "") with true.
    cbn [negb fs print w0]. rewrite Hraw, Hvalid, Hread. unfold pushParametersToAzure.
    destruct (pushParametersToAzure_range_calls client envVars (map_to_list paramMap) w0)
      as (issued & Hcalls & _ & Hall).
    pose proof (pushParametersToAzure_range_succeeds client envVars
                  (map_to_list paramMap) w0 Hstore) as Hok.
    destruct (pushParametersToAzure_range_local client envVars (map_to_list paramMap) w0)
      as [Hfs _].
    pose proof (pushParametersToAzure_range_silent client envVars
                  (map_to_list paramMap) w0) as Hout.
    destruct (pushParametersToAzure_range client envVars (map_to_list paramMap) w0)
      as [pushed result]. cbn [fst snd] in *. subst result.
    eexists. split; [done |]. cbn [print calls fs stdout].
    rewrite Hcalls, (Hall eq_refl), Hfs, Hout. subst w0.
    cbn [print calls fs stdout]. by rewrite <- app_assoc.
  - destruct Hmode as (-> & Hload).
    unfold main_aws. rewrite Hpush, Hkey. change (empty "") with true.
    cbn [negb fs print w0]. rewrite Hload, Hread. unfold pushParameters.
    destruct (pushParameters_range_calls client envVars (map_to_list paramMap) w0)
      as (issued & Hcalls & _ & Hall).
    pose proof (pushParameters_range_succeeds client envVars
                  (map_to_list paramMap) w0 Hstore) as Hok.
    destruct (pushParameters_range_local client envVars (map_to_list paramMap) w0)
      as [Hfs _].
    pose proof (pushParameters_range_silent client envVars
                  (map_to_list paramMap) w0) as Hout.
    destruct (pushParameters_range client envVars (map_to_list paramMap) w0)
      as [pushed result]. cbn [fst snd] in *. subst result.
    eexists. split; [done |]. cbn [print calls fs stdout].
    rewrite Hcalls, (Hall eq_refl), Hfs, Hout. subst w0.
    cbn [print calls fs stdout]. by rewrite <- app_assoc.
Qed.

Lemma bulk_push_run_witness :
  exists w',
    main (Ex.env ∅) Sample.bulk_flags Sample.two_names = Some (w', 0)
    /\ calls w' = [CallPut "/app/a" "1"]
    /\ stdout w' = [Printf "asciiArt" []; pushed_message false 2].
Proof.
  destruct (bulk_push_run (Ex.env ∅) Sample.bulk_flags (Ex.holding ∅)
              {[ "A" := "/app/a" ]} {[ "A" := "1"; "EXTRA" := "2" ]} Sample.two_names)
    as (w' & Hrun & Hcalls & _ & Hout).
  - reflexivity.
  - reflexivity.
  - reflexivity.
  - reflexivity.
  - reflexivity.
  - reflexivity.
  - reflexivity.
  - vm_compute. split; reflexivity.
  - vm_compute. reflexivity.
  - intros history id v. reflexivity.
  - exists w'. split; [exact Hrun |]. rewrite Hcalls, Hout.
    split; vm_compute; reflexivity.
Defined.
